(** * ViewerApplication.cpp of the glTF viewer, embedded and verified

    The development follows the source file top to bottom:

    - the integer conversions the C++ code performs implicitly
      ([size_t] to [GLsizei], [int] to [GLenum], [size_t] addition);
    - the part of the [tinygltf] data model the application reads;
    - a recording model of the OpenGL context: the state of buffer objects
      and vertex array objects as the calls of the program leave it, and the
      log of every call in program order;
    - [loadGltfFile], [createBufferObjects], [vao_init],
      [createVertexArrayObjects], the lambdas [drawScene] / [drawNode],
      the frame loop of [run] and the constructor.

    Stateful code is written in a state-and-failure monad [M] over [World];
    failure ([None]) stands for C++ undefined behaviour (indexing a
    [std::vector] out of range).  Driver-side error conditions of OpenGL are
    outside the model, except for a negative count given to [glGen*], which
    decides what is written into the vectors of the program. *)

From Stdlib Require Import ZArith Floats.
From stdpp Require Import gmap strings list fin_maps.

Open Scope Z_scope.

(** ** Integer conversions *)

(** [size_t] (64 bit, unsigned) converted to [GLsizei] (32 bit, signed). *)
Definition to_GLsizei (z : Z) : Z := (z + 2 ^ 31) mod 2 ^ 32 - 2 ^ 31.

(** [int] converted to [GLenum] (32 bit, unsigned). *)
Definition to_GLenum (z : Z) : Z := z mod 2 ^ 32.

(** Addition of two [size_t] values. *)
Definition size_t_add (a b : Z) : Z := (a + b) mod 2 ^ 64.

(** [v[i]] for a [std::vector] and a signed index: the index is converted to
    [size_t], so a negative one is out of range like a too large one. *)
Definition vec_at {A} (v : list A) (i : Z) : option A :=
  if decide (0 ≤ i) then v !! Z.to_nat i else None.

(** [std::endl] *)
Definition endl : string := String (Ascii.ascii_of_nat 10) EmptyString.

(** ** glm vectors and matrices (columns first, as glm stores them) *)

Record vec3 := mkvec3 { v3x : float; v3y : float; v3z : float }.
Record vec4 := mkvec4 { v4x : float; v4y : float; v4z : float; v4w : float }.
Record mat4 := mkmat4 { col0 : vec4; col1 : vec4; col2 : vec4; col3 : vec4 }.

(** [glm::mat4(s)]: [s] on the diagonal. *)
Definition mat4_diag (s : float) : mat4 :=
  mkmat4 (mkvec4 s 0 0 0) (mkvec4 0 s 0 0) (mkvec4 0 0 s 0) (mkvec4 0 0 0 s).

(** ** The tinygltf data model (the members the application reads) *)

Module Buffer.
Record t := mk { data : list Byte.byte }.
End Buffer.

Module BufferView.
Record t := mk {
  buffer : Z;       (* int *)
  byteOffset : Z;   (* size_t *)
  byteStride : Z    (* size_t *)
}.
End BufferView.

Module Accessor.
Record t := mk {
  bufferView : Z;     (* int *)
  byteOffset : Z;     (* size_t *)
  componentType : Z;  (* int *)
  type : Z            (* int, one of the TINYGLTF_TYPE_ codes *)
}.
End Accessor.

Module Primitive.
Record t := mk {
  attributes : gmap string Z;  (* std::map<std::string, int> *)
  indices : Z                  (* int, negative when absent *)
}.
End Primitive.

Module Mesh.
Record t := mk { primitives : list Primitive.t }.
End Mesh.

Module Node.
Record t := mk {
  mesh : Z;                  (* int, negative when absent *)
  children : list Z;
  translation : list float;  (* std::vector<double>, empty or 3 values *)
  rotation : list float;
  scale : list float;
  matrix : list float
}.
End Node.

Module Scene.
Record t := mk { nodes : list Z }.
End Scene.

Module Model.
Record t := mk {
  accessors : list Accessor.t;
  buffers : list Buffer.t;
  bufferViews : list BufferView.t;
  meshes : list Mesh.t;
  nodes : list Node.t;
  scenes : list Scene.t;
  defaultScene : Z            (* int, -1 when the file declares none *)
}.
End Model.

(** The type codes of tiny_gltf.h (included at line 14, not part of the
    sources at hand): the vector types are coded by their cardinality, a
    scalar is coded 64 + 1. *)
Definition TINYGLTF_TYPE_VEC2 : Z := 2.
Definition TINYGLTF_TYPE_VEC3 : Z := 3.
Definition TINYGLTF_TYPE_VEC4 : Z := 4.
Definition TINYGLTF_TYPE_SCALAR : Z := 64 + 1.

Definition VERTEX_ATTRIB_POSITION_IDX : Z := 0.
Definition VERTEX_ATTRIB_NORMAL_IDX : Z := 1.
Definition VERTEX_ATTRIB_TEXCOORD0_IDX : Z := 2.

(** ** The OpenGL context *)

Inductive BufferTarget := GL_ARRAY_BUFFER | GL_ELEMENT_ARRAY_BUFFER.

Definition GL_DEPTH_TEST : Z := 0x0B71.
Definition GL_COLOR_BUFFER_BIT : Z := 0x4000.
Definition GL_DEPTH_BUFFER_BIT : Z := 0x100.

(** The data store of a buffer object, as [glBufferStorage] creates it:
    immutable, with the given size, contents and flags. *)
Record BufferStore := mkBufferStore {
  bs_size : Z;
  bs_data : list Byte.byte;
  bs_flags : Z
}.

(** What [glVertexAttribPointer] records for one attribute slot; [ap_buffer]
    is the buffer bound to [GL_ARRAY_BUFFER] at the time of the call. *)
Record AttribPointer := mkAttribPointer {
  ap_size : Z;
  ap_type : Z;
  ap_normalized : bool;
  ap_stride : Z;
  ap_offset : Z;
  ap_buffer : Z
}.

(** The state of one vertex array object. *)
Record VaoState := mkVaoState {
  vao_enabled : gset Z;
  vao_pointers : gmap Z AttribPointer;
  vao_element_buffer : Z
}.

Definition default_vao : VaoState := mkVaoState ∅ ∅ 0.

(** The calls of the OpenGL API the application makes, and the two draw
    calls of the API. *)
Inductive GLCall :=
| glGenBuffers_ (n : Z) (names : list Z)
| glBindBuffer_ (target : BufferTarget) (name : Z)
| glBufferStorage_ (target : BufferTarget) (size : Z) (data : list Byte.byte) (flags : Z)
| glGenVertexArrays_ (n : Z) (names : list Z)
| glBindVertexArray_ (name : Z)
| glEnableVertexAttribArray_ (index : Z)
| glVertexAttribPointer_ (index size type : Z) (normalized : bool) (stride pointer : Z)
| glGetUniformLocation_ (name : string)
| glEnable_ (cap : Z)
| glUseProgram_
| glViewport_ (x y width height : Z)
| glClear_ (mask : Z)
| glDrawElements_ (mode count type offset : Z)
| glDrawArrays_ (mode first count : Z).

Definition is_draw_call (c : GLCall) : bool :=
  match c with
  | glDrawElements_ _ _ _ _ | glDrawArrays_ _ _ _ => true
  | _ => false
  end.

(** The driver hands out names: [glGen*] returns names that are not in use
    and not zero. *)
Class GLDriver := {
  gen_names : gset Z → nat → list Z;
  gen_names_length : ∀ used n, length (gen_names used n) = n;
  gen_names_NoDup : ∀ used n, NoDup (gen_names used n);
  gen_names_fresh : ∀ used n x, x ∈ gen_names used n → (x ∉ used) ∧ (x ≠ 0)
}.

(** Modelled from the spec: utils/cameras.hpp is not under src/.  It declares
    the camera (eye position, center, up vector, from which the view matrix
    derives) and the camera controller with [getCamera], [setCamera] and
    [update]; [setCamera(C); getCamera() == C] before any [update].
    [WindowInput] is the pointer and keyboard state that [update] reads from
    the window. *)
Class Cameras := {
  Camera : Type;
  Camera_default : Camera;                   (* Camera() *)
  mkCamera : vec3 → vec3 → vec3 → Camera;    (* Camera{eye, center, up} *)
  getViewMatrix : Camera → mat4;
  WindowInput : Type;
  FirstPersonCameraController : Type;
  mkFirstPersonCameraController : float → FirstPersonCameraController;
  getCamera : FirstPersonCameraController → Camera;
  setCamera : Camera → FirstPersonCameraController → FirstPersonCameraController;
  update : float → WindowInput → FirstPersonCameraController → FirstPersonCameraController;
  getCamera_setCamera : ∀ c k, getCamera (setCamera c k) = c
}.

(** ** The world the application runs in *)

(** What the tinygltf loader answers for a file: its return value, the error
    and warning texts, and the model it filled. *)
Record LoadResult := mkLoadResult {
  lr_ret : bool;
  lr_err : string;
  lr_warn : string;
  lr_model : Model.t
}.

Section Viewer.
Context `{Driver : GLDriver} `{Cams : Cameras}.

(** One iteration of the frame loop as the environment determines it:
    [fi_elapsed] is the value of [float(glfwGetTime() - seconds)], the two
    flags are those of [ImGui::GetIO()], [fi_header_open] and
    [fi_button_clicked] are the answers of the two overlay widgets that have
    a branch, [fi_input] is the window input [update] reads. *)
Record FrameInput := mkFrameInput {
  fi_elapsed : float;
  fi_WantCaptureMouse : bool;
  fi_WantCaptureKeyboard : bool;
  fi_header_open : bool;
  fi_button_clicked : bool;
  fi_input : WindowInput
}.

(** Everything observable a run does, in program order.  [EvDrawSceneBegin],
    [EvDrawSceneEnd] and [EvDrawNode] mark the entry and the return of the
    lambda [drawScene] and every invocation of [drawNode]; [EvSetCamera]
    marks a call of [setCamera] on the controller. *)
Inductive Event :=
| EvGL (c : GLCall)
| EvCompileProgram (vertexShader fragmentShader : string)
| EvSetCamera (camera : Camera)
| EvDrawSceneBegin (camera : Camera)
| EvDrawNode (nodeIdx : Z) (parentMatrix : mat4)
| EvDrawSceneEnd
| EvImguiNewFrame
| EvGui (camera : Camera) (header_open : bool)
| EvSetClipboard (camera : Camera)
| EvImguiRenderFrame
| EvPollEvents
| EvUpdate (elapsed : float)
| EvSwapBuffers.

Record World := mkWorld {
  gl_buffer_names : gset Z;          (* names handed out by glGenBuffers *)
  gl_buffers : gmap Z BufferStore;   (* data stores, by buffer name *)
  gl_array_buffer : Z;               (* binding of GL_ARRAY_BUFFER *)
  gl_vao_names : gset Z;             (* names handed out by glGenVertexArrays *)
  gl_vaos : gmap Z VaoState;         (* vertex array objects, by name *)
  gl_vertex_array : Z;               (* the bound vertex array *)
  cerr : string;                     (* what was written to std::cerr *)
  events : list Event
}.

(** The vertex array the context is bound to (the default state when the
    object was not configured yet). *)
Definition bound_vao (w : World) : VaoState :=
  default default_vao (gl_vaos w !! gl_vertex_array w).

Definition set_bound_vao (v : VaoState) (w : World) : World :=
  mkWorld (gl_buffer_names w) (gl_buffers w) (gl_array_buffer w)
    (gl_vao_names w) (<[gl_vertex_array w := v]> (gl_vaos w))
    (gl_vertex_array w) (cerr w) (events w).

Definition log (e : Event) (w : World) : World :=
  mkWorld (gl_buffer_names w) (gl_buffers w) (gl_array_buffer w)
    (gl_vao_names w) (gl_vaos w) (gl_vertex_array w) (cerr w) (events w ++ [e]).

(** *** The monad *)

Definition M (A : Type) : Type := World → option (A * World).

#[global] Instance M_ret : MRet M := λ A a w, Some (a, w).
#[global] Instance M_bind : MBind M := λ A B f m w,
  match m w with
  | Some (a, w') => f a w'
  | None => None
  end.

(** Undefined behaviour. *)
Definition undefined {A} : M A := λ _, None.

Definition defined {A} (o : option A) : M A :=
  match o with
  | Some a => mret a
  | None => undefined
  end.

Definition emit (e : Event) : M unit := λ w, Some ((), log e w).

Definition cerr_write (s : string) : M unit := λ w,
  Some ((), mkWorld (gl_buffer_names w) (gl_buffers w) (gl_array_buffer w)
    (gl_vao_names w) (gl_vaos w) (gl_vertex_array w) (cerr w +:+ s) (events w)).

(** [for (size_t i = from; i < from + count; ++i) body(i)] *)
Fixpoint for_loop (from : nat) (count : nat) (body : nat → M unit) : M unit :=
  match count with
  | O => mret ()
  | S count' => body from;; for_loop (S from) count' body
  end.

(** The same loop around a body that assigns to variables [vars] declared
    outside of it. *)
Fixpoint for_loop_with {V} (from : nat) (count : nat) (body : nat → V → M V)
    (vars : V) : M V :=
  match count with
  | O => mret vars
  | S count' => vars' ← body from vars; for_loop_with (S from) count' body vars'
  end.

(** *** The OpenGL calls *)

Definition glGenBuffers (n : Z) : M (list Z) := λ w,
  let names :=
    if decide (0 ≤ n)
    then gen_names (gl_buffer_names w ∪ dom (gl_buffers w)) (Z.to_nat n)
    else [] in
  Some (names,
    log (EvGL (glGenBuffers_ n names))
      (mkWorld (list_to_set names ∪ gl_buffer_names w) (gl_buffers w)
         (gl_array_buffer w) (gl_vao_names w) (gl_vaos w) (gl_vertex_array w)
         (cerr w) (events w))).

Definition glBindBuffer (target : BufferTarget) (name : Z) : M unit := λ w,
  Some ((), log (EvGL (glBindBuffer_ target name))
    match target with
    | GL_ARRAY_BUFFER =>
        mkWorld (gl_buffer_names w) (gl_buffers w) name
          (gl_vao_names w) (gl_vaos w) (gl_vertex_array w) (cerr w) (events w)
    | GL_ELEMENT_ARRAY_BUFFER =>
        let v := bound_vao w in
        set_bound_vao (mkVaoState (vao_enabled v) (vao_pointers v) name) w
    end).

Definition bound_buffer (target : BufferTarget) (w : World) : Z :=
  match target with
  | GL_ARRAY_BUFFER => gl_array_buffer w
  | GL_ELEMENT_ARRAY_BUFFER => vao_element_buffer (bound_vao w)
  end.

Definition glBufferStorage (target : BufferTarget) (size : Z)
    (data : list Byte.byte) (flags : Z) : M unit := λ w,
  Some ((), log (EvGL (glBufferStorage_ target size data flags))
    (mkWorld (gl_buffer_names w)
       (<[bound_buffer target w := mkBufferStore size data flags]> (gl_buffers w))
       (gl_array_buffer w) (gl_vao_names w) (gl_vaos w) (gl_vertex_array w)
       (cerr w) (events w))).

Definition glGenVertexArrays (n : Z) : M (list Z) := λ w,
  let names :=
    if decide (0 ≤ n)
    then gen_names (gl_vao_names w ∪ dom (gl_vaos w)) (Z.to_nat n)
    else [] in
  Some (names,
    log (EvGL (glGenVertexArrays_ n names))
      (mkWorld (gl_buffer_names w) (gl_buffers w) (gl_array_buffer w)
         (list_to_set names ∪ gl_vao_names w) (gl_vaos w) (gl_vertex_array w)
         (cerr w) (events w))).

(** Binding a name for the first time creates the object in its default
    state; zero unbinds. *)
Definition glBindVertexArray (name : Z) : M unit := λ w,
  Some ((), log (EvGL (glBindVertexArray_ name))
    (mkWorld (gl_buffer_names w) (gl_buffers w) (gl_array_buffer w)
       (gl_vao_names w)
       (if decide (name = 0) then gl_vaos w
        else match gl_vaos w !! name with
             | Some _ => gl_vaos w
             | None => <[name := default_vao]> (gl_vaos w)
             end)
       name (cerr w) (events w))).

Definition glEnableVertexAttribArray (index : Z) : M unit := λ w,
  let v := bound_vao w in
  Some ((), log (EvGL (glEnableVertexAttribArray_ index))
    (set_bound_vao
       (mkVaoState ({[index]} ∪ vao_enabled v) (vao_pointers v)
          (vao_element_buffer v)) w)).

Definition glVertexAttribPointer (index size type : Z) (normalized : bool)
    (stride pointer : Z) : M unit := λ w,
  let v := bound_vao w in
  Some ((), log (EvGL (glVertexAttribPointer_ index size type normalized stride pointer))
    (set_bound_vao
       (mkVaoState (vao_enabled v)
          (<[index := mkAttribPointer size type normalized stride pointer
                        (gl_array_buffer w)]> (vao_pointers v))
          (vao_element_buffer v)) w)).

(** [glGen*(n, p)] writes the names it generated to [p[0 .. n-1]]; here [p]
    is [v.data() + offset]. *)
Definition write_names (v : list Z) (offset : nat) (names : list Z) : list Z :=
  take offset v ++ names ++ drop (offset + length names)%nat v.

(** ** loadGltfFile *)

Definition loadGltfFile (r : LoadResult) : M (bool * Model.t) :=
  let ret := lr_ret r in
  (if decide (lr_err r = "") then mret ()
   else cerr_write ("Error: " +:+ lr_err r +:+ endl));;
  (if decide (lr_warn r = "") then mret ()
   else cerr_write ("Warning: " +:+ lr_warn r +:+ endl));;
  mret (ret, lr_model r).

(** ** createBufferObjects *)

(** Lines 57 to 63: the body of the loop.  The size of a [std::vector] of
    bytes fits the signed type of the size argument. *)
Definition upload_buffer (model : Model.t) (bo : list Z) (i : nat) : M unit :=
  name ← defined (bo !! i);
  glBindBuffer GL_ARRAY_BUFFER name;;
  b ← defined (Model.buffers model !! i);
  glBufferStorage GL_ARRAY_BUFFER
    (Z.of_nat (length (Buffer.data b))) (Buffer.data b) 0.

Definition createBufferObjects (model : Model.t) : M (list Z) :=
  let len := length (Model.buffers model) in
  let bo := replicate len 0 in
  names ← glGenBuffers (to_GLsizei (Z.of_nat len));
  let bo := write_names bo 0 names in
  for_loop 0 len (upload_buffer model bo);;
  glBindBuffer GL_ARRAY_BUFFER 0;;
  mret bo.

(** ** vao_init *)

Definition vao_init (model : Model.t) (primitive : Primitive.t)
    (bufferObjects : list Z) (str : string) (index : Z) : M unit :=
  match Primitive.attributes primitive !! str with
  | Some accessorIdx =>
      accessor ← defined (vec_at (Model.accessors model) accessorIdx);
      bufferView ←
        defined (vec_at (Model.bufferViews model) (Accessor.bufferView accessor));
      let bufferIdx := BufferView.buffer bufferView in
      bufferObject ← defined (vec_at (Model.buffers model) bufferIdx);
      glEnableVertexAttribArray index;;
      name ← defined (vec_at bufferObjects bufferIdx);
      glBindBuffer GL_ARRAY_BUFFER name;;
      let byteOffset :=
        size_t_add (BufferView.byteOffset bufferView) (Accessor.byteOffset accessor) in
      glVertexAttribPointer index
        (Accessor.type accessor)
        (to_GLenum (Accessor.componentType accessor))
        false
        (to_GLsizei (BufferView.byteStride bufferView))
        byteOffset
  | None => mret ()
  end.

(** ** createVertexArrayObjects *)

Record VaoRange := mkVaoRange {
  begin : Z;  (* GLsizei *)
  count : Z   (* GLsizei *)
}.

(** Lines 148 to 160: the body of the loop over the primitives of a mesh,
    for the vertex array [name] and the primitive it is made for. *)
Definition vao_of_primitive (model : Model.t) (bufferObjects : list Z)
    (name : Z) (primitive : Primitive.t) : M unit :=
  glBindVertexArray name;;
  vao_init model primitive bufferObjects "POSITION" VERTEX_ATTRIB_POSITION_IDX;;
  vao_init model primitive bufferObjects "NORMAL" VERTEX_ATTRIB_NORMAL_IDX;;
  vao_init model primitive bufferObjects "TEXCOORD_0" VERTEX_ATTRIB_TEXCOORD0_IDX;;
  if decide (0 ≤ Primitive.indices primitive) then
    accessor ← defined (vec_at (Model.accessors model) (Primitive.indices primitive));
    bufferView ←
      defined (vec_at (Model.bufferViews model) (Accessor.bufferView accessor));
    ebo ← defined (vec_at bufferObjects (BufferView.buffer bufferView));
    glBindBuffer GL_ELEMENT_ARRAY_BUFFER ebo
  else mret ().

(** Lines 137 to 161: the body of the loop over the meshes; the variables it
    assigns to are [vertexArrayObjects] and [meshIndexToVaoRange].  In the
    inner loop the name and the primitive are both read before the body
    binds the name; the source reads the primitive just after the binding,
    and both reads are in range. *)
Definition vaos_of_mesh (model : Model.t) (bufferObjects : list Z) (i : nat)
    (vars : list Z * list VaoRange) : M (list Z * list VaoRange) :=
  let '(vertexArrayObjects, meshIndexToVaoRange) := vars in
  let offset := length vertexArrayObjects in
  mesh ← defined (Model.meshes model !! i);
  let primitive_len := length (Mesh.primitives mesh) in
  _ ← defined (meshIndexToVaoRange !! i);
  let meshIndexToVaoRange :=
    <[i := mkVaoRange (to_GLsizei (Z.of_nat offset))
                      (to_GLsizei (Z.of_nat primitive_len))]> meshIndexToVaoRange in
  let vertexArrayObjects := resize (offset + primitive_len) 0 vertexArrayObjects in
  names ← glGenVertexArrays (to_GLsizei (Z.of_nat primitive_len));
  let vertexArrayObjects := write_names vertexArrayObjects offset names in
  for_loop 0 primitive_len (λ k,
    name ← defined (vertexArrayObjects !! (offset + k)%nat);
    primitive ← defined (Mesh.primitives mesh !! k);
    vao_of_primitive model bufferObjects name primitive);;
  mret (vertexArrayObjects, meshIndexToVaoRange).

(** The vector [meshIndexToVaoRange] is passed by reference: the function
    takes its value at the call and returns its value at the return, next to
    the vector of vertex array names. *)
Definition createVertexArrayObjects (model : Model.t) (bufferObjects : list Z)
    (meshIndexToVaoRange : list VaoRange) : M (list Z * list VaoRange) :=
  let vertexArrayObjects : list Z := [] in
  let mesh_len := length (Model.meshes model) in
  let meshIndexToVaoRange := resize mesh_len (mkVaoRange 0 0) meshIndexToVaoRange in
  r ← for_loop_with 0 mesh_len (vaos_of_mesh model bufferObjects)
        (vertexArrayObjects, meshIndexToVaoRange);
  glBindVertexArray 0;;
  mret r.

(** ** The application object and its constructor *)

(** The members [run] reads.  The constructor also sets the paths of the
    application, the ini file of the overlay and the key callback, which no
    statement below depends on. *)
Record ViewerApplication := mkViewerApplication {
  m_nWindowWidth : Z;       (* uint32_t *)
  m_nWindowHeight : Z;      (* uint32_t *)
  m_gltfFilePath : string;
  m_vertexShader : string;
  m_fragmentShader : string;
  m_hasUserCamera : bool;
  m_userCamera : Camera
}.

(** Modelled from the spec: ViewerApplication.hpp is not under src/.  The
    look-at triple of the command line is optional, so [m_hasUserCamera]
    starts as [false]; the names of the two default shaders are those the
    header gives, taken here as arguments. *)
Definition ViewerApplication_members (vertexShader0 fragmentShader0 : string)
    (width height : Z) (gltfFile : string) : ViewerApplication :=
  mkViewerApplication width height gltfFile vertexShader0 fragmentShader0
    false Camera_default.

(** Lines 314 to 350.  [lookatArgs[0]] to [lookatArgs[8]] are read as soon
    as the vector is not empty. *)
Definition ViewerApplication_new (vertexShader0 fragmentShader0 : string)
    (width height : Z) (gltfFile : string) (lookatArgs : list float)
    (vertexShader fragmentShader : string) : option ViewerApplication :=
  let this := ViewerApplication_members vertexShader0 fragmentShader0
                width height gltfFile in
  this ←
    (if decide (lookatArgs = []) then Some this
     else
       a0 ← lookatArgs !! 0%nat; a1 ← lookatArgs !! 1%nat; a2 ← lookatArgs !! 2%nat;
       a3 ← lookatArgs !! 3%nat; a4 ← lookatArgs !! 4%nat; a5 ← lookatArgs !! 5%nat;
       a6 ← lookatArgs !! 6%nat; a7 ← lookatArgs !! 7%nat; a8 ← lookatArgs !! 8%nat;
       Some (mkViewerApplication (m_nWindowWidth this) (m_nWindowHeight this)
               (m_gltfFilePath this) (m_vertexShader this) (m_fragmentShader this)
               true
               (mkCamera (mkvec3 a0 a1 a2) (mkvec3 a3 a4 a5) (mkvec3 a6 a7 a8))));
  let this :=
    if decide (vertexShader = "") then this
    else mkViewerApplication (m_nWindowWidth this) (m_nWindowHeight this)
           (m_gltfFilePath this) vertexShader (m_fragmentShader this)
           (m_hasUserCamera this) (m_userCamera this) in
  let this :=
    if decide (fragmentShader = "") then this
    else mkViewerApplication (m_nWindowWidth this) (m_nWindowHeight this)
           (m_gltfFilePath this) (m_vertexShader this) fragmentShader
           (m_hasUserCamera this) (m_userCamera this) in
  Some this.

(** ** run *)

Definition gl (c : GLCall) : M unit := emit (EvGL c).

(** Lines 236 to 241: the body of [drawNode] is empty. *)
Definition drawNode (model : Model.t) (viewMatrix : mat4)
    (nodeIdx : Z) (parentMatrix : mat4) : M unit :=
  emit (EvDrawNode nodeIdx parentMatrix).

(** Lines 227 to 252. *)
Definition drawScene (this : ViewerApplication) (model : Model.t)
    (camera : Camera) : M unit :=
  emit (EvDrawSceneBegin camera);;
  gl (glViewport_ 0 0 (to_GLsizei (m_nWindowWidth this))
        (to_GLsizei (m_nWindowHeight this)));;
  gl (glClear_ (Z.lor GL_COLOR_BUFFER_BIT GL_DEPTH_BUFFER_BIT));;
  let viewMatrix := getViewMatrix camera in
  (if decide (0 ≤ Model.defaultScene model) then
     scene ← defined (vec_at (Model.scenes model) (Model.defaultScene model));
     for_loop 0 (length (Scene.nodes scene)) (λ i,
       nodeIdx ← defined (Scene.nodes scene !! i);
       drawNode model viewMatrix nodeIdx (mat4_diag 1))
   else mret ());;
  emit EvDrawSceneEnd.

Definition guiHasFocus (f : FrameInput) : bool :=
  fi_WantCaptureMouse f || fi_WantCaptureKeyboard f.

(** Lines 257 to 306: one iteration of the frame loop; the variable it
    assigns to is [cameraController]. *)
Definition frame (this : ViewerApplication) (model : Model.t) (f : FrameInput)
    (cameraController : FirstPersonCameraController)
    : M FirstPersonCameraController :=
  let camera := getCamera cameraController in
  drawScene this model camera;;
  emit EvImguiNewFrame;;
  emit (EvGui camera (fi_header_open f));;
  (if fi_header_open f && fi_button_clicked f
   then emit (EvSetClipboard camera) else mret ());;
  emit EvImguiRenderFrame;;
  emit EvPollEvents;;
  let ellapsedTime := fi_elapsed f in
  cameraController ←
    (if negb (guiHasFocus f)
     then emit (EvUpdate ellapsedTime);;
          mret (update ellapsedTime (fi_input f) cameraController)
     else mret cameraController);
  emit EvSwapBuffers;;
  mret cameraController.

(** The loop runs once for every element of [frames]: the iterations before
    [shouldClose()] first answers true. *)
Fixpoint frame_loop (this : ViewerApplication) (model : Model.t)
    (frames : list FrameInput) (cameraController : FirstPersonCameraController)
    : M FirstPersonCameraController :=
  match frames with
  | [] => mret cameraController
  | f :: frames' =>
      cameraController ← frame this model f cameraController;
      frame_loop this model frames' cameraController
  end.

(** Lines 184 to 200.  The values are exact in single as in double
    precision.  The projection matrix of lines 186 to 188 is never read. *)
Definition run_cameraController (this : ViewerApplication)
    : M FirstPersonCameraController :=
  let maxDistance := 500%float in
  let maxDistance := if (0 <? maxDistance)%float then maxDistance else 100%float in
  let cameraController := mkFirstPersonCameraController (0.5 * maxDistance)%float in
  if m_hasUserCamera this then
    emit (EvSetCamera (m_userCamera this));;
    mret (setCamera (m_userCamera this) cameraController)
  else
    let camera := mkCamera (mkvec3 0 0 0) (mkvec3 0 0 (-1)) (mkvec3 0 1 0) in
    emit (EvSetCamera camera);;
    mret (setCamera camera cameraController).

(** Lines 169 to 312.  [loaded] is what the loader answers for a path;
    the compilation of the shaders and the window are outside, they show as
    events. *)
Definition run (this : ViewerApplication) (loaded : string → LoadResult)
    (frames : list FrameInput) : M Z :=
  emit (EvCompileProgram (m_vertexShader this) (m_fragmentShader this));;
  gl (glGetUniformLocation_ "uModelViewProjMatrix");;
  gl (glGetUniformLocation_ "uModelViewMatrix");;
  gl (glGetUniformLocation_ "uNormalMatrix");;
  cameraController ← run_cameraController this;
  '(ok, model) ← loadGltfFile (loaded (m_gltfFilePath this));
  if negb ok then
    cerr_write ("Failed to load glTF model" +:+ endl);;
    mret (-1)
  else
    bufferObjects ← createBufferObjects model;
    r ← createVertexArrayObjects model bufferObjects [];
    gl (glEnable_ GL_DEPTH_TEST);;
    gl glUseProgram_;;
    _ ← frame_loop this model frames cameraController;
    mret 0.

(** ** What the log of a run is made of *)

Definition is_gl_event (e : Event) : bool :=
  match e with EvGL _ => true | _ => false end.

Definition is_draw_event (e : Event) : bool :=
  match e with EvGL c => is_draw_call c | _ => false end.

(** The draw calls among the events. *)
Definition draw_calls (evs : list Event) : list Event :=
  List.filter is_draw_event evs.

(** The world with another content of [std::cerr]. *)
Definition with_cerr (c : string) (w : World) : World :=
  mkWorld (gl_buffer_names w) (gl_buffers w) (gl_array_buffer w)
    (gl_vao_names w) (gl_vaos w) (gl_vertex_array w) c (events w).

(** The world with further events logged. *)
Definition add_events (evs : list Event) (w : World) : World :=
  mkWorld (gl_buffer_names w) (gl_buffers w) (gl_array_buffer w)
    (gl_vao_names w) (gl_vaos w) (gl_vertex_array w) (cerr w) (events w ++ evs).

(** [w'] comes from [w] by calls of OpenGL only. *)
Definition gl_extends (w w' : World) : Prop :=
  cerr w' = cerr w ∧
  ∃ evs, events w' = events w ++ evs ∧ Forall (λ e, is_gl_event e = true) evs ∧
         draw_calls evs = [].

Definition gl_only {A} (m : M A) : Prop :=
  ∀ w a w', m w = Some (a, w') → gl_extends w w'.

(** The root nodes [drawScene] starts from: those of the default scene, none
    when the model has no default scene; undefined when the index of the
    default scene is out of range. *)
Definition scene_roots (model : Model.t) : option (list Z) :=
  if decide (0 ≤ Model.defaultScene model)
  then Scene.nodes <$> vec_at (Model.scenes model) (Model.defaultScene model)
  else Some [].

(** The invocations of [drawNode] among the events. *)
Definition drawNode_calls (evs : list Event) : list (Z * mat4) :=
  omap (λ e, match e with EvDrawNode n m => Some (n, m) | _ => None end) evs.

(** The cameras [drawScene] was called with. *)
Definition drawn_cameras (evs : list Event) : list Camera :=
  omap (λ e, match e with EvDrawSceneBegin c => Some c | _ => None end) evs.

(** The elapsed times [update] was called with. *)
Definition update_calls (evs : list Event) : list float :=
  omap (λ e, match e with EvUpdate t => Some t | _ => None end) evs.

(** The events of the invocations of [drawNode] on the roots. *)
Definition drawNode_events (roots : list Z) : list Event :=
  (λ nodeIdx, EvDrawNode nodeIdx (mat4_diag 1)) <$> roots.

(** The events of one call of [drawScene]. *)
Definition drawScene_events (this : ViewerApplication) (roots : list Z)
    (camera : Camera) : list Event :=
  [EvDrawSceneBegin camera;
   EvGL (glViewport_ 0 0 (to_GLsizei (m_nWindowWidth this))
           (to_GLsizei (m_nWindowHeight this)));
   EvGL (glClear_ (Z.lor GL_COLOR_BUFFER_BIT GL_DEPTH_BUFFER_BIT))]
  ++ drawNode_events roots
  ++ [EvDrawSceneEnd].

(** The controller after an iteration of the frame loop. *)
Definition next_controller (f : FrameInput)
    (cameraController : FirstPersonCameraController)
    : FirstPersonCameraController :=
  if negb (guiHasFocus f)
  then update (fi_elapsed f) (fi_input f) cameraController
  else cameraController.

(** The events of an iteration after [drawScene] has returned. *)
Definition after_draw_events (f : FrameInput) (camera : Camera) : list Event :=
  [EvImguiNewFrame; EvGui camera (fi_header_open f)]
  ++ (if fi_header_open f && fi_button_clicked f then [EvSetClipboard camera] else [])
  ++ [EvImguiRenderFrame; EvPollEvents]
  ++ (if negb (guiHasFocus f) then [EvUpdate (fi_elapsed f)] else [])
  ++ [EvSwapBuffers].

Definition frame_events (this : ViewerApplication) (roots : list Z)
    (f : FrameInput) (cameraController : FirstPersonCameraController)
    : list Event :=
  drawScene_events this roots (getCamera cameraController)
  ++ after_draw_events f (getCamera cameraController).

Fixpoint frames_events (this : ViewerApplication) (roots : list Z)
    (frames : list FrameInput) (cameraController : FirstPersonCameraController)
    : list Event :=
  match frames with
  | [] => []
  | f :: frames' =>
      frame_events this roots f cameraController
      ++ frames_events this roots frames' (next_controller f cameraController)
  end.

(** The controllers at the start of each iteration. *)
Fixpoint controllers (frames : list FrameInput)
    (cameraController : FirstPersonCameraController)
    : list FirstPersonCameraController :=
  match frames with
  | [] => []
  | f :: frames' =>
      cameraController :: controllers frames' (next_controller f cameraController)
  end.

(** The controller after the last iteration. *)
Definition final_controller (frames : list FrameInput)
    (cameraController : FirstPersonCameraController)
    : FirstPersonCameraController :=
  foldl (λ c f, next_controller f c) cameraController frames.

(** The camera [run] gives to [setCamera], and the controller it enters the
    frame loop with. *)
Definition seed_camera (this : ViewerApplication) : Camera :=
  if m_hasUserCamera this then m_userCamera this
  else mkCamera (mkvec3 0 0 0) (mkvec3 0 0 (-1)) (mkvec3 0 1 0).

Definition initial_controller (this : ViewerApplication)
    : FirstPersonCameraController :=
  setCamera (seed_camera this) (mkFirstPersonCameraController 250).

(** The events of [run] up to the call of the loader. *)
Definition prelude_events (this : ViewerApplication) : list Event :=
  [EvCompileProgram (m_vertexShader this) (m_fragmentShader this);
   EvGL (glGetUniformLocation_ "uModelViewProjMatrix");
   EvGL (glGetUniformLocation_ "uModelViewMatrix");
   EvGL (glGetUniformLocation_ "uNormalMatrix");
   EvSetCamera (seed_camera this)].

(** What [loadGltfFile] appends to [std::cerr]. *)
Definition loader_output (r : LoadResult) (cerr0 : string) : string :=
  let cerr1 :=
    if decide (lr_err r = "") then cerr0
    else cerr0 +:+ "Error: " +:+ lr_err r +:+ endl in
  if decide (lr_warn r = "") then cerr1
  else cerr1 +:+ "Warning: " +:+ lr_warn r +:+ endl.

(** The order of the events of an iteration: [drawScene] is entered, it
    returns, then [update] may be called once, then the buffers are
    swapped.  Inside [drawScene] there are only calls of OpenGL and
    invocations of [drawNode]. *)
Inductive Phase := BeforeDraw | InDraw | AfterDraw | AfterUpdate.

Definition phase_step (p : Phase) (e : Event) : option Phase :=
  match p, e with
  | BeforeDraw, EvDrawSceneBegin _ => Some InDraw
  | InDraw, (EvGL _ | EvDrawNode _ _) => Some InDraw
  | InDraw, EvDrawSceneEnd => Some AfterDraw
  | AfterDraw, (EvImguiNewFrame | EvGui _ _ | EvSetClipboard _
               | EvImguiRenderFrame | EvPollEvents) => Some AfterDraw
  | AfterDraw, EvUpdate _ => Some AfterUpdate
  | (AfterDraw | AfterUpdate), EvSwapBuffers => Some BeforeDraw
  | _, _ => None
  end.

Fixpoint phase_after (p : Phase) (evs : list Event) : option Phase :=
  match evs with
  | [] => Some p
  | e :: evs' =>
      match phase_step p e with
      | Some p' => phase_after p' evs'
      | None => None
      end
  end.

(** The data store [createBufferObjects] asks for, for a buffer of the
    model. *)
Definition store_of (b : Buffer.t) : BufferStore :=
  mkBufferStore (Z.of_nat (length (Buffer.data b))) (Buffer.data b) 0.

(** ** Valid indices, and the vertex array a primitive is given *)

(** The accessor and buffer view behind an accessor index, when the indices
    that lead there are all in range. *)
Definition attribute_source (model : Model.t) (accessorIdx : Z)
    : option (Accessor.t * BufferView.t) :=
  accessor ← vec_at (Model.accessors model) accessorIdx;
  bufferView ← vec_at (Model.bufferViews model) (Accessor.bufferView accessor);
  _ ← vec_at (Model.buffers model) (BufferView.buffer bufferView);
  Some (accessor, bufferView).

Definition attribute_ok (model : Model.t) (primitive : Primitive.t)
    (str : string) : bool :=
  match Primitive.attributes primitive !! str with
  | Some accessorIdx => bool_decide (is_Some (attribute_source model accessorIdx))
  | None => true
  end.

Definition indices_ok (model : Model.t) (primitive : Primitive.t) : bool :=
  if decide (0 ≤ Primitive.indices primitive)
  then bool_decide (is_Some (attribute_source model (Primitive.indices primitive)))
  else true.

Definition primitive_ok (model : Model.t) (primitive : Primitive.t) : bool :=
  attribute_ok model primitive "POSITION" &&
  attribute_ok model primitive "NORMAL" &&
  attribute_ok model primitive "TEXCOORD_0" &&
  indices_ok model primitive.

(** Every index the construction of the vertex arrays follows is in range. *)
Definition model_ok (model : Model.t) : bool :=
  forallb (λ mesh, forallb (primitive_ok model) (Mesh.primitives mesh))
    (Model.meshes model).

(** The arguments [vao_init] gives to [glVertexAttribPointer], with the
    conversions of the call, and the buffer bound at the call. *)
Definition attrib_pointer (accessor : Accessor.t) (bufferView : BufferView.t)
    (name : Z) : AttribPointer :=
  mkAttribPointer
    (Accessor.type accessor)
    (to_GLenum (Accessor.componentType accessor))
    false
    (to_GLsizei (BufferView.byteStride bufferView))
    (size_t_add (BufferView.byteOffset bufferView) (Accessor.byteOffset accessor))
    name.

(** What a call of [vao_init] makes of the bound vertex array [v]. *)
Definition with_attribute (model : Model.t) (bufferObjects : list Z)
    (primitive : Primitive.t) (str : string) (index : Z) (v : VaoState)
    : option VaoState :=
  match Primitive.attributes primitive !! str with
  | Some accessorIdx =>
      '(accessor, bufferView) ← attribute_source model accessorIdx;
      name ← vec_at bufferObjects (BufferView.buffer bufferView);
      Some (mkVaoState ({[index]} ∪ vao_enabled v)
              (<[index := attrib_pointer accessor bufferView name]> (vao_pointers v))
              (vao_element_buffer v))
  | None => Some v
  end.

(** What lines 154 to 160 make of it. *)
Definition with_indices (model : Model.t) (bufferObjects : list Z)
    (primitive : Primitive.t) (v : VaoState) : option VaoState :=
  if decide (0 ≤ Primitive.indices primitive) then
    accessor ← vec_at (Model.accessors model) (Primitive.indices primitive);
    bufferView ← vec_at (Model.bufferViews model) (Accessor.bufferView accessor);
    ebo ← vec_at bufferObjects (BufferView.buffer bufferView);
    Some (mkVaoState (vao_enabled v) (vao_pointers v) ebo)
  else Some v.

(** The vertex array of a primitive: what [vao_of_primitive] makes of a
    vertex array bound for the first time. *)
Definition configured_vao (model : Model.t) (bufferObjects : list Z)
    (primitive : Primitive.t) : option VaoState :=
  v ← with_attribute model bufferObjects primitive "POSITION"
         VERTEX_ATTRIB_POSITION_IDX default_vao;
  v ← with_attribute model bufferObjects primitive "NORMAL"
         VERTEX_ATTRIB_NORMAL_IDX v;
  v ← with_attribute model bufferObjects primitive "TEXCOORD_0"
         VERTEX_ATTRIB_TEXCOORD0_IDX v;
  with_indices model bufferObjects primitive v.

(** The element cardinality of an accessor type as the specification words
    it: scalar 1, vec2 2, vec3 3, vec4 4. *)
Definition cardinality_of_type (type : Z) : option Z :=
  if decide (type = TINYGLTF_TYPE_SCALAR) then Some 1
  else if decide (type = TINYGLTF_TYPE_VEC2) then Some 2
  else if decide (type = TINYGLTF_TYPE_VEC3) then Some 3
  else if decide (type = TINYGLTF_TYPE_VEC4) then Some 4
  else None.

(** All primitives of the model, mesh after mesh, in declaration order, and
    the number of those in the meshes before mesh [i]. *)
Definition all_primitives (model : Model.t) : list Primitive.t :=
  concat (Mesh.primitives <$> Model.meshes model).

Definition primitives_before (model : Model.t) (i : nat) : nat :=
  length (concat (Mesh.primitives <$> take i (Model.meshes model))).

(** The three attribute names the application knows, with their slots. *)
Definition attribute_slots : list (string * Z) :=
  [("POSITION", VERTEX_ATTRIB_POSITION_IDX);
   ("NORMAL", VERTEX_ATTRIB_NORMAL_IDX);
   ("TEXCOORD_0", VERTEX_ATTRIB_TEXCOORD0_IDX)].

(** A model [run] can work on: the indices are in range and the numbers of
    buffers and of primitives fit a [GLsizei]. *)
Definition model_renderable (model : Model.t) : bool :=
  model_ok model &&
  bool_decide (Z.of_nat (length (Model.buffers model)) < 2 ^ 31) &&
  bool_decide (Z.of_nat (length (all_primitives model)) < 2 ^ 31) &&
  bool_decide (is_Some (scene_roots model)).

(** ** keyCallback *)

(** A key event as GLFW hands it to the key callback. *)
Record KeyEvent := mkKeyEvent {
  ke_key : Z;
  ke_scancode : Z;
  ke_action : Z;
  ke_mods : Z
}.

(** Lines 20 to 26.  The window is its close flag, which
    [glfwSetWindowShouldClose(window, 1)] sets; [GLFW_KEY_ESCAPE] and
    [GLFW_RELEASE] are the codes of the GLFW header, taken as arguments. *)
Definition keyCallback (GLFW_KEY_ESCAPE GLFW_RELEASE : Z) (window : bool)
    (key scancode action mods : Z) : bool :=
  if decide (key = GLFW_KEY_ESCAPE) then
    if decide (action = GLFW_RELEASE) then true else window
  else window.

(** The callback, installed at line 347, called on the key events of a
    poll, one after the other. *)
Definition deliver_keys (GLFW_KEY_ESCAPE GLFW_RELEASE : Z)
    (keys : list KeyEvent) (window : bool) : bool :=
  foldl (λ win e,
           keyCallback GLFW_KEY_ESCAPE GLFW_RELEASE win
             (ke_key e) (ke_scancode e) (ke_action e) (ke_mods e))
    window keys.

(** ** Further readings of the log *)

(** The lines [loadGltfFile] writes: the error, then the warning. *)
Definition loader_lines (r : LoadResult) : string :=
  (if decide (lr_err r = "") then "" else "Error: " +:+ lr_err r +:+ endl)
  +:+ (if decide (lr_warn r = "") then "" else "Warning: " +:+ lr_warn r +:+ endl).

(** The calls of the loop of [createBufferObjects], for the names and the
    buffers it goes through. *)
Fixpoint upload_events (names : list Z) (buffers : list Buffer.t) : list Event :=
  match names, buffers with
  | name :: names', b :: buffers' =>
      EvGL (glBindBuffer_ GL_ARRAY_BUFFER name)
      :: EvGL (glBufferStorage_ GL_ARRAY_BUFFER
                 (Z.of_nat (length (Buffer.data b))) (Buffer.data b) 0)
      :: upload_events names' buffers'
  | _, _ => []
  end.

Definition is_swap (e : Event) : bool :=
  match e with EvSwapBuffers => true | _ => false end.

Definition is_setCamera (e : Event) : bool :=
  match e with EvSetCamera _ => true | _ => false end.

(** A call that makes or configures an object of the context. *)
Definition is_resource_call (e : Event) : bool :=
  match e with
  | EvGL (glGenBuffers_ _ _ | glBindBuffer_ _ _ | glBufferStorage_ _ _ _ _
         | glGenVertexArrays_ _ _ | glBindVertexArray_ _
         | glEnableVertexAttribArray_ _ | glVertexAttribPointer_ _ _ _ _ _ _) => true
  | _ => false
  end.

(** The index buffer lines 154 to 160 bind for a primitive: none (zero)
    when the primitive has no indices. *)
Definition element_buffer_of (model : Model.t) (bufferObjects : list Z)
    (primitive : Primitive.t) : option Z :=
  if decide (0 ≤ Primitive.indices primitive) then
    accessor ← vec_at (Model.accessors model) (Primitive.indices primitive);
    bufferView ← vec_at (Model.bufferViews model) (Accessor.bufferView accessor);
    vec_at bufferObjects (BufferView.buffer bufferView)
  else Some 0.

(** ** What a piece of code leaves alone *)

(** Every run of [m] that returns takes a world to one that [R] relates to
    it. *)
Definition respects (R : relation World) {A} (m : M A) : Prop :=
  ∀ w a w', m w = Some (a, w') → R w w'.

(** [w'] has the data stores and the buffer names of [w] and its content of
    [std::cerr], and at least its vertex array names. *)
Definition same_buffers (w w' : World) : Prop :=
  gl_buffers w' = gl_buffers w ∧ gl_buffer_names w' = gl_buffer_names w ∧
  cerr w' = cerr w ∧ gl_vao_names w ⊆ gl_vao_names w'.

(** The cameras whose look-at arguments were put on the clipboard. *)
Definition clipboard_calls (evs : list Event) : list Camera :=
  omap (λ e, match e with EvSetClipboard c => Some c | _ => None end) evs.

(** The cameras among [cameras], one per iteration, of the iterations in
    which the header of the overlay is open and its button is clicked. *)
Definition copied_cameras (frames : list FrameInput) (cameras : list Camera)
    : list Camera :=
  omap (λ fc, if fi_header_open fc.1 && fi_button_clicked fc.1
              then Some fc.2 else None)
    (zip frames cameras).

End Viewer.

(** ** A concrete driver, concrete cameras and small models *)

(** A driver that hands out the least names not in use. *)
Definition least_names (used : gset Z) (n : nat) : list Z :=
  fresh_list n ({[0]} ∪ used).

Definition least_driver : GLDriver.
Proof.
  refine (Build_GLDriver least_names _ _ _).
  - intros used n. apply length_fresh_list.
  - intros used n. apply NoDup_fresh_list.
  - intros used n x Hx%fresh_list_is_fresh. split.
    + intros Hused. apply Hx. by apply elem_of_union_r.
    + intros ->. apply Hx. apply elem_of_union_l. by apply elem_of_singleton.
Defined.

(** Cameras that keep the three vectors as they are given; the controller
    is its camera and [update] leaves it alone. *)
Definition plain_cameras : Cameras :=
  Build_Cameras (vec3 * vec3 * vec3)
    (mkvec3 0 0 0, mkvec3 0 0 0, mkvec3 0 0 0)
    (λ e c u, (e, c, u))
    (λ _, mat4_diag 1)
    unit
    (vec3 * vec3 * vec3)
    (λ _, (mkvec3 0 0 0, mkvec3 0 0 0, mkvec3 0 0 0))
    (λ k, k)
    (λ c _, c)
    (λ _ _ k, k)
    (λ c k, eq_refl).

(** The world before the application has done anything. *)
Definition world0 : @World plain_cameras :=
  mkWorld ∅ ∅ 0 ∅ ∅ 0 "" [].

Definition GL_FLOAT : Z := 5126.

Definition twelve_bytes : list Byte.byte := replicate 12 Byte.x00.

(** One buffer, one view of it, and an accessor of the given type. *)
Definition one_accessor_model (type : Z) (meshes : list Mesh.t)
    (nodes : list Node.t) (scenes : list Scene.t) (defaultScene : Z) : Model.t :=
  Model.mk
    [Accessor.mk 0 0 GL_FLOAT type]
    [Buffer.mk twelve_bytes]
    [BufferView.mk 0 0 12]
    meshes nodes scenes defaultScene.

(** A primitive with positions only: no normals, no indices. *)
Definition position_only : Primitive.t :=
  Primitive.mk {["POSITION" := 0]} (-1).

Definition vec3_model : Model.t :=
  one_accessor_model TINYGLTF_TYPE_VEC3 [Mesh.mk [position_only]] [] [] (-1).

Definition scalar_model : Model.t :=
  one_accessor_model TINYGLTF_TYPE_SCALAR [Mesh.mk [position_only]] [] [] (-1).

(** The scene of two nodes: node 0 has no mesh and the child 1; node 1 is
    translated by (1,0,0) and has mesh 0, of one primitive.  Node 0 is the
    only root of the default scene. *)
Definition two_node_model : Model.t :=
  one_accessor_model TINYGLTF_TYPE_VEC3 [Mesh.mk [position_only]]
    [Node.mk (-1) [1] [] [] [] [];
     Node.mk 0 [] [1; 0; 0]%float [] [] []]
    [Scene.mk [0]] 0.

(** An application without look-at argument, a loader that succeeds without
    a message, and an iteration of the frame loop in which the overlay wants
    no input. *)
Definition viewer : @ViewerApplication plain_cameras :=
  @ViewerApplication_members plain_cameras
    "forward.vs.glsl" "normals.fs.glsl" 1280 720 "scene.gltf".

Definition loads (model : Model.t) : string → LoadResult :=
  λ _, mkLoadResult true "" "" model.

Definition one_frame : @FrameInput plain_cameras :=
  @mkFrameInput plain_cameras 0.015625%float false false true false ().

(** A loader that fails with an error text, and an iteration in which the
    overlay has the mouse, its header is open and its button is clicked. *)
Definition fails : string → LoadResult :=
  λ _, mkLoadResult false "cannot open file" "" vec3_model.

Definition focus_frame : @FrameInput plain_cameras :=
  @mkFrameInput plain_cameras 0.015625%float true false true true ().

(** * Proofs *)

Section ViewerProofs.
Context `{Driver : GLDriver} `{Cams : Cameras}.

(** ** Conversions and vectors *)

Lemma to_GLsizei_small z : 0 ≤ z < 2 ^ 31 → to_GLsizei z = z.
Proof. intros Hz. unfold to_GLsizei. rewrite Z.mod_small; lia. Qed.

Lemma to_GLenum_small z : 0 ≤ z < 2 ^ 32 → to_GLenum z = z.
Proof. intros Hz. unfold to_GLenum. by rewrite Z.mod_small. Qed.

Lemma size_t_add_small a b : 0 ≤ a + b < 2 ^ 64 → size_t_add a b = a + b.
Proof. intros Hz. unfold size_t_add. by rewrite Z.mod_small. Qed.

Lemma vec_at_Some {A} (v : list A) (i : Z) (x : A) :
  vec_at v i = Some x ↔ 0 ≤ i ∧ v !! Z.to_nat i = Some x.
Proof.
  unfold vec_at. case_decide.
  - split; [by intros ? | by intros [_ ?]].
  - split; [done | intros [? _]; lia].
Qed.

Lemma vec_at_of_nat {A} (v : list A) (i : nat) : vec_at v (Z.of_nat i) = v !! i.
Proof. unfold vec_at. case_decide; [by rewrite Nat2Z.id | lia]. Qed.

Lemma write_names_all (n : nat) (x : Z) (names : list Z) :
  length names = n → write_names (replicate n x) 0 names = names.
Proof.
  intros Hn. unfold write_names. rewrite take_0, drop_ge, app_nil_r; [done |].
  rewrite length_replicate. lia.
Qed.

Lemma write_names_end (v names : list Z) (n : nat) :
  length names = n →
  write_names (resize (length v + n) 0 v) (length v) names = v ++ names.
Proof.
  intros <-. unfold write_names.
  rewrite take_resize_le, resize_all by lia.
  rewrite drop_ge, app_nil_r; [done |]. rewrite length_resize. lia.
Qed.

(** ** The monad *)

Lemma bind_run {A B} (m : M A) (f : A → M B) (w : World) :
  (m ≫= f) w = match m w with Some (a, w') => f a w' | None => None end.
Proof. reflexivity. Qed.

Lemma bind_Some {A B} (m : M A) (f : A → M B) (w : World) (r : B * World) :
  (m ≫= f) w = Some r ↔ ∃ a w', m w = Some (a, w') ∧ f a w' = Some r.
Proof.
  rewrite bind_run. destruct (m w) as [[a w'] |].
  - split; [eauto | by intros (? & ? & [= <- <-] & ?)].
  - split; [done | by intros (? & ? & ? & ?)].
Qed.

Lemma defined_Some {A} (o : option A) (w : World) (r : A * World) :
  defined o w = Some r ↔ o = Some r.1 ∧ r.2 = w.
Proof.
  destruct o as [a |], r as [a' w']; simpl.
  - unfold mret, M_ret. split; [by intros [= <- <-] | by intros [[= <-] <-]].
  - unfold undefined. split; [done | by intros [? _]].
Qed.

Lemma defined_run {A} (o : option A) (a : A) (w : World) :
  o = Some a → defined o w = Some (a, w).
Proof. by intros ->. Qed.

Lemma bind_defined {A B} (o : option A) (a : A) (f : A → M B) (w : World) :
  o = Some a → (defined o ≫= f) w = f a w.
Proof. by intros ->. Qed.

Lemma for_loop_with_S {V} (from count : nat) (body : nat → V → M V)
    (vars : V) (w : World) :
  for_loop_with from (S count) body vars w =
    match body from vars w with
    | Some (vars', w') => for_loop_with (S from) count body vars' w'
    | None => None
    end.
Proof. reflexivity. Qed.

Lemma bind_mret {A B} (a : A) (f : A → M B) (w : World) :
  (mret a ≫= f) w = f a w.
Proof. reflexivity. Qed.

(** ** Calls of OpenGL only *)

Lemma gl_extends_refl w : gl_extends w w.
Proof. split; [done |]. exists []. by rewrite app_nil_r. Qed.

Lemma gl_extends_trans w1 w2 w3 :
  gl_extends w1 w2 → gl_extends w2 w3 → gl_extends w1 w3.
Proof.
  intros [Hc1 (e1 & He1 & Hf1 & Hd1)] [Hc2 (e2 & He2 & Hf2 & Hd2)].
  split; [congruence |]. exists (e1 ++ e2).
  rewrite He2, He1, app_assoc. split; [done |].
  split; [by apply Forall_app |].
  unfold draw_calls in *. by rewrite List.filter_app, Hd1, Hd2.
Qed.

Lemma gl_extends_log (c : GLCall) (w w0 : World) :
  is_draw_call c = false → cerr w0 = cerr w → events w0 = events w →
  gl_extends w (log (EvGL c) w0).
Proof.
  intros Hc Hcerr Hev. split; [done |]. exists [EvGL c]. simpl.
  rewrite Hev. split; [done |]. split; [by repeat constructor |].
  unfold draw_calls. simpl. by rewrite Hc.
Qed.

Lemma gl_only_ret {A} (a : A) : gl_only (mret a).
Proof. intros w a' w' [= <- <-]. apply gl_extends_refl. Qed.

Lemma gl_only_bind {A B} (m : M A) (f : A → M B) :
  gl_only m → (∀ a, gl_only (f a)) → gl_only (m ≫= f).
Proof.
  intros Hm Hf w b w' (a & w1 & H1 & H2)%bind_Some.
  eapply gl_extends_trans; [by eapply Hm | by eapply Hf].
Qed.

Lemma gl_only_defined {A} (o : option A) : gl_only (defined o).
Proof. intros w a w' [_ Hw]%defined_Some. simpl in Hw. subst. apply gl_extends_refl. Qed.

Lemma gl_only_if {A} (b : bool) (m1 m2 : M A) :
  gl_only m1 → gl_only m2 → gl_only (if b then m1 else m2).
Proof. by destruct b. Qed.

Lemma gl_only_glGenBuffers n : gl_only (glGenBuffers n).
Proof. intros w a w' [= <- <-]. by apply gl_extends_log. Qed.

Lemma gl_only_glBindBuffer t n : gl_only (glBindBuffer t n).
Proof. intros w a w' [= <- <-]. apply gl_extends_log; by destruct t. Qed.

Lemma gl_only_glBufferStorage t n d f : gl_only (glBufferStorage t n d f).
Proof. intros w a w' [= <- <-]. by apply gl_extends_log. Qed.

Lemma gl_only_glGenVertexArrays n : gl_only (glGenVertexArrays n).
Proof. intros w a w' [= <- <-]. by apply gl_extends_log. Qed.

Lemma gl_only_glBindVertexArray n : gl_only (glBindVertexArray n).
Proof. intros w a w' [= <- <-]. by apply gl_extends_log. Qed.

Lemma gl_only_glEnableVertexAttribArray i : gl_only (glEnableVertexAttribArray i).
Proof. intros w a w' [= <- <-]. by apply gl_extends_log. Qed.

Lemma gl_only_glVertexAttribPointer i s t n st p :
  gl_only (glVertexAttribPointer i s t n st p).
Proof. intros w a w' [= <- <-]. by apply gl_extends_log. Qed.

Lemma gl_only_for_loop (body : nat → M unit) (count from : nat) :
  (∀ i, gl_only (body i)) → gl_only (for_loop from count body).
Proof.
  intros Hbody. revert from. induction count as [| count IH]; intros from; simpl.
  - apply gl_only_ret.
  - apply gl_only_bind; [apply Hbody | intros _; apply IH].
Qed.

Lemma gl_only_for_loop_with {V} (body : nat → V → M V) (count from : nat) (vars : V) :
  (∀ i v, gl_only (body i v)) → gl_only (for_loop_with from count body vars).
Proof.
  intros Hbody. revert from vars.
  induction count as [| count IH]; intros from vars; simpl.
  - apply gl_only_ret.
  - apply gl_only_bind; [apply Hbody | intros v; apply IH].
Qed.

Create HintDb gl_only.
#[local] Hint Resolve gl_only_ret gl_only_defined gl_only_glGenBuffers
  gl_only_glBindBuffer gl_only_glBufferStorage gl_only_glGenVertexArrays
  gl_only_glBindVertexArray gl_only_glEnableVertexAttribArray
  gl_only_glVertexAttribPointer : gl_only.

Ltac gl_only_tac :=
  repeat first
    [ apply gl_only_bind; [| intros ?]
    | apply gl_only_for_loop; intros ?
    | apply gl_only_for_loop_with; intros ? ?
    | solve [auto with gl_only]
    | match goal with
      | |- gl_only (match ?x with _ => _ end) => destruct x
      | |- gl_only (let '(_, _) := ?x in _) => destruct x
      end ].

(** ** createBufferObjects *)

Lemma gl_only_vao_init model primitive bo str index :
  gl_only (vao_init model primitive bo str index).
Proof. unfold vao_init. gl_only_tac. Qed.

Lemma gl_extends_elem (e : Event) (w w' : World) :
  gl_extends w w' → e ∈ events w → e ∈ events w'.
Proof.
  intros [_ (evs & -> & _)] He. apply elem_of_app. by left.
Qed.

Lemma upload_buffer_run model bo i h b w :
  bo !! i = Some h → Model.buffers model !! i = Some b →
  ∃ w', upload_buffer model bo i w = Some ((), w') ∧
        gl_buffers w' = <[h := store_of b]> (gl_buffers w).
Proof.
  intros Hh Hb. unfold upload_buffer. rewrite Hh, Hb.
  eexists. split; reflexivity.
Qed.

Lemma upload_loop model bo count : ∀ from w,
  NoDup bo →
  (from + count ≤ length bo)%nat →
  (from + count ≤ length (Model.buffers model))%nat →
  ∃ w', for_loop from count (upload_buffer model bo) w = Some ((), w') ∧
    (∀ i h b, (from ≤ i < from + count)%nat →
       bo !! i = Some h → Model.buffers model !! i = Some b →
       gl_buffers w' !! h = Some (store_of b)) ∧
    (∀ h, (∀ i, (from ≤ i < from + count)%nat → bo !! i ≠ Some h) →
       gl_buffers w' !! h = gl_buffers w !! h).
Proof.
  induction count as [| count IH]; intros from w Hnd Hbo Hbufs.
  - exists w. split; [done |]. split; [intros; lia | done].
  - destruct (lookup_lt_is_Some_2 bo from) as [h0 Hh0]; [lia |].
    destruct (lookup_lt_is_Some_2 (Model.buffers model) from) as [b0 Hb0]; [lia |].
    destruct (upload_buffer_run model bo from h0 b0 w Hh0 Hb0) as (w1 & Hrun1 & Hw1).
    destruct (IH (S from) w1 Hnd) as (w' & Hrun & Hin & Hout); [lia | lia |].
    exists w'. split; [| split].
    + simpl. by rewrite bind_run, Hrun1.
    + intros i h b Hi Hh Hb.
      destruct (decide (i = from)) as [-> | Hne].
      * assert (h = h0) as -> by congruence. assert (b = b0) as -> by congruence.
        rewrite Hout, Hw1; [apply lookup_insert_eq |].
        intros j Hj Hbo'. assert (j = from) by (eapply NoDup_lookup; eauto). lia.
      * apply (Hin i); [lia | done | done].
    + intros h Hh. rewrite Hout, Hw1.
      * apply lookup_insert_ne. intros ->. by apply (Hh from); [lia |].
      * intros i Hi. apply Hh. lia.
Qed.

Lemma glGenBuffers_run (n : nat) (w : World) :
  Z.of_nat n < 2 ^ 31 →
  ∃ names w', glGenBuffers (to_GLsizei (Z.of_nat n)) w = Some (names, w') ∧
    length names = n ∧ NoDup names ∧ (∀ x, x ∈ names → x ≠ 0) ∧
    gl_buffers w' = gl_buffers w.
Proof.
  intros Hn. rewrite to_GLsizei_small by lia.
  unfold glGenBuffers. rewrite decide_True by lia. rewrite Nat2Z.id.
  eexists _, _. split; [reflexivity |].
  split; [apply gen_names_length |]. split; [apply gen_names_NoDup |].
  split; [| done]. intros x Hx. by eapply gen_names_fresh.
Qed.

Lemma createBufferObjects_defined (model : Model.t) (w : World) :
  Z.of_nat (length (Model.buffers model)) < 2 ^ 31 →
  ∃ bo w', createBufferObjects model w = Some (bo, w') ∧
    length bo = length (Model.buffers model).
Proof.
  intros Hlen. unfold createBufferObjects.
  destruct (glGenBuffers_run _ w Hlen) as (names & w1 & Hgen & Hn & Hnd & _).
  rewrite bind_run, Hgen, (write_names_all _ _ _ Hn).
  destruct (upload_loop model names (length (Model.buffers model)) 0 w1 Hnd)
    as (w2 & Hloop & _); [simpl; lia | simpl; lia |].
  rewrite bind_run, Hloop. by eexists names, _.
Qed.

(** ** vao_init *)

Lemma with_attribute_absent model bo primitive str index v :
  Primitive.attributes primitive !! str = None →
  with_attribute model bo primitive str index v = Some v.
Proof. intros Habs. unfold with_attribute. by rewrite Habs. Qed.

Lemma with_attribute_present model bo primitive str index v accessorIdx
    accessor bufferView name :
  Primitive.attributes primitive !! str = Some accessorIdx →
  attribute_source model accessorIdx = Some (accessor, bufferView) →
  vec_at bo (BufferView.buffer bufferView) = Some name →
  with_attribute model bo primitive str index v =
    Some (mkVaoState ({[index]} ∪ vao_enabled v)
            (<[index := attrib_pointer accessor bufferView name]> (vao_pointers v))
            (vao_element_buffer v)).
Proof.
  intros Hattr Hsrc Hname. unfold with_attribute.
  rewrite Hattr, Hsrc. simpl. by rewrite Hname.
Qed.

(** An attribute the primitive does not have: no call is made, the world is
    the same. *)
Lemma vao_init_absent model primitive bo str index w :
  Primitive.attributes primitive !! str = None →
  vao_init model primitive bo str index w = Some ((), w).
Proof. intros Habs. unfold vao_init. by rewrite Habs. Qed.

Lemma vao_init_run model primitive bo str index v v' w :
  gl_vaos w !! gl_vertex_array w = Some v →
  with_attribute model bo primitive str index v = Some v' →
  ∃ w', vao_init model primitive bo str index w = Some ((), w') ∧
    gl_vaos w' = <[gl_vertex_array w := v']> (gl_vaos w) ∧
    gl_vertex_array w' = gl_vertex_array w ∧
    gl_vao_names w' = gl_vao_names w.
Proof.
  intros Hv Heff. unfold with_attribute in Heff. unfold vao_init.
  destruct (Primitive.attributes primitive !! str) as [accessorIdx |].
  - unfold attribute_source in Heff.
    destruct (vec_at (Model.accessors model) accessorIdx)
      as [accessor |] eqn:Hacc; [simpl in Heff | done].
    destruct (vec_at (Model.bufferViews model) (Accessor.bufferView accessor))
      as [bufferView |] eqn:Hbv; [simpl in Heff | done].
    destruct (vec_at (Model.buffers model) (BufferView.buffer bufferView))
      as [b |] eqn:Hb; [simpl in Heff | done].
    destruct (vec_at bo (BufferView.buffer bufferView)) as [name |] eqn:Hname;
      [simpl in Heff | done].
    injection Heff as <-.
    rewrite (bind_defined _ _ _ _ eq_refl), (bind_defined _ _ _ _ Hbv),
      (bind_defined _ _ _ _ Hb).
    rewrite bind_run; cbn. rewrite (bind_defined _ _ _ _ Hname).
    rewrite bind_run; cbn.
    eexists. split; [reflexivity |]. simpl.
    split; [| done].
    unfold bound_vao; simpl. rewrite lookup_insert_eq, Hv. simpl.
    by rewrite insert_insert_eq.
  - injection Heff as <-. exists w. split; [done |].
    by rewrite insert_id.
Qed.

(** ** createVertexArrayObjects *)

Lemma glBindVertexArray_fresh name w :
  name ≠ 0 → gl_vaos w !! name = None →
  ∃ w', glBindVertexArray name w = Some ((), w') ∧
    gl_vaos w' = <[name := default_vao]> (gl_vaos w) ∧
    gl_vertex_array w' = name ∧ gl_vao_names w' = gl_vao_names w.
Proof.
  intros Hnz Hfresh. eexists. split; [reflexivity |]. simpl.
  by rewrite decide_False, Hfresh.
Qed.

Lemma indices_run model bo primitive v v' w :
  gl_vaos w !! gl_vertex_array w = Some v →
  with_indices model bo primitive v = Some v' →
  ∃ w',
    (if decide (0 ≤ Primitive.indices primitive) then
       accessor ← defined (vec_at (Model.accessors model) (Primitive.indices primitive));
       bufferView ←
         defined (vec_at (Model.bufferViews model) (Accessor.bufferView accessor));
       ebo ← defined (vec_at bo (BufferView.buffer bufferView));
       glBindBuffer GL_ELEMENT_ARRAY_BUFFER ebo
     else mret ()) w = Some ((), w') ∧
    gl_vaos w' = <[gl_vertex_array w := v']> (gl_vaos w) ∧
    gl_vertex_array w' = gl_vertex_array w ∧
    gl_vao_names w' = gl_vao_names w.
Proof.
  intros Hv Heff. unfold with_indices in Heff. case_decide.
  - destruct (vec_at (Model.accessors model) (Primitive.indices primitive))
      as [accessor |] eqn:Hacc; [simpl in Heff | done].
    destruct (vec_at (Model.bufferViews model) (Accessor.bufferView accessor))
      as [bufferView |] eqn:Hbv; [simpl in Heff | done].
    destruct (vec_at bo (BufferView.buffer bufferView)) as [ebo |] eqn:Hebo;
      [simpl in Heff | done].
    injection Heff as <-.
    rewrite (bind_defined _ _ _ _ eq_refl), (bind_defined _ _ _ _ Hbv),
      (bind_defined _ _ _ _ Hebo).
    eexists. split; [reflexivity |]. simpl.
    unfold bound_vao. by rewrite Hv.
  - injection Heff as <-. exists w. split; [done |]. by rewrite insert_id.
Qed.

(** The loop body on a name that is bound for the first time: the vertex
    array of that name becomes the one of the primitive, no other changes. *)
Lemma vao_of_primitive_run model bo name primitive v w :
  name ≠ 0 → gl_vaos w !! name = None →
  configured_vao model bo primitive = Some v →
  ∃ w', vao_of_primitive model bo name primitive w = Some ((), w') ∧
    gl_vaos w' = <[name := v]> (gl_vaos w) ∧
    gl_vao_names w' = gl_vao_names w.
Proof.
  intros Hnz Hfresh Hcfg. unfold configured_vao in Hcfg.
  destruct (with_attribute model bo primitive "POSITION" _ default_vao)
    as [v1 |] eqn:H1; [simpl in Hcfg | done].
  destruct (with_attribute model bo primitive "NORMAL" _ v1)
    as [v2 |] eqn:H2; [simpl in Hcfg | done].
  destruct (with_attribute model bo primitive "TEXCOORD_0" _ v2)
    as [v3 |] eqn:H3; [simpl in Hcfg | done].
  destruct (glBindVertexArray_fresh name w Hnz Hfresh)
    as (w0 & Hrun0 & Hvaos0 & Hva0 & Hnames0).
  assert (gl_vaos w0 !! gl_vertex_array w0 = Some default_vao) as Hb0
    by (by rewrite Hva0, Hvaos0, lookup_insert_eq).
  destruct (vao_init_run _ _ _ _ _ _ _ _ Hb0 H1)
    as (w1 & Hrun1 & Hvaos1 & Hva1 & Hnames1).
  assert (gl_vaos w1 !! gl_vertex_array w1 = Some v1) as Hb1
    by (by rewrite Hva1, Hvaos1, lookup_insert_eq).
  destruct (vao_init_run _ _ _ _ _ _ _ _ Hb1 H2)
    as (w2 & Hrun2 & Hvaos2 & Hva2 & Hnames2).
  assert (gl_vaos w2 !! gl_vertex_array w2 = Some v2) as Hb2
    by (by rewrite Hva2, Hvaos2, lookup_insert_eq).
  destruct (vao_init_run _ _ _ _ _ _ _ _ Hb2 H3)
    as (w3 & Hrun3 & Hvaos3 & Hva3 & Hnames3).
  assert (gl_vaos w3 !! gl_vertex_array w3 = Some v3) as Hb3
    by (by rewrite Hva3, Hvaos3, lookup_insert_eq).
  destruct (indices_run _ _ _ _ _ _ Hb3 Hcfg)
    as (w4 & Hrun4 & Hvaos4 & Hva4 & Hnames4).
  exists w4. split; [| split].
  - unfold vao_of_primitive.
    rewrite bind_run, Hrun0, bind_run, Hrun1, bind_run, Hrun2, bind_run, Hrun3.
    exact Hrun4.
  - rewrite Hvaos4, Hvaos3, Hvaos2, Hvaos1, Hvaos0, Hva3, Hva2, Hva1, Hva0.
    by rewrite !insert_insert_eq.
  - congruence.
Qed.

Lemma vec_at_is_Some {A} (v : list A) (i : Z) :
  is_Some (vec_at v i) ↔ 0 ≤ i < Z.of_nat (length v).
Proof.
  unfold vec_at. case_decide.
  - rewrite lookup_lt_is_Some. lia.
  - split; [by intros [? ?] | lia].
Qed.

Lemma vec_at_same_length {A B} (v : list A) (v' : list B) (i : Z) :
  length v' = length v → is_Some (vec_at v i) → is_Some (vec_at v' i).
Proof. intros Hlen. rewrite !vec_at_is_Some. lia. Qed.

Lemma attribute_source_buffer model idx accessor bufferView :
  attribute_source model idx = Some (accessor, bufferView) →
  vec_at (Model.accessors model) idx = Some accessor ∧
  vec_at (Model.bufferViews model) (Accessor.bufferView accessor) = Some bufferView ∧
  is_Some (vec_at (Model.buffers model) (BufferView.buffer bufferView)).
Proof.
  unfold attribute_source. intros Hsrc.
  destruct (vec_at (Model.accessors model) idx) as [a |]; [simpl in Hsrc | done].
  destruct (vec_at (Model.bufferViews model) (Accessor.bufferView a))
    as [bv |] eqn:Hbv; [simpl in Hsrc | done].
  destruct (vec_at (Model.buffers model) (BufferView.buffer bv)) as [b |] eqn:Hb;
    [simpl in Hsrc | done].
  injection Hsrc as <- <-. split; [done |]. split; [done |]. by exists b.
Qed.

Lemma with_attribute_is_Some model bo primitive str index v :
  length bo = length (Model.buffers model) →
  attribute_ok model primitive str = true →
  is_Some (with_attribute model bo primitive str index v).
Proof.
  intros Hlen Hok. unfold attribute_ok in Hok. unfold with_attribute.
  destruct (Primitive.attributes primitive !! str) as [idx |]; [| done].
  apply bool_decide_eq_true in Hok as [[accessor bufferView] Hsrc].
  rewrite Hsrc. simpl.
  apply attribute_source_buffer in Hsrc as (_ & _ & Hb).
  destruct (vec_at_same_length _ bo _ Hlen Hb) as [name ->]. done.
Qed.

Lemma with_indices_is_Some model bo primitive v :
  length bo = length (Model.buffers model) →
  indices_ok model primitive = true →
  is_Some (with_indices model bo primitive v).
Proof.
  intros Hlen Hok. unfold indices_ok in Hok. unfold with_indices.
  case_decide; [| done].
  apply bool_decide_eq_true in Hok as [[accessor bufferView] Hsrc].
  apply attribute_source_buffer in Hsrc as (-> & Hbv & Hb). simpl.
  rewrite Hbv. simpl.
  destruct (vec_at_same_length _ bo _ Hlen Hb) as [name ->]. done.
Qed.

Lemma primitive_ok_configured model bo primitive :
  length bo = length (Model.buffers model) →
  primitive_ok model primitive = true →
  is_Some (configured_vao model bo primitive).
Proof.
  intros Hlen Hok. unfold primitive_ok in Hok.
  apply andb_prop in Hok as [Hok Hind]. apply andb_prop in Hok as [Hok Htex].
  apply andb_prop in Hok as [Hpos Hnor].
  unfold configured_vao.
  destruct (with_attribute_is_Some model bo primitive "POSITION"
              VERTEX_ATTRIB_POSITION_IDX default_vao Hlen Hpos) as [v1 ->].
  simpl.
  destruct (with_attribute_is_Some model bo primitive "NORMAL"
              VERTEX_ATTRIB_NORMAL_IDX v1 Hlen Hnor) as [v2 ->].
  simpl.
  destruct (with_attribute_is_Some model bo primitive "TEXCOORD_0"
              VERTEX_ATTRIB_TEXCOORD0_IDX v2 Hlen Htex) as [v3 ->].
  simpl. by apply with_indices_is_Some.
Qed.

Lemma model_ok_primitive model i mesh k primitive :
  model_ok model = true →
  Model.meshes model !! i = Some mesh →
  Mesh.primitives mesh !! k = Some primitive →
  primitive_ok model primitive = true.
Proof.
  intros Hok Hmesh Hprim. unfold model_ok in Hok.
  rewrite forallb_forall in Hok.
  specialize (Hok mesh). rewrite forallb_forall in Hok.
  apply Hok; apply list_elem_of_In; by eapply list_elem_of_lookup_2.
Qed.

(** The loop over the primitives of a mesh, on names that are not zero, not
    configured yet and distinct. *)
Lemma primitives_loop model bo vaos offset prims count : ∀ from w,
  length bo = length (Model.buffers model) →
  (∀ k primitive, prims !! k = Some primitive → primitive_ok model primitive = true) →
  (from + count ≤ length prims)%nat →
  (∀ k, (from ≤ k < from + count)%nat →
     ∃ name, vaos !! (offset + k)%nat = Some name ∧ name ≠ 0 ∧
             gl_vaos w !! name = None) →
  NoDup vaos →
  ∃ w',
    for_loop from count (λ k,
      name ← defined (vaos !! (offset + k)%nat);
      primitive ← defined (prims !! k);
      vao_of_primitive model bo name primitive) w = Some ((), w') ∧
    gl_vao_names w' = gl_vao_names w ∧
    (∀ k name primitive, (from ≤ k < from + count)%nat →
       vaos !! (offset + k)%nat = Some name → prims !! k = Some primitive →
       gl_vaos w' !! name = configured_vao model bo primitive) ∧
    (∀ name, (∀ k, (from ≤ k < from + count)%nat →
                vaos !! (offset + k)%nat ≠ Some name) →
       gl_vaos w' !! name = gl_vaos w !! name).
Proof.
  induction count as [| count IH]; intros from w Hlen Hok Hprims Hnames Hnd.
  - exists w. split; [done |]. split; [done |]. split; [intros; lia | done].
  - destruct (Hnames from) as (name0 & Hname0 & Hnz0 & Hfresh0); [lia |].
    destruct (lookup_lt_is_Some_2 prims from) as [p0 Hp0]; [lia |].
    destruct (primitive_ok_configured model bo p0 Hlen (Hok _ _ Hp0)) as [v0 Hv0].
    destruct (vao_of_primitive_run model bo name0 p0 v0 w Hnz0 Hfresh0 Hv0)
      as (w1 & Hrun1 & Hvaos1 & Hnames1).
    destruct (IH (S from) w1 Hlen Hok) as (w' & Hrun & Hnames' & Hin & Hout);
      [lia | | done |].
    { intros k Hk. destruct (Hnames k) as (name & Hname & Hnz & Hfresh); [lia |].
      exists name. split; [done |]. split; [done |].
      rewrite Hvaos1, lookup_insert_ne; [done |].
      intros ->. assert ((offset + from)%nat = (offset + k)%nat)
        by (eapply NoDup_lookup; eauto). lia. }
    exists w'. split; [| split; [congruence | split]].
    + simpl. rewrite bind_run.
      rewrite (bind_defined _ _ _ _ Hname0), (bind_defined _ _ _ _ Hp0), Hrun1.
      exact Hrun.
    + intros k name primitive Hk Hname Hprim.
      destruct (decide (k = from)) as [-> | Hne].
      * assert (name = name0) as -> by congruence.
        assert (primitive = p0) as -> by congruence.
        rewrite Hout, Hvaos1, Hv0; [apply lookup_insert_eq |].
        intros j Hj Hvj. assert ((offset + j)%nat = (offset + from)%nat)
          by (eapply NoDup_lookup; eauto). lia.
      * apply (Hin k); [lia | done | done].
    + intros name Hname. rewrite Hout, Hvaos1.
      * apply lookup_insert_ne. intros ->. by apply (Hname from); [lia |].
      * intros k Hk. apply Hname. lia.
Qed.

Lemma glGenVertexArrays_run (n : nat) (w : World) :
  Z.of_nat n < 2 ^ 31 →
  ∃ names w', glGenVertexArrays (to_GLsizei (Z.of_nat n)) w = Some (names, w') ∧
    length names = n ∧ NoDup names ∧
    (∀ x, x ∈ names →
       x ≠ 0 ∧ (x ∉ gl_vao_names w) ∧ gl_vaos w !! x = None) ∧
    gl_vaos w' = gl_vaos w ∧
    gl_vao_names w' = list_to_set names ∪ gl_vao_names w.
Proof.
  intros Hn. rewrite to_GLsizei_small by lia.
  unfold glGenVertexArrays. rewrite decide_True by lia. rewrite Nat2Z.id.
  eexists _, _. split; [reflexivity |].
  split; [apply gen_names_length |]. split; [apply gen_names_NoDup |].
  split; [| done]. intros x [Hx Hnz]%gen_names_fresh.
  split; [done |]. split; [set_solver |].
  apply not_elem_of_dom. set_solver.
Qed.

Lemma primitives_before_S model i mesh :
  Model.meshes model !! i = Some mesh →
  primitives_before model (S i) =
    (primitives_before model i + length (Mesh.primitives mesh))%nat.
Proof.
  intros Hmesh. unfold primitives_before.
  rewrite (take_S_r _ _ _ Hmesh), fmap_app, concat_app, length_app. simpl.
  by rewrite app_nil_r.
Qed.

Lemma primitives_before_mono model i j :
  (i ≤ j)%nat → (primitives_before model i ≤ primitives_before model j)%nat.
Proof.
  intros Hij. unfold primitives_before.
  replace j with (i + (j - i))%nat by lia.
  rewrite <- take_take_drop, fmap_app, concat_app, length_app. lia.
Qed.

Lemma primitives_before_all model i :
  (length (Model.meshes model) ≤ i)%nat →
  primitives_before model i = length (all_primitives model).
Proof. intros Hi. unfold primitives_before, all_primitives. by rewrite take_ge. Qed.

Lemma primitives_before_le model i :
  (primitives_before model i ≤ length (all_primitives model))%nat.
Proof.
  destruct (decide (i ≤ length (Model.meshes model))%nat).
  - rewrite <- (primitives_before_all model (length (Model.meshes model))) by lia.
    by apply primitives_before_mono.
  - rewrite primitives_before_all; lia.
Qed.

(** One iteration of the loop over the meshes: the names of the vertex
    arrays of the mesh are appended, its range is recorded, the new vertex
    arrays are those of its primitives in order, the earlier ones stay. *)
Lemma vaos_of_mesh_run model bo i mesh vaos ranges w :
  length bo = length (Model.buffers model) →
  Model.meshes model !! i = Some mesh →
  (∀ k primitive, Mesh.primitives mesh !! k = Some primitive →
     primitive_ok model primitive = true) →
  (i < length ranges)%nat →
  Z.of_nat (length vaos + length (Mesh.primitives mesh)) < 2 ^ 31 →
  NoDup vaos →
  (∀ x, x ∈ vaos → x ∈ gl_vao_names w) →
  ∃ names w',
    vaos_of_mesh model bo i (vaos, ranges) w =
      Some ((vaos ++ names,
             <[i := mkVaoRange (Z.of_nat (length vaos))
                     (Z.of_nat (length (Mesh.primitives mesh)))]> ranges), w') ∧
    length names = length (Mesh.primitives mesh) ∧
    NoDup (vaos ++ names) ∧
    (∀ x, x ∈ vaos ++ names → x ∈ gl_vao_names w') ∧
    (∀ x, x ∈ names → x ≠ 0) ∧
    Forall2 (λ name primitive,
               gl_vaos w' !! name = configured_vao model bo primitive)
      names (Mesh.primitives mesh) ∧
    (∀ x, x ∈ vaos → gl_vaos w' !! x = gl_vaos w !! x).
Proof.
  intros Hlen Hmesh Hok Hi Hbound Hnd Hused.
  destruct (glGenVertexArrays_run (length (Mesh.primitives mesh)) w)
    as (names & w1 & Hgen & Hn & Hndn & Hfresh & Hvaos1 & Hnames1); [lia |].
  assert (NoDup (vaos ++ names)) as Hnd'.
  { apply NoDup_app. split; [done |]. split; [| done].
    intros x Hx Hx'. apply Hfresh in Hx' as (_ & Hx' & _). by apply Hx', Hused. }
  destruct (primitives_loop model bo (vaos ++ names) (length vaos)
              (Mesh.primitives mesh) (length (Mesh.primitives mesh)) 0 w1 Hlen Hok)
    as (w' & Hloop & Hnames' & Hin & Hout); [simpl; lia | | done |].
  { intros k Hk. destruct (lookup_lt_is_Some_2 names k) as [name Hname]; [lia |].
    exists name. rewrite lookup_app_r by lia.
    replace (length vaos + k - length vaos)%nat with k by lia.
    split; [done |]. rewrite Hvaos1.
    destruct (Hfresh name) as (? & _ & ?); [by eapply list_elem_of_lookup_2 | done]. }
  exists names, w'. split; [| split; [done | split; [done | split; [| split; [| split]]]]].
  - unfold vaos_of_mesh.
    rewrite (bind_defined _ _ _ _ Hmesh).
    destruct (lookup_lt_is_Some_2 ranges i Hi) as [r0 Hr0].
    rewrite (bind_defined _ _ _ _ Hr0).
    rewrite bind_run, Hgen.
    rewrite (write_names_end _ _ _ Hn).
    rewrite bind_run, Hloop.
    rewrite !to_GLsizei_small by lia. reflexivity.
  - intros x Hx. rewrite Hnames', Hnames1.
    apply elem_of_app in Hx as [Hx | Hx].
    + apply elem_of_union_r. by apply Hused.
    + apply elem_of_union_l. by apply elem_of_list_to_set.
  - intros x Hx. by apply Hfresh in Hx as (? & _).
  - apply Forall2_same_length_lookup_2; [done |].
    intros k name primitive Hname Hprim.
    apply (Hin k); [| | done].
    + apply lookup_lt_Some in Hprim. lia.
    + rewrite lookup_app_r by lia.
      by replace (length vaos + k - length vaos)%nat with k by lia.
  - intros x Hx. rewrite Hout, Hvaos1; [done |].
    intros k Hk Hlook. rewrite lookup_app_r in Hlook by lia.
    apply list_elem_of_lookup_2, Hfresh in Hlook as (_ & Hlook & _).
    by apply Hlook, Hused.
Qed.

(** The loop over the meshes [from], ..., [from + count - 1]. *)
Lemma meshes_loop model bo count : ∀ from vaos ranges w,
  length bo = length (Model.buffers model) →
  model_ok model = true →
  Z.of_nat (length (all_primitives model)) < 2 ^ 31 →
  (from + count ≤ length (Model.meshes model))%nat →
  length ranges = length (Model.meshes model) →
  length vaos = primitives_before model from →
  NoDup vaos →
  (∀ x, x ∈ vaos → x ∈ gl_vao_names w) →
  ∃ new ranges' w',
    for_loop_with from count (vaos_of_mesh model bo) (vaos, ranges) w =
      Some ((vaos ++ new, ranges'), w') ∧
    NoDup (vaos ++ new) ∧
    (∀ x, x ∈ vaos ++ new → x ∈ gl_vao_names w') ∧
    (∀ x, x ∈ new → x ≠ 0) ∧
    Forall2 (λ name primitive,
               gl_vaos w' !! name = configured_vao model bo primitive)
      new (concat (Mesh.primitives <$> take count (drop from (Model.meshes model)))) ∧
    (∀ x, x ∈ vaos → gl_vaos w' !! x = gl_vaos w !! x) ∧
    length ranges' = length (Model.meshes model) ∧
    (∀ j mesh, (from ≤ j < from + count)%nat →
       Model.meshes model !! j = Some mesh →
       ranges' !! j = Some (mkVaoRange (Z.of_nat (primitives_before model j))
                              (Z.of_nat (length (Mesh.primitives mesh))))) ∧
    (∀ j, ¬ (from ≤ j < from + count)%nat → ranges' !! j = ranges !! j).
Proof.
  induction count as [| count IH];
    intros from vaos ranges w Hlen Hok Hbound Hcount Hranges Hvaos Hnd Hused.
  - exists [], ranges, w. rewrite app_nil_r. simpl.
    split; [done |]. split; [done |]. split; [done |].
    split; [by intros x ?%elem_of_nil |]. split; [constructor |].
    split; [done |]. split; [done |]. split; [intros; lia | done].
  - destruct (lookup_lt_is_Some_2 (Model.meshes model) from) as [mesh Hmesh]; [lia |].
    pose proof (primitives_before_S model from mesh Hmesh) as HS.
    pose proof (primitives_before_le model (S from)) as Hle.
    destruct (vaos_of_mesh_run model bo from mesh vaos ranges w Hlen Hmesh)
      as (names & w1 & Hrun1 & Hn1 & Hnd1 & Hused1 & Hnz1 & Hcfg1 & Hkeep1);
      [by intros; eapply model_ok_primitive | lia | lia | done | done |].
    destruct (IH (S from) (vaos ++ names)
                (<[from := mkVaoRange (Z.of_nat (length vaos))
                             (Z.of_nat (length (Mesh.primitives mesh)))]> ranges)
                w1 Hlen Hok Hbound)
      as (new & ranges' & w' & Hrun & Hnd' & Hused' & Hnz' & Hcfg' & Hkeep'
          & Hranges' & Hin' & Hout');
      [lia | by rewrite length_insert | rewrite length_app; lia | done | done |].
    exists (names ++ new), ranges', w'. rewrite app_assoc.
    split; [| split; [done | split; [done | split; [| split; [| split; [| split; [done | split]]]]]]].
    + rewrite for_loop_with_S, Hrun1. exact Hrun.
    + intros x [Hx | Hx]%elem_of_app; [by apply Hnz1 | by apply Hnz'].
    + rewrite (drop_S _ _ _ Hmesh). simpl. apply Forall2_app; [| done].
      apply Forall2_same_length_lookup_2; [by eapply Forall2_length |].
      intros k name primitive Hname Hprim.
      rewrite Hkeep'.
      * by eapply (Forall2_lookup_lr _ _ _ _ _ _ Hcfg1).
      * apply elem_of_app. right. by eapply list_elem_of_lookup_2.
    + intros x Hx. rewrite Hkeep' by (apply elem_of_app; by left). by apply Hkeep1.
    + intros j mesh' Hj Hmesh'. destruct (decide (j = from)) as [-> | Hne].
      * assert (mesh' = mesh) as -> by congruence.
        rewrite Hout' by lia. rewrite list_lookup_insert_eq by lia.
        by rewrite Hvaos.
      * apply Hin'; [lia | done].
    + intros j Hj. rewrite Hout' by lia. apply list_lookup_insert_ne. lia.
Qed.

Lemma all_primitives_lookup model i mesh k primitive :
  Model.meshes model !! i = Some mesh →
  Mesh.primitives mesh !! k = Some primitive →
  all_primitives model !! (primitives_before model i + k)%nat = Some primitive.
Proof.
  intros Hmesh Hprim. unfold all_primitives, primitives_before.
  rewrite <- (take_drop_middle _ _ _ Hmesh) at 2.
  rewrite fmap_app, concat_app, lookup_app_r by lia.
  replace (_ + k - _)%nat with k by lia.
  rewrite fmap_cons. simpl. by apply lookup_app_l_Some.
Qed.

Lemma createVertexArrayObjects_defined (model : Model.t) (bo : list Z)
    (ranges0 : list VaoRange) (w : World) :
  length bo = length (Model.buffers model) →
  model_ok model = true →
  Z.of_nat (length (all_primitives model)) < 2 ^ 31 →
  ∃ r w', createVertexArrayObjects model bo ranges0 w = Some (r, w').
Proof.
  intros Hlen Hok Hbound.
  destruct (meshes_loop model bo (length (Model.meshes model)) 0 []
              (resize (length (Model.meshes model)) (mkVaoRange 0 0) ranges0)
              w Hlen Hok Hbound)
    as (vaos & ranges & w' & Hrun & _);
    [simpl; lia | by rewrite length_resize | done | constructor
    | by intros x ?%elem_of_nil |].
  eexists _, _. unfold createVertexArrayObjects. rewrite bind_run, Hrun.
  reflexivity.
Qed.

(** The calls [vao_init] makes for an attribute the primitive has. *)
Lemma vao_init_events model primitive bo str index accessorIdx accessor
    bufferView name w w' :
  Primitive.attributes primitive !! str = Some accessorIdx →
  attribute_source model accessorIdx = Some (accessor, bufferView) →
  vec_at bo (BufferView.buffer bufferView) = Some name →
  vao_init model primitive bo str index w = Some ((), w') →
  events w' =
    events w
    ++ [EvGL (glEnableVertexAttribArray_ index);
        EvGL (glBindBuffer_ GL_ARRAY_BUFFER name);
        EvGL (glVertexAttribPointer_ index
                (Accessor.type accessor)
                (to_GLenum (Accessor.componentType accessor))
                false
                (to_GLsizei (BufferView.byteStride bufferView))
                (size_t_add (BufferView.byteOffset bufferView)
                   (Accessor.byteOffset accessor)))].
Proof.
  intros Hattr Hsrc Hname. unfold vao_init. rewrite Hattr.
  apply attribute_source_buffer in Hsrc as (Hacc & Hbv & [b Hb]).
  rewrite (bind_defined _ _ _ _ Hacc), (bind_defined _ _ _ _ Hbv),
    (bind_defined _ _ _ _ Hb).
  rewrite bind_run; cbn. rewrite (bind_defined _ _ _ _ Hname).
  rewrite bind_run; cbn. intros [= <-]. simpl.
  by rewrite <- !app_assoc.
Qed.

(** The call of [glVertexAttribPointer] for an attribute the primitive has is
    among the events of the loop body. *)
Lemma vao_of_primitive_pointer_call model bo name primitive w w' str slot
    accessorIdx accessor bufferView h :
  (str, slot) ∈ attribute_slots →
  Primitive.attributes primitive !! str = Some accessorIdx →
  attribute_source model accessorIdx = Some (accessor, bufferView) →
  vec_at bo (BufferView.buffer bufferView) = Some h →
  vao_of_primitive model bo name primitive w = Some ((), w') →
  EvGL (glVertexAttribPointer_ slot
          (Accessor.type accessor)
          (to_GLenum (Accessor.componentType accessor))
          false
          (to_GLsizei (BufferView.byteStride bufferView))
          (size_t_add (BufferView.byteOffset bufferView)
             (Accessor.byteOffset accessor))) ∈ events w'.
Proof.
  intros Hslot Hattr Hsrc Hh. unfold vao_of_primitive.
  intros ([] & w0 & _ & ([] & w1 & H1 & ([] & w2 & H2 & ([] & w3 & H3 & H4)%bind_Some)
          %bind_Some)%bind_Some)%bind_Some.
  assert (gl_extends w3 w') as E4.
  { revert H4. case_decide; [| by intros [= <-]; apply gl_extends_refl].
    intros H4. eapply (gl_only_bind _ _ (gl_only_defined _)); [| exact H4].
    intros a. gl_only_tac. }
  pose proof (gl_only_vao_init _ _ _ _ _ _ _ _ H3) as E3.
  pose proof (gl_only_vao_init _ _ _ _ _ _ _ _ H2) as E2.
  unfold attribute_slots in Hslot. apply list_elem_of_In in Hslot. simpl in Hslot.
  destruct Hslot as [[= <- <-] | [[= <- <-] | [[= <- <-] | []]]].
  - apply (gl_extends_elem _ w3 w' E4), (gl_extends_elem _ w2 w3 E3),
      (gl_extends_elem _ w1 w2 E2).
    rewrite (vao_init_events _ _ _ _ _ _ _ _ _ _ _ Hattr Hsrc Hh H1).
    apply elem_of_app. right. do 2 apply list_elem_of_further.
    apply list_elem_of_here.
  - apply (gl_extends_elem _ w3 w' E4), (gl_extends_elem _ w2 w3 E3).
    rewrite (vao_init_events _ _ _ _ _ _ _ _ _ _ _ Hattr Hsrc Hh H2).
    apply elem_of_app. right. do 2 apply list_elem_of_further.
    apply list_elem_of_here.
  - apply (gl_extends_elem _ w3 w' E4).
    rewrite (vao_init_events _ _ _ _ _ _ _ _ _ _ _ Hattr Hsrc Hh H3).
    apply elem_of_app. right. do 2 apply list_elem_of_further.
    apply list_elem_of_here.
Qed.

(** ** The attribute slots of a configured vertex array *)

Lemma with_attribute_spec model bo primitive str index v v' :
  with_attribute model bo primitive str index v = Some v' →
  (∀ slot, slot ≠ index →
     (slot ∈ vao_enabled v' ↔ slot ∈ vao_enabled v) ∧
     vao_pointers v' !! slot = vao_pointers v !! slot) ∧
  match Primitive.attributes primitive !! str with
  | Some accessorIdx =>
      ∃ accessor bufferView name,
        attribute_source model accessorIdx = Some (accessor, bufferView) ∧
        vec_at bo (BufferView.buffer bufferView) = Some name ∧
        index ∈ vao_enabled v' ∧
        vao_pointers v' !! index = Some (attrib_pointer accessor bufferView name)
  | None => v' = v
  end.
Proof.
  unfold with_attribute. intros Heff.
  destruct (Primitive.attributes primitive !! str) as [accessorIdx |].
  - destruct (attribute_source model accessorIdx)
      as [[accessor bufferView] |] eqn:Hsrc; [simpl in Heff | done].
    destruct (vec_at bo (BufferView.buffer bufferView)) as [name |] eqn:Hname;
      [simpl in Heff | done].
    injection Heff as <-. simpl. split.
    + intros slot Hne. rewrite lookup_insert_ne by done.
      split; [| done]. rewrite elem_of_union, elem_of_singleton.
      split; [by intros [? | ?] | by right].
    + exists accessor, bufferView, name.
      split; [done |]. split; [done |].
      split; [apply elem_of_union_l; by apply elem_of_singleton |].
      apply lookup_insert_eq.
  - injection Heff as <-. split; [| done]. by intros slot _.
Qed.

Lemma with_indices_spec model bo primitive v v' :
  with_indices model bo primitive v = Some v' →
  vao_enabled v' = vao_enabled v ∧ vao_pointers v' = vao_pointers v.
Proof.
  unfold with_indices. intros Heff. case_decide.
  - destruct (vec_at (Model.accessors model) _) as [accessor |];
      [simpl in Heff | done].
    destruct (vec_at (Model.bufferViews model) _) as [bufferView |];
      [simpl in Heff | done].
    destruct (vec_at bo _) as [ebo |]; [simpl in Heff | done].
    by injection Heff as <-.
  - by injection Heff as <-.
Qed.

(** In the vertex array of a primitive, each of the three slots is enabled
    and pointed at the data of its attribute when the primitive has the
    attribute, and is in the default state when it has not. *)
Lemma configured_vao_slot model bo primitive v str slot :
  configured_vao model bo primitive = Some v →
  (str, slot) ∈ attribute_slots →
  match Primitive.attributes primitive !! str with
  | Some accessorIdx =>
      ∃ accessor bufferView name,
        attribute_source model accessorIdx = Some (accessor, bufferView) ∧
        vec_at bo (BufferView.buffer bufferView) = Some name ∧
        slot ∈ vao_enabled v ∧
        vao_pointers v !! slot = Some (attrib_pointer accessor bufferView name)
  | None => (slot ∉ vao_enabled v) ∧ vao_pointers v !! slot = None
  end.
Proof.
  intros Hcfg Hslot. unfold configured_vao in Hcfg.
  destruct (with_attribute model bo primitive "POSITION" _ default_vao)
    as [v1 |] eqn:H1; [simpl in Hcfg | done].
  destruct (with_attribute model bo primitive "NORMAL" _ v1)
    as [v2 |] eqn:H2; [simpl in Hcfg | done].
  destruct (with_attribute model bo primitive "TEXCOORD_0" _ v2)
    as [v3 |] eqn:H3; [simpl in Hcfg | done].
  apply with_attribute_spec in H1 as [K1 S1].
  apply with_attribute_spec in H2 as [K2 S2].
  apply with_attribute_spec in H3 as [K3 S3].
  apply with_indices_spec in Hcfg as [He Hp]. rewrite He, Hp.
  unfold attribute_slots in Hslot.
  unfold VERTEX_ATTRIB_POSITION_IDX, VERTEX_ATTRIB_NORMAL_IDX,
    VERTEX_ATTRIB_TEXCOORD0_IDX in *.
  apply list_elem_of_In in Hslot. simpl in Hslot.
  destruct Hslot as [[= <- <-] | [[= <- <-] | [[= <- <-] | []]]].
  - destruct (K3 0) as [E3 P3]; [done |]. destruct (K2 0) as [E2 P2]; [done |].
    destruct (Primitive.attributes primitive !! "POSITION").
    + destruct S1 as (accessor & bufferView & name & Hsrc & Hname & Hen & Hptr).
      exists accessor, bufferView, name. rewrite P3, P2.
      split; [done |]. split; [done |]. split; [by apply E3, E2 | done].
    + subst v1. rewrite P3, P2, E3, E2.
      split; [apply not_elem_of_empty | apply lookup_empty].
  - destruct (K3 1) as [E3 P3]; [done |]. destruct (K1 1) as [E1 P1]; [done |].
    destruct (Primitive.attributes primitive !! "NORMAL").
    + destruct S2 as (accessor & bufferView & name & Hsrc & Hname & Hen & Hptr).
      exists accessor, bufferView, name. rewrite P3.
      split; [done |]. split; [done |]. split; [by apply E3 | done].
    + subst v2. rewrite P3, P1, E3, E1.
      split; [apply not_elem_of_empty | apply lookup_empty].
  - destruct (K2 2) as [E2 P2]; [done |]. destruct (K1 2) as [E1 P1]; [done |].
    destruct (Primitive.attributes primitive !! "TEXCOORD_0").
    + destruct S3 as (accessor & bufferView & name & Hsrc & Hname & Hen & Hptr).
      by exists accessor, bufferView, name.
    + subst v3. rewrite P2, P1, E2, E1.
      split; [apply not_elem_of_empty | apply lookup_empty].
Qed.

(** C4, amended.  For a primitive whose indices are in range, and an
    attribute among POSITION (slot 0), NORMAL (slot 1) and TEXCOORD_0
    (slot 2) that the primitive has, with a component type, stride and
    offsets in the range of the types of the call: after the loop body has
    run on a vertex array bound for the first time, the slot is enabled and
    points into the buffer object of the buffer view, with as size the type
    code of the accessor as it is, as type the component type of the
    accessor, not normalized, with the byte stride of the buffer view as it
    is and the sum of the two byte offsets; and [glVertexAttribPointer] was
    called with these arguments.  The type code is the element cardinality
    for vec2, vec3 and vec4. *)
Theorem vao_attribute_pointer (model : Model.t) (bo : list Z) (name : Z)
    (primitive : Primitive.t) (w : World) (str : string) (slot accessorIdx : Z)
    (accessor : Accessor.t) (bufferView : BufferView.t) :
  length bo = length (Model.buffers model) →
  primitive_ok model primitive = true →
  name ≠ 0 → gl_vaos w !! name = None →
  (str, slot) ∈ attribute_slots →
  Primitive.attributes primitive !! str = Some accessorIdx →
  attribute_source model accessorIdx = Some (accessor, bufferView) →
  0 ≤ Accessor.componentType accessor < 2 ^ 32 →
  0 ≤ BufferView.byteStride bufferView < 2 ^ 31 →
  0 ≤ BufferView.byteOffset bufferView + Accessor.byteOffset accessor < 2 ^ 64 →
  (∃ w' v h,
     vao_of_primitive model bo name primitive w = Some ((), w') ∧
     gl_vaos w' !! name = Some v ∧
     vec_at bo (BufferView.buffer bufferView) = Some h ∧
     slot ∈ vao_enabled v ∧
     vao_pointers v !! slot =
       Some (mkAttribPointer
               (Accessor.type accessor)
               (Accessor.componentType accessor)
               false
               (BufferView.byteStride bufferView)
               (BufferView.byteOffset bufferView + Accessor.byteOffset accessor)
               h) ∧
     EvGL (glVertexAttribPointer_ slot
             (Accessor.type accessor)
             (Accessor.componentType accessor)
             false
             (BufferView.byteStride bufferView)
             (BufferView.byteOffset bufferView + Accessor.byteOffset accessor))
       ∈ events w') ∧
  (Accessor.type accessor ∈
     [TINYGLTF_TYPE_VEC2; TINYGLTF_TYPE_VEC3; TINYGLTF_TYPE_VEC4] →
   cardinality_of_type (Accessor.type accessor) = Some (Accessor.type accessor)).
Proof.
  intros Hlen Hok Hnz Hfresh Hslot Hattr Hsrc Hct Hstride Hoff. split.
  - destruct (primitive_ok_configured model bo primitive Hlen Hok) as [v Hv].
    destruct (vao_of_primitive_run model bo name primitive v w Hnz Hfresh Hv)
      as (w' & Hrun & Hvaos & _).
    pose proof (configured_vao_slot model bo primitive v str slot Hv Hslot) as Hs.
    rewrite Hattr in Hs.
    destruct Hs as (accessor' & bufferView' & h & Hsrc' & Hh & Hen & Hptr).
    rewrite Hsrc in Hsrc'. injection Hsrc' as <- <-.
    pose proof (vao_of_primitive_pointer_call model bo name primitive w w' str
                  slot accessorIdx accessor bufferView h Hslot Hattr Hsrc Hh Hrun)
      as Hcall.
    rewrite to_GLenum_small, to_GLsizei_small, size_t_add_small in Hcall by done.
    exists w', v, h. split; [done |].
    split; [by rewrite Hvaos, lookup_insert_eq |].
    split; [done |]. split; [done |]. split; [| done].
    rewrite Hptr. unfold attrib_pointer.
    by rewrite to_GLenum_small, to_GLsizei_small, size_t_add_small.
  - intros Htype. apply list_elem_of_In in Htype. simpl in Htype.
    destruct Htype as [<- | [<- | [<- | []]]]; reflexivity.
Qed.

(** ** drawScene and the frame loop *)

Lemma add_events_nil w : add_events [] w = w.
Proof. destruct w. unfold add_events. simpl. by rewrite app_nil_r. Qed.

Lemma add_events_app evs1 evs2 w :
  add_events evs2 (add_events evs1 w) = add_events (evs1 ++ evs2) w.
Proof. unfold add_events. simpl. by rewrite app_assoc. Qed.

Lemma bind_emit {B} (e : Event) (f : () → M B) (w : World) :
  (emit e ≫= f) w = f () (add_events [e] w).
Proof. reflexivity. Qed.

Lemma bind_gl {B} (c : GLCall) (f : () → M B) (w : World) :
  (gl c ≫= f) w = f () (add_events [EvGL c] w).
Proof. reflexivity. Qed.

Lemma emit_run (e : Event) (w : World) : emit e w = Some ((), add_events [e] w).
Proof. reflexivity. Qed.

Lemma mret_run {A} (a : A) (w : World) : (mret a : M A) w = Some (a, w).
Proof. reflexivity. Qed.

Lemma bind_assoc_run {A B C} (m : M A) (f : A → M B) (g : B → M C) (w : World) :
  ((m ≫= f) ≫= g) w = (m ≫= λ a, f a ≫= g) w.
Proof. rewrite !bind_run. by destruct (m w) as [[a w'] |]. Qed.

Ltac mrun :=
  repeat first
    [ rewrite bind_assoc_run | rewrite bind_emit | rewrite bind_gl
    | rewrite bind_mret | rewrite emit_run | rewrite mret_run
    | rewrite add_events_app ].

Lemma drawNode_loop model viewMatrix nodes count : ∀ from w,
  (from + count ≤ length nodes)%nat →
  for_loop from count (λ i,
    nodeIdx ← defined (nodes !! i);
    drawNode model viewMatrix nodeIdx (mat4_diag 1)) w =
  Some ((), add_events (drawNode_events (take count (drop from nodes))) w).
Proof.
  induction count as [| count IH]; intros from w Hcount.
  - simpl. by rewrite add_events_nil.
  - destruct (lookup_lt_is_Some_2 nodes from) as [n Hn]; [lia |].
    simpl. rewrite bind_run, (bind_defined _ _ _ _ Hn).
    unfold drawNode at 1. rewrite emit_run, IH by lia.
    rewrite add_events_app, (drop_S _ _ _ Hn). reflexivity.
Qed.

Lemma drawScene_run this model camera roots w :
  scene_roots model = Some roots →
  drawScene this model camera w =
    Some ((), add_events (drawScene_events this roots camera) w).
Proof.
  unfold scene_roots, drawScene, drawScene_events. intros Hroots.
  rewrite bind_emit, bind_gl, bind_gl, bind_run. case_decide.
  - destruct (vec_at (Model.scenes model) (Model.defaultScene model))
      as [scene |] eqn:Hscene; [| done].
    injection Hroots as <-.
    rewrite (bind_defined _ _ _ _ eq_refl), drawNode_loop by lia.
    rewrite emit_run, drop_0, firstn_all, !add_events_app. reflexivity.
  - injection Hroots as <-. unfold mret, M_ret.
    rewrite emit_run, !add_events_app. reflexivity.
Qed.

Lemma drawScene_undefined this model camera w :
  scene_roots model = None → drawScene this model camera w = None.
Proof.
  unfold scene_roots, drawScene. intros Hroots.
  rewrite bind_emit, bind_gl, bind_gl, bind_run.
  rewrite decide_True by (by case_decide).
  case_decide; [| done].
  by destruct (vec_at (Model.scenes model) (Model.defaultScene model)).
Qed.

Lemma frame_run this model roots f cameraController w :
  scene_roots model = Some roots →
  frame this model f cameraController w =
    Some (next_controller f cameraController,
          add_events (frame_events this roots f cameraController) w).
Proof.
  intros Hroots. unfold frame, frame_events, after_draw_events, next_controller.
  rewrite bind_run, (drawScene_run _ _ _ _ _ Hroots).
  destruct (fi_header_open f && fi_button_clicked f), (negb (guiHasFocus f));
    mrun; do 2 f_equal; by rewrite <- !app_assoc.
Qed.

Lemma frame_loop_run this model roots frames : ∀ cameraController w,
  scene_roots model = Some roots →
  frame_loop this model frames cameraController w =
    Some (final_controller frames cameraController,
          add_events (frames_events this roots frames cameraController) w).
Proof.
  induction frames as [| f frames IH]; intros cameraController w Hroots.
  - simpl. by rewrite add_events_nil.
  - simpl. rewrite bind_run, (frame_run _ _ _ _ _ _ Hroots), IH by done.
    by rewrite add_events_app.
Qed.

Lemma controllers_length frames : ∀ cameraController,
  length (controllers frames cameraController) = length frames.
Proof. induction frames as [| f frames IH]; intros c; simpl; [done | by rewrite IH]. Qed.

Lemma controllers_next frames : ∀ cameraController k f c,
  frames !! k = Some f →
  controllers frames cameraController !! k = Some c →
  (controllers frames cameraController
   ++ [final_controller frames cameraController]) !! S k =
    Some (next_controller f c).
Proof.
  induction frames as [| f0 frames IH]; intros cameraController k f c Hf Hc;
    [done |].
  destruct k as [| k]; simpl in *.
  - injection Hf as <-. injection Hc as <-.
    destruct frames as [| f1 frames]; done.
  - by apply IH.
Qed.

Lemma scene_roots_in_range model :
  Model.defaultScene model < Z.of_nat (length (Model.scenes model)) →
  ∃ roots, scene_roots model = Some roots ∧
    (Model.defaultScene model < 0 → roots = []) ∧
    (0 ≤ Model.defaultScene model →
     ∃ scene, vec_at (Model.scenes model) (Model.defaultScene model) = Some scene ∧
              roots = Scene.nodes scene).
Proof.
  intros Hrange. unfold scene_roots. case_decide.
  - destruct (proj2 (vec_at_is_Some (Model.scenes model) (Model.defaultScene model)))
      as [scene Hscene]; [lia |].
    rewrite Hscene. exists (Scene.nodes scene).
    split; [done |]. split; [lia |]. intros _. by exists scene.
  - exists []. split; [done |]. split; [done | lia].
Qed.

(** ** run *)

Lemma gl_only_createBufferObjects model : gl_only (createBufferObjects model).
Proof. unfold createBufferObjects, upload_buffer. gl_only_tac. Qed.

Lemma gl_only_createVertexArrayObjects model bo ranges :
  gl_only (createVertexArrayObjects model bo ranges).
Proof.
  pose proof gl_only_vao_init.
  unfold createVertexArrayObjects, vaos_of_mesh, vao_of_primitive.
  gl_only_tac.
Qed.

Lemma run_cameraController_run this w :
  run_cameraController this w =
    Some (initial_controller this, add_events [EvSetCamera (seed_camera this)] w).
Proof.
  unfold run_cameraController, initial_controller, seed_camera.
  by destruct (m_hasUserCamera this).
Qed.

Lemma loadGltfFile_run r w :
  loadGltfFile r w =
    Some ((lr_ret r, lr_model r), with_cerr (loader_output r (cerr w)) w).
Proof.
  unfold loadGltfFile, loader_output. destruct w.
  by repeat case_decide.
Qed.

(** The run when the loader fails. *)
Lemma run_failure this loaded frames w :
  lr_ret (loaded (m_gltfFilePath this)) = false →
  run this loaded frames w =
    Some (-1,
          with_cerr (loader_output (loaded (m_gltfFilePath this)) (cerr w)
                     +:+ "Failed to load glTF model" +:+ endl)
            (add_events (prelude_events this) w)).
Proof.
  intros Hret. unfold run.
  rewrite bind_emit, !bind_gl, bind_run, run_cameraController_run.
  rewrite bind_run, loadGltfFile_run, Hret. mrun. reflexivity.
Qed.

(** The run when the loader succeeds, on a model [run] can work on. *)
Lemma run_success this loaded frames w roots :
  lr_ret (loaded (m_gltfFilePath this)) = true →
  model_renderable (lr_model (loaded (m_gltfFilePath this))) = true →
  scene_roots (lr_model (loaded (m_gltfFilePath this))) = Some roots →
  ∃ setup w',
    run this loaded frames w = Some (0, w') ∧
    cerr w' = loader_output (loaded (m_gltfFilePath this)) (cerr w) ∧
    Forall (λ e, is_gl_event e = true) setup ∧
    draw_calls setup = [] ∧
    events w' =
      events w ++ prelude_events this ++ setup
      ++ [EvGL (glEnable_ GL_DEPTH_TEST); EvGL glUseProgram_]
      ++ frames_events this roots frames (initial_controller this).
Proof.
  intros Hret Hok Hroots. unfold model_renderable in Hok.
  apply andb_prop in Hok as [Hok _]. apply andb_prop in Hok as [Hok Hprims].
  apply andb_prop in Hok as [Hok Hbufs].
  apply bool_decide_eq_true in Hprims, Hbufs.
  set (r := loaded (m_gltfFilePath this)) in *.
  set (w1 := with_cerr (loader_output r (cerr w))
               (add_events (prelude_events this) w)).
  destruct (createBufferObjects_defined (lr_model r) w1 Hbufs)
    as (bo & w2 & Hrun2 & Hlen).
  destruct (createVertexArrayObjects_defined (lr_model r) bo [] w2 Hlen Hok Hprims)
    as (vaos & w3 & Hrun3).
  pose proof (gl_only_createBufferObjects _ _ _ _ Hrun2) as Hext2.
  pose proof (gl_only_createVertexArrayObjects _ _ _ _ _ _ Hrun3) as Hext3.
  destruct (gl_extends_trans _ _ _ Hext2 Hext3) as [Hcerr (setup & Hev & Hgl & Hdraw)].
  pose proof (frame_loop_run this (lr_model r) roots frames (initial_controller this)
                (add_events ([EvGL (glEnable_ GL_DEPTH_TEST)] ++ [EvGL glUseProgram_]) w3)
                Hroots) as Hloop.
  exists setup. eexists. split; [| split; [| split; [done | split; [done |]]]].
  - unfold run.
    rewrite bind_emit, !bind_gl, bind_run, run_cameraController_run.
    rewrite bind_run, loadGltfFile_run. fold r. rewrite Hret. mrun.
    change (negb true) with false. cbv iota.
    change (with_cerr _ _) with w1. rewrite bind_run, Hrun2, bind_run, Hrun3.
    mrun. rewrite bind_run, Hloop. reflexivity.
  - simpl. by rewrite Hcerr.
  - simpl. rewrite Hev. simpl. by rewrite <- !app_assoc.
Qed.

(** ** What the events of an iteration are *)

Lemma phase_after_app p evs1 evs2 :
  phase_after p (evs1 ++ evs2) = phase_after p evs1 ≫= λ p', phase_after p' evs2.
Proof.
  revert p. induction evs1 as [| e evs1 IH]; intros p; simpl; [done |].
  by destruct (phase_step p e).
Qed.

Lemma draw_calls_app evs1 evs2 :
  draw_calls (evs1 ++ evs2) = draw_calls evs1 ++ draw_calls evs2.
Proof. apply List.filter_app. Qed.

Lemma drawNode_events_facts (roots : list Z) :
  drawNode_calls (drawNode_events roots) =
    (λ nodeIdx, (nodeIdx, mat4_diag 1)) <$> roots ∧
  drawn_cameras (drawNode_events roots) = [] ∧
  update_calls (drawNode_events roots) = [] ∧
  draw_calls (drawNode_events roots) = [] ∧
  phase_after InDraw (drawNode_events roots) = Some InDraw.
Proof.
  induction roots as [| n roots (IH1 & IH2 & IH3 & IH4 & IH5)]; [done |].
  change (drawNode_events (n :: roots))
    with (EvDrawNode n (mat4_diag 1) :: drawNode_events roots).
  split; [| split; [exact IH2 | split; [exact IH3 | split; [exact IH4 | exact IH5]]]].
  change (drawNode_calls (EvDrawNode n (mat4_diag 1) :: drawNode_events roots))
    with ((n, mat4_diag 1) :: drawNode_calls (drawNode_events roots)).
  by rewrite IH1.
Qed.

Lemma drawScene_events_facts this roots camera :
  drawNode_calls (drawScene_events this roots camera) =
    (λ nodeIdx, (nodeIdx, mat4_diag 1)) <$> roots ∧
  drawn_cameras (drawScene_events this roots camera) = [camera] ∧
  update_calls (drawScene_events this roots camera) = [] ∧
  draw_calls (drawScene_events this roots camera) = [] ∧
  phase_after BeforeDraw (drawScene_events this roots camera) = Some AfterDraw.
Proof.
  destruct (drawNode_events_facts roots) as (H1 & H2 & H3 & H4 & H5).
  unfold drawScene_events.
  split; [| split; [| split; [| split]]].
  - unfold drawNode_calls in *. rewrite !omap_app, H1. simpl. by rewrite app_nil_r.
  - unfold drawn_cameras in *. rewrite !omap_app, H2. done.
  - unfold update_calls in *. rewrite !omap_app, H3. done.
  - rewrite !draw_calls_app, H4. done.
  - change (phase_after InDraw (drawNode_events roots ++ [EvDrawSceneEnd])
            = Some AfterDraw).
    rewrite phase_after_app, H5. done.
Qed.

Lemma after_draw_events_facts f camera :
  drawNode_calls (after_draw_events f camera) = [] ∧
  drawn_cameras (after_draw_events f camera) = [] ∧
  update_calls (after_draw_events f camera) =
    (if guiHasFocus f then [] else [fi_elapsed f]) ∧
  draw_calls (after_draw_events f camera) = [] ∧
  phase_after AfterDraw (after_draw_events f camera) = Some BeforeDraw.
Proof.
  unfold after_draw_events.
  by destruct (fi_header_open f && fi_button_clicked f), (guiHasFocus f).
Qed.

Lemma frame_events_facts this roots f cameraController :
  drawNode_calls (frame_events this roots f cameraController) =
    (λ nodeIdx, (nodeIdx, mat4_diag 1)) <$> roots ∧
  drawn_cameras (frame_events this roots f cameraController) =
    [getCamera cameraController] ∧
  update_calls (frame_events this roots f cameraController) =
    (if guiHasFocus f then [] else [fi_elapsed f]) ∧
  draw_calls (frame_events this roots f cameraController) = [] ∧
  phase_after BeforeDraw (frame_events this roots f cameraController) =
    Some BeforeDraw.
Proof.
  destruct (drawScene_events_facts this roots (getCamera cameraController))
    as (H1 & H2 & H3 & H4 & H5).
  destruct (after_draw_events_facts f (getCamera cameraController))
    as (K1 & K2 & K3 & K4 & K5).
  unfold frame_events.
  split; [| split; [| split; [| split]]].
  - unfold drawNode_calls in *. by rewrite omap_app, H1, K1, app_nil_r.
  - unfold drawn_cameras in *. by rewrite omap_app, H2, K2.
  - unfold update_calls in *. by rewrite omap_app, H3, K3.
  - by rewrite draw_calls_app, H4, K4.
  - by rewrite phase_after_app, H5.
Qed.

Lemma frames_events_facts this roots frames : ∀ cameraController,
  drawn_cameras (frames_events this roots frames cameraController) =
    getCamera <$> controllers frames cameraController ∧
  update_calls (frames_events this roots frames cameraController) =
    fi_elapsed <$> List.filter (λ f, negb (guiHasFocus f)) frames ∧
  draw_calls (frames_events this roots frames cameraController) = [] ∧
  phase_after BeforeDraw (frames_events this roots frames cameraController) =
    Some BeforeDraw.
Proof.
  induction frames as [| f frames IH]; intros cameraController; [done |].
  destruct (frame_events_facts this roots f cameraController)
    as (_ & H2 & H3 & H4 & H5).
  destruct (IH (next_controller f cameraController)) as (K1 & K2 & K3 & K4).
  change (frames_events this roots (f :: frames) cameraController)
    with (frame_events this roots f cameraController
          ++ frames_events this roots frames (next_controller f cameraController)).
  split; [| split; [| split]].
  - unfold drawn_cameras in *. by rewrite omap_app, H2, K1.
  - unfold update_calls in *. rewrite omap_app, H3, K2. simpl.
    by destruct (guiHasFocus f).
  - by rewrite draw_calls_app, H4, K3.
  - by rewrite phase_after_app, H5.
Qed.

Lemma gl_events_facts (evs : list Event) :
  Forall (λ e, is_gl_event e = true) evs →
  drawNode_calls evs = [] ∧ drawn_cameras evs = [] ∧ update_calls evs = [].
Proof.
  induction 1 as [| e evs He _ (IH1 & IH2 & IH3)]; [done |].
  by destruct e.
Qed.

(** The camera the controller is seeded with is the camera of the first
    call of [drawScene], if there is one. *)
Lemma run_seed this loaded frames w :
  (lr_ret (loaded (m_gltfFilePath this)) = true →
   model_renderable (lr_model (loaded (m_gltfFilePath this))) = true) →
  ∃ code w' rest,
    run this loaded frames w = Some (code, w') ∧
    events w' = events w ++ prelude_events this ++ rest ∧
    (∀ c, head (drawn_cameras rest) = Some c → c = seed_camera this).
Proof.
  intros Hok. destruct (lr_ret (loaded (m_gltfFilePath this))) eqn:Hret.
  - specialize (Hok eq_refl). pose proof Hok as Hok'.
    unfold model_renderable in Hok'. apply andb_prop in Hok' as [_ Hroots].
    apply bool_decide_eq_true in Hroots as [roots Hroots].
    destruct (run_success this loaded frames w roots Hret Hok Hroots)
      as (setup & w' & Hrun & _ & Hgl & _ & Hev).
    eexists 0, w', _. split; [done |]. split; [done |].
    destruct (gl_events_facts _ Hgl) as (_ & Hcams & _).
    destruct (frames_events_facts this roots frames (initial_controller this))
      as (Hdrawn & _).
    intros c. unfold drawn_cameras in *.
    rewrite omap_app, Hcams, omap_app, Hdrawn. simpl.
    destruct frames as [| f frames]; [done |]. simpl. intros [= <-].
    apply getCamera_setCamera.
  - eexists (-1), _, []. split; [by apply run_failure |].
    split; [reflexivity | done].
Qed.

(** X10.  No run issues a draw call, whatever the model and however many
    frames: the events of [drawScene] are the entry, two calls of OpenGL that
    do not draw, the invocations of [drawNode], which do nothing, and the
    return; the other calls of OpenGL make and configure objects. *)
Lemma run_issues_no_draw_call this loaded frames w :
  (lr_ret (loaded (m_gltfFilePath this)) = true →
   model_renderable (lr_model (loaded (m_gltfFilePath this))) = true) →
  ∃ code w' evs,
    run this loaded frames w = Some (code, w') ∧
    events w' = events w ++ evs ∧
    draw_calls evs = [].
Proof.
  intros Hok. destruct (lr_ret (loaded (m_gltfFilePath this))) eqn:Hret.
  - specialize (Hok eq_refl). pose proof Hok as Hok'.
    unfold model_renderable in Hok'. apply andb_prop in Hok' as [_ Hroots].
    apply bool_decide_eq_true in Hroots as [roots Hroots].
    destruct (run_success this loaded frames w roots Hret Hok Hroots)
      as (setup & w' & Hrun & _ & _ & Hdraw & Hev).
    destruct (frames_events_facts this roots frames (initial_controller this))
      as (_ & _ & Hframes & _).
    eexists 0, w', _. split; [done |]. split; [done |].
    by rewrite !draw_calls_app, Hdraw, Hframes.
  - eexists (-1), _, _. split; [by apply run_failure |].
    split; [reflexivity | done].
Qed.

(** ** The statements of the specification *)

(** C2.  For a model whose indices are in range and with fewer than 2^31
    primitives (offsets and counts are stored as [GLsizei]),
    [createVertexArrayObjects] returns one vertex array name per primitive,
    all distinct, and one range per mesh.  The range of mesh [i] has the
    count of the primitives of the mesh, begins where the ranges of the
    meshes before it end, lies within the returned vector, and the name at
    position [begin + k] is the vertex array configured from primitive [k] of
    the mesh.  The range of an earlier mesh ends before the range of a later
    mesh begins. *)
Theorem createVertexArrayObjects_ranges (model : Model.t) (bo : list Z)
    (ranges0 : list VaoRange) (w : World) :
  length bo = length (Model.buffers model) →
  model_ok model = true →
  Z.of_nat (length (all_primitives model)) < 2 ^ 31 →
  ∃ vaos ranges w',
    createVertexArrayObjects model bo ranges0 w = Some ((vaos, ranges), w') ∧
    length vaos = length (all_primitives model) ∧
    NoDup vaos ∧
    length ranges = length (Model.meshes model) ∧
    (∀ i mesh, Model.meshes model !! i = Some mesh →
       ∃ r, ranges !! i = Some r ∧
         count r = Z.of_nat (length (Mesh.primitives mesh)) ∧
         begin r = Z.of_nat (primitives_before model i) ∧
         begin r + count r ≤ Z.of_nat (length vaos) ∧
         ∀ k primitive, Mesh.primitives mesh !! k = Some primitive →
           ∃ name, vaos !! (Z.to_nat (begin r) + k)%nat = Some name ∧ name ≠ 0 ∧
                   gl_vaos w' !! name = configured_vao model bo primitive) ∧
    (∀ i j ri rj, (i < j)%nat →
       ranges !! i = Some ri → ranges !! j = Some rj →
       begin ri + count ri ≤ begin rj).
Proof.
  intros Hlen Hok Hbound.
  destruct (meshes_loop model bo (length (Model.meshes model)) 0 []
              (resize (length (Model.meshes model)) (mkVaoRange 0 0) ranges0)
              w Hlen Hok Hbound)
    as (vaos & ranges & w' & Hrun & Hnd & _ & Hnz & Hcfg & _ & Hranges & Hin & _);
    [simpl; lia | by rewrite length_resize | done | constructor
    | by intros x ?%elem_of_nil |].
  simpl in Hrun, Hnd, Hcfg. rewrite drop_0, firstn_all in Hcfg.
  fold (all_primitives model) in Hcfg.
  pose proof (Forall2_length _ _ _ Hcfg) as Hvlen.
  assert (∀ i mesh, Model.meshes model !! i = Some mesh →
            ranges !! i = Some (mkVaoRange (Z.of_nat (primitives_before model i))
                                  (Z.of_nat (length (Mesh.primitives mesh)))))
    as Hrange.
  { intros i mesh Hmesh. apply Hin; [| done].
    apply lookup_lt_Some in Hmesh. lia. }
  eexists vaos, ranges, _.
  split; [| split; [done | split; [done | split; [done | split]]]].
  - unfold createVertexArrayObjects. rewrite bind_run, Hrun. reflexivity.
  - simpl. intros i mesh Hmesh. eexists. split; [by apply Hrange |]. simpl.
    split; [done |]. split; [done |].
    pose proof (primitives_before_S model i mesh Hmesh) as HS.
    pose proof (primitives_before_le model (S i)) as Hle.
    split; [lia |].
    intros k primitive Hprim. rewrite Nat2Z.id.
    pose proof (all_primitives_lookup model i mesh k primitive Hmesh Hprim) as Hall.
    destruct (Forall2_lookup_r _ _ _ _ _ Hcfg Hall) as (name & Hname & Hv).
    exists name. split; [done |]. split; [| done].
    apply Hnz. by eapply list_elem_of_lookup_2.
  - intros i j ri rj Hij Hi Hj.
    destruct (lookup_lt_is_Some_2 (Model.meshes model) i) as [mi Hmi].
    { rewrite <- Hranges. by eapply lookup_lt_Some. }
    destruct (lookup_lt_is_Some_2 (Model.meshes model) j) as [mj Hmj].
    { rewrite <- Hranges. by eapply lookup_lt_Some. }
    rewrite (Hrange _ _ Hmi) in Hi. rewrite (Hrange _ _ Hmj) in Hj.
    injection Hi as <-. injection Hj as <-. simpl.
    pose proof (primitives_before_S model i mi Hmi) as HS.
    pose proof (primitives_before_mono model (S i) j). lia.
Qed.

(** C3.  With fewer than 2^31 buffers in the model (the count is handed to
    [glGenBuffers] as a [GLsizei]), [createBufferObjects] returns one buffer
    name per buffer of the model, the names are distinct and not zero, and
    the buffer named by entry [i] has a data store created by
    [glBufferStorage] with flags 0, whose size is the byte length of buffer
    [i] of the model and whose contents are the bytes of that buffer. *)
Theorem createBufferObjects_spec (model : Model.t) (w : World) :
  Z.of_nat (length (Model.buffers model)) < 2 ^ 31 →
  ∃ bo w', createBufferObjects model w = Some (bo, w') ∧
    length bo = length (Model.buffers model) ∧
    NoDup bo ∧
    ∀ i b, Model.buffers model !! i = Some b →
      ∃ h, bo !! i = Some h ∧ h ≠ 0 ∧
        gl_buffers w' !! h =
          Some (mkBufferStore (Z.of_nat (length (Buffer.data b))) (Buffer.data b) 0).
Proof.
  intros Hlen. unfold createBufferObjects.
  destruct (glGenBuffers_run _ w Hlen) as (names & w1 & Hgen & Hn & Hnd & Hnz & _).
  rewrite bind_run, Hgen, (write_names_all _ _ _ Hn).
  destruct (upload_loop model names (length (Model.buffers model)) 0 w1 Hnd)
    as (w2 & Hloop & Hin & _); [simpl; lia | simpl; lia |].
  rewrite bind_run, Hloop.
  eexists names, _. split; [reflexivity |]. split; [done |]. split; [done |].
  intros i b Hb.
  destruct (lookup_lt_is_Some_2 names i) as [h Hh].
  { rewrite Hn. by eapply lookup_lt_Some. }
  exists h. split; [done |]. split; [apply Hnz; by eapply list_elem_of_lookup_2 |].
  simpl. apply (Hin i h b); [| done | done].
  apply lookup_lt_Some in Hb. lia.
Qed.

(** C5.  When the index of the default scene is in range, the frame loop
    runs through all its iterations, and in its events: [drawScene] is
    entered and left before [update] is called, [update] is called at most
    once per iteration and before the buffers are swapped (the order
    [phase_after] accepts has no [update] between the entry and the return
    of [drawScene]); the camera of the draw of iteration [k] is the camera of
    the controller at the start of iteration [k]; [update] is called with the
    elapsed time of exactly the iterations in which the overlay wants neither
    the mouse nor the keyboard; and the controller at the start of iteration
    [k + 1] (after the last iteration: the final one) is the controller of
    iteration [k], updated or left alone accordingly. *)
Theorem frame_loop_order (this : ViewerApplication) (model : Model.t)
    (frames : list FrameInput) (cameraController : FirstPersonCameraController)
    (w : World) :
  Model.defaultScene model < Z.of_nat (length (Model.scenes model)) →
  ∃ final w' evs,
    frame_loop this model frames cameraController w = Some (final, w') ∧
    events w' = events w ++ evs ∧
    phase_after BeforeDraw evs = Some BeforeDraw ∧
    drawn_cameras evs = getCamera <$> controllers frames cameraController ∧
    update_calls evs =
      fi_elapsed <$>
        List.filter (λ f, negb (fi_WantCaptureMouse f || fi_WantCaptureKeyboard f))
          frames ∧
    length (controllers frames cameraController) = length frames ∧
    (∀ k f c,
       frames !! k = Some f →
       controllers frames cameraController !! k = Some c →
       (controllers frames cameraController ++ [final]) !! S k =
         Some (if fi_WantCaptureMouse f || fi_WantCaptureKeyboard f then c
               else update (fi_elapsed f) (fi_input f) c)).
Proof.
  intros Hrange.
  destruct (scene_roots_in_range model Hrange) as (roots & Hroots & _).
  destruct (frames_events_facts this roots frames cameraController)
    as (Hcams & Hupd & _ & Hphase).
  eexists _, _, _. split; [by apply frame_loop_run |].
  split; [done |]. split; [done |]. split; [done |]. split; [done |].
  split; [apply controllers_length |].
  intros k f c Hf Hc. rewrite (controllers_next _ _ _ _ _ Hf Hc).
  unfold next_controller, guiHasFocus.
  by destruct (fi_WantCaptureMouse f || fi_WantCaptureKeyboard f).
Qed.

(** C7.  When the index of the default scene is in range, [drawScene]
    returns, its events contain no draw call, and the invocations of
    [drawNode] among them are one per root node of the default scene, in
    order, each with the matrix [glm::mat4(1)], the identity; with a negative
    index of the default scene there is no invocation at all. *)
Theorem drawScene_starts_at_roots (this : ViewerApplication) (model : Model.t)
    (camera : Camera) (w : World) :
  Model.defaultScene model < Z.of_nat (length (Model.scenes model)) →
  ∃ w' evs roots,
    drawScene this model camera w = Some ((), w') ∧
    events w' = events w ++ evs ∧
    draw_calls evs = [] ∧
    drawNode_calls evs = (λ nodeIdx, (nodeIdx, mat4_diag 1)) <$> roots ∧
    (Model.defaultScene model < 0 → roots = []) ∧
    (0 ≤ Model.defaultScene model →
     ∃ scene, vec_at (Model.scenes model) (Model.defaultScene model) = Some scene ∧
              roots = Scene.nodes scene).
Proof.
  intros Hrange.
  destruct (scene_roots_in_range model Hrange) as (roots & Hroots & Hneg & Hpos).
  destruct (drawScene_events_facts this roots camera) as (Hnodes & _ & _ & Hdraw & _).
  eexists _, _, roots. split; [by apply drawScene_run |].
  split; [done |]. done.
Qed.

Lemma ViewerApplication_new_lookat vertexShader0 fragmentShader0 width height
    gltfFile (a0 a1 a2 a3 a4 a5 a6 a7 a8 : float) vertexShader fragmentShader :
  ∃ this,
    ViewerApplication_new vertexShader0 fragmentShader0 width height gltfFile
      [a0; a1; a2; a3; a4; a5; a6; a7; a8] vertexShader fragmentShader = Some this ∧
    seed_camera this =
      mkCamera (mkvec3 a0 a1 a2) (mkvec3 a3 a4 a5) (mkvec3 a6 a7 a8).
Proof.
  unfold ViewerApplication_new. rewrite decide_False by done. simpl.
  repeat case_decide; eexists; (split; [reflexivity | done]).
Qed.

Lemma ViewerApplication_new_no_lookat vertexShader0 fragmentShader0 width height
    gltfFile vertexShader fragmentShader :
  ∃ this,
    ViewerApplication_new vertexShader0 fragmentShader0 width height gltfFile
      [] vertexShader fragmentShader = Some this ∧
    seed_camera this = mkCamera (mkvec3 0 0 0) (mkvec3 0 0 (-1)) (mkvec3 0 1 0).
Proof.
  unfold ViewerApplication_new. rewrite decide_True by done. simpl.
  repeat case_decide; eexists; (split; [reflexivity | done]).
Qed.

(** What a seed camera means for [run]: [setCamera] is called with it before
    the loader is, the controller then answers it to [getCamera], and it is
    the camera of the first draw whenever the run gets to draw. *)
Lemma seeded_run this camera :
  seed_camera this = camera →
  (∀ w, ∃ cameraController,
     run_cameraController this w =
       Some (cameraController, add_events [EvSetCamera camera] w) ∧
     getCamera cameraController = camera) ∧
  (∀ loaded frames w,
     (lr_ret (loaded (m_gltfFilePath this)) = true →
      model_renderable (lr_model (loaded (m_gltfFilePath this))) = true) →
     ∃ code w' rest,
       run this loaded frames w = Some (code, w') ∧
       events w' =
         events w
         ++ [EvCompileProgram (m_vertexShader this) (m_fragmentShader this);
             EvGL (glGetUniformLocation_ "uModelViewProjMatrix");
             EvGL (glGetUniformLocation_ "uModelViewMatrix");
             EvGL (glGetUniformLocation_ "uNormalMatrix");
             EvSetCamera camera]
         ++ rest ∧
       (∀ c, head (drawn_cameras rest) = Some c → c = camera)).
Proof.
  intros <-. split.
  - intros w. exists (initial_controller this).
    split; [apply run_cameraController_run | apply getCamera_setCamera].
  - intros loaded frames w Hok. by apply run_seed.
Qed.

(** C8.  With nine numbers given as the look-at argument, the constructor
    returns an application for which: [run] calls [setCamera] with the camera
    made of the first, second and third triple as eye, center and up, as its
    fifth event and before it calls the loader; the controller then answers
    that camera; and whenever the run gets to draw, the first draw uses it.
    In particular for 0,0,5,0,0,0,0,1,0. *)
Theorem lookat_seeds_controller (vertexShader0 fragmentShader0 : string)
    (width height : Z) (gltfFile : string)
    (a0 a1 a2 a3 a4 a5 a6 a7 a8 : float) (vertexShader fragmentShader : string) :
  (∃ this,
     ViewerApplication_new vertexShader0 fragmentShader0 width height gltfFile
       [a0; a1; a2; a3; a4; a5; a6; a7; a8] vertexShader fragmentShader = Some this ∧
     (∀ w, ∃ cameraController,
        run_cameraController this w =
          Some (cameraController,
                add_events
                  [EvSetCamera (mkCamera (mkvec3 a0 a1 a2) (mkvec3 a3 a4 a5)
                                  (mkvec3 a6 a7 a8))] w) ∧
        getCamera cameraController =
          mkCamera (mkvec3 a0 a1 a2) (mkvec3 a3 a4 a5) (mkvec3 a6 a7 a8)) ∧
     (∀ loaded frames w,
        (lr_ret (loaded (m_gltfFilePath this)) = true →
         model_renderable (lr_model (loaded (m_gltfFilePath this))) = true) →
        ∃ code w' rest,
          run this loaded frames w = Some (code, w') ∧
          events w' =
            events w
            ++ [EvCompileProgram (m_vertexShader this) (m_fragmentShader this);
                EvGL (glGetUniformLocation_ "uModelViewProjMatrix");
                EvGL (glGetUniformLocation_ "uModelViewMatrix");
                EvGL (glGetUniformLocation_ "uNormalMatrix");
                EvSetCamera (mkCamera (mkvec3 a0 a1 a2) (mkvec3 a3 a4 a5)
                               (mkvec3 a6 a7 a8))]
            ++ rest ∧
          (∀ c, head (drawn_cameras rest) = Some c →
                c = mkCamera (mkvec3 a0 a1 a2) (mkvec3 a3 a4 a5) (mkvec3 a6 a7 a8)))) ∧
  (∃ this,
     ViewerApplication_new vertexShader0 fragmentShader0 width height gltfFile
       [0; 0; 5; 0; 0; 0; 0; 1; 0]%float vertexShader fragmentShader = Some this ∧
     ∀ w, ∃ cameraController w',
       run_cameraController this w = Some (cameraController, w') ∧
       getCamera cameraController =
         mkCamera (mkvec3 0 0 5) (mkvec3 0 0 0) (mkvec3 0 1 0)).
Proof.
  split.
  - destruct (ViewerApplication_new_lookat vertexShader0 fragmentShader0 width
                height gltfFile a0 a1 a2 a3 a4 a5 a6 a7 a8 vertexShader
                fragmentShader) as (this & Hnew & Hseed).
    exists this. split; [done |]. by apply seeded_run.
  - destruct (ViewerApplication_new_lookat vertexShader0 fragmentShader0 width
                height gltfFile 0 0 5 0 0 0 0 1 0 vertexShader
                fragmentShader) as (this & Hnew & Hseed).
    exists this. split; [done |]. intros w.
    destruct (proj1 (seeded_run this _ Hseed) w) as (c & Hrun & Hget).
    by eexists c, _.
Qed.

(** C9.  When the loader fails, [run] returns -1 and has appended to
    [std::cerr] what [loadGltfFile] writes and then the line "Failed to load
    glTF model".  When the loader succeeds on a model [run] can work on,
    [run] returns 0 once the frames are over and has appended to [std::cerr]
    only what [loadGltfFile] writes.  So the exit code is negative exactly
    when the loader fails, whatever the warning text is; and a nonempty
    warning ends up in [std::cerr] as a line "Warning: ...". *)
Theorem run_exit_code (this : ViewerApplication) (loaded : string → LoadResult)
    (frames : list FrameInput) (w : World) :
  (lr_ret (loaded (m_gltfFilePath this)) = true →
   model_renderable (lr_model (loaded (m_gltfFilePath this))) = true) →
  ∃ code w',
    run this loaded frames w = Some (code, w') ∧
    code = (if lr_ret (loaded (m_gltfFilePath this)) then 0 else -1) ∧
    (code < 0 ↔ lr_ret (loaded (m_gltfFilePath this)) = false) ∧
    cerr w' =
      (if lr_ret (loaded (m_gltfFilePath this))
       then loader_output (loaded (m_gltfFilePath this)) (cerr w)
       else loader_output (loaded (m_gltfFilePath this)) (cerr w)
            +:+ "Failed to load glTF model" +:+ endl) ∧
    (lr_warn (loaded (m_gltfFilePath this)) ≠ "" →
     ∃ before,
       loader_output (loaded (m_gltfFilePath this)) (cerr w) =
         before +:+ "Warning: " +:+ lr_warn (loaded (m_gltfFilePath this)) +:+ endl).
Proof.
  intros Hok.
  assert (lr_warn (loaded (m_gltfFilePath this)) ≠ "" →
          ∃ before,
            loader_output (loaded (m_gltfFilePath this)) (cerr w) =
              before +:+ "Warning: " +:+ lr_warn (loaded (m_gltfFilePath this))
              +:+ endl) as Hwarn.
  { intros Hne. unfold loader_output. rewrite (decide_False _ _ Hne). by eexists. }
  destruct (lr_ret (loaded (m_gltfFilePath this))) eqn:Hret.
  - specialize (Hok eq_refl). pose proof Hok as Hok'.
    unfold model_renderable in Hok'. apply andb_prop in Hok' as [_ Hroots].
    apply bool_decide_eq_true in Hroots as [roots Hroots].
    destruct (run_success this loaded frames w roots Hret Hok Hroots)
      as (setup & w' & Hrun & Hcerr & _).
    exists 0, w'. split; [done |]. split; [done |].
    split; [split; [lia | done] |]. done.
  - eexists (-1), _. split; [by apply run_failure |]. split; [done |].
    split; [split; [done | lia] |]. done.
Qed.

(** C10.  With no look-at argument, the constructor returns an application
    for which [run] calls [setCamera] with the camera of eye (0,0,0), center
    (0,0,-1) and up (0,1,0) before it calls the loader, whatever the loader
    answers; the controller then answers that camera, and whenever the run
    gets to draw, the first draw uses it. *)
Theorem default_camera_seed (vertexShader0 fragmentShader0 : string)
    (width height : Z) (gltfFile : string) (vertexShader fragmentShader : string) :
  ∃ this,
    ViewerApplication_new vertexShader0 fragmentShader0 width height gltfFile
      [] vertexShader fragmentShader = Some this ∧
    (∀ w, ∃ cameraController,
       run_cameraController this w =
         Some (cameraController,
               add_events
                 [EvSetCamera (mkCamera (mkvec3 0 0 0) (mkvec3 0 0 (-1))
                                 (mkvec3 0 1 0))] w) ∧
       getCamera cameraController =
         mkCamera (mkvec3 0 0 0) (mkvec3 0 0 (-1)) (mkvec3 0 1 0)) ∧
    (∀ loaded frames w,
       (lr_ret (loaded (m_gltfFilePath this)) = true →
        model_renderable (lr_model (loaded (m_gltfFilePath this))) = true) →
       ∃ code w' rest,
         run this loaded frames w = Some (code, w') ∧
         events w' =
           events w
           ++ [EvCompileProgram (m_vertexShader this) (m_fragmentShader this);
               EvGL (glGetUniformLocation_ "uModelViewProjMatrix");
               EvGL (glGetUniformLocation_ "uModelViewMatrix");
               EvGL (glGetUniformLocation_ "uNormalMatrix");
               EvSetCamera (mkCamera (mkvec3 0 0 0) (mkvec3 0 0 (-1))
                              (mkvec3 0 1 0))]
           ++ rest ∧
         (∀ c, head (drawn_cameras rest) = Some c →
               c = mkCamera (mkvec3 0 0 0) (mkvec3 0 0 (-1)) (mkvec3 0 1 0))).
Proof.
  destruct (ViewerApplication_new_no_lookat vertexShader0 fragmentShader0 width
              height gltfFile vertexShader fragmentShader) as (this & Hnew & Hseed).
  exists this. split; [done |]. by apply seeded_run.
Qed.

(** * Further properties of the code *)

(** ** keyCallback *)

(** X1.  After the key events of a poll have gone through the callback, the
    close flag of the window is set exactly when it was set before or one of
    the events is a release of the escape key: the callback never clears the
    flag, and a press or a repeat of escape, or any other key, leaves it. *)
Theorem deliver_keys_closes (GLFW_KEY_ESCAPE GLFW_RELEASE : Z)
    (keys : list KeyEvent) (window : bool) :
  deliver_keys GLFW_KEY_ESCAPE GLFW_RELEASE keys window =
    window ||
    existsb (λ e, bool_decide (ke_key e = GLFW_KEY_ESCAPE) &&
                  bool_decide (ke_action e = GLFW_RELEASE)) keys.
Proof.
  unfold deliver_keys. revert window.
  induction keys as [| e keys IH]; intros window; simpl.
  - by rewrite orb_false_r.
  - rewrite IH. unfold keyCallback.
    destruct (decide (ke_key e = GLFW_KEY_ESCAPE)) as [Hk | Hk],
      (decide (ke_action e = GLFW_RELEASE)) as [Ha | Ha];
      rewrite ?(bool_decide_eq_true_2 _ Hk), ?(bool_decide_eq_false_2 _ Hk),
        ?(bool_decide_eq_true_2 _ Ha), ?(bool_decide_eq_false_2 _ Ha);
      simpl; by destruct window.
Qed.

(** ** loadGltfFile *)

Lemma string_app_nil_r (s : string) : s +:+ "" = s.
Proof.
  induction s as [| a s IH]; [done |].
  change (String a (s +:+ "") = String a s). by f_equal.
Qed.

Lemma string_app_assoc (s1 s2 s3 : string) :
  (s1 +:+ s2) +:+ s3 = s1 +:+ s2 +:+ s3.
Proof.
  induction s1 as [| a s1 IH]; [done |].
  change (String a ((s1 +:+ s2) +:+ s3) = String a (s1 +:+ s2 +:+ s3)).
  by f_equal.
Qed.

Lemma loader_output_lines r c : loader_output r c = c +:+ loader_lines r.
Proof.
  unfold loader_output, loader_lines.
  destruct (decide (lr_err r = "")), (decide (lr_warn r = ""));
    by rewrite ?string_app_assoc, ?string_app_nil_r.
Qed.

(** X2.  [loadGltfFile] returns what the loader returned, whatever the
    texts are; it appends to [std::cerr], after what was there, the error
    line and then the warning line, each only when its text is not empty; it
    leaves the context of OpenGL and the log alone, and the whole world when
    both texts are empty. *)
Theorem loadGltfFile_appends (r : LoadResult) (w : World) :
  ∃ w',
    loadGltfFile r w = Some ((lr_ret r, lr_model r), w') ∧
    cerr w' = cerr w +:+ loader_lines r ∧
    events w' = events w ∧
    gl_buffers w' = gl_buffers w ∧ gl_vaos w' = gl_vaos w ∧
    gl_buffer_names w' = gl_buffer_names w ∧ gl_vao_names w' = gl_vao_names w ∧
    gl_array_buffer w' = gl_array_buffer w ∧
    gl_vertex_array w' = gl_vertex_array w ∧
    (lr_err r = "" → lr_warn r = "" → w' = w).
Proof.
  eexists. split; [apply loadGltfFile_run |]. simpl.
  split; [apply loader_output_lines |]. repeat (split; [done |]).
  intros Herr Hwarn. unfold loader_output.
  rewrite (decide_True _ _ Herr), (decide_True _ _ Hwarn). by destruct w.
Qed.

(** ** drawScene, the frame loop and run *)

Lemma scene_roots_None model :
  scene_roots model = None ↔
  Z.of_nat (length (Model.scenes model)) ≤ Model.defaultScene model.
Proof.
  split.
  - intros Hnone.
    destruct (decide (Model.defaultScene model
                      < Z.of_nat (length (Model.scenes model)))) as [Hlt |]; [| lia].
    destruct (scene_roots_in_range model Hlt) as (roots & Hroots & _). congruence.
  - intros Hge. unfold scene_roots. rewrite decide_True by lia.
    destruct (vec_at (Model.scenes model) (Model.defaultScene model)) eqn:Hscene;
      [| done].
    assert (is_Some (vec_at (Model.scenes model) (Model.defaultScene model)))
      as Hsome by (by rewrite Hscene).
    apply vec_at_is_Some in Hsome. lia.
Qed.

(** X3.  [drawScene] has a defined behaviour exactly when the index of the
    default scene is below the number of scenes (negative included): the
    index is used on [model.scenes] without a check. *)
Theorem drawScene_defined_iff (this : ViewerApplication) (model : Model.t)
    (camera : Camera) (w : World) :
  is_Some (drawScene this model camera w) ↔
  Model.defaultScene model < Z.of_nat (length (Model.scenes model)).
Proof.
  split.
  - intros Hsome.
    destruct (decide (Model.defaultScene model
                      < Z.of_nat (length (Model.scenes model)))) as [| Hge]; [done |].
    rewrite drawScene_undefined in Hsome; [by destruct Hsome |].
    apply scene_roots_None. lia.
  - intros Hlt. destruct (scene_roots_in_range model Hlt) as (roots & Hroots & _).
    by rewrite (drawScene_run _ _ _ _ _ Hroots).
Qed.

(** ** The constructor *)

(** X4.  The constructor has a defined behaviour exactly when the look-at
    vector is empty or has at least nine entries (it reads entries 0 to 8 of
    any vector that is not empty, without a check of the length), and the
    entries after the ninth are never read. *)
Theorem lookat_length (vertexShader0 fragmentShader0 : string) (width height : Z)
    (gltfFile : string) (lookatArgs : list float)
    (vertexShader fragmentShader : string) :
  (is_Some (ViewerApplication_new vertexShader0 fragmentShader0 width height
              gltfFile lookatArgs vertexShader fragmentShader) ↔
   lookatArgs = [] ∨ (9 ≤ length lookatArgs)%nat) ∧
  ViewerApplication_new vertexShader0 fragmentShader0 width height gltfFile
    (take 9 lookatArgs) vertexShader fragmentShader =
  ViewerApplication_new vertexShader0 fragmentShader0 width height gltfFile
    lookatArgs vertexShader fragmentShader.
Proof.
  destruct lookatArgs as [| a0 l].
  { split; [| done]. split; [by left | by intros _]. }
  unfold ViewerApplication_new. rewrite !decide_False by done.
  do 8 (destruct l as [| ? l];
        [split; [split; [by intros [? ?] | intros [? | ?]; [done | simpl in *; lia]]
                | done] |]).
  split; [| done].
  split; [intros _; right; simpl; lia | intros _]. simpl. by eexists.
Qed.

(** ** run *)

(** X5.  When the loader fails, [run] returns -1 with the context of OpenGL
    as it found it (no buffer and no vertex array is made), and its events
    are the five that come before the loader is called: no frame is drawn,
    [update] is not called and no buffers are swapped, whatever the window
    would do. *)
Theorem run_failure_makes_nothing (this : ViewerApplication)
    (loaded : string → LoadResult) (frames : list FrameInput) (w : World) :
  lr_ret (loaded (m_gltfFilePath this)) = false →
  ∃ w',
    run this loaded frames w = Some (-1, w') ∧
    gl_buffers w' = gl_buffers w ∧ gl_vaos w' = gl_vaos w ∧
    gl_buffer_names w' = gl_buffer_names w ∧ gl_vao_names w' = gl_vao_names w ∧
    gl_array_buffer w' = gl_array_buffer w ∧
    gl_vertex_array w' = gl_vertex_array w ∧
    events w' = events w ++ prelude_events this ∧
    List.filter is_resource_call (prelude_events this) = [] ∧
    drawn_cameras (prelude_events this) = [] ∧
    update_calls (prelude_events this) = [] ∧
    List.filter is_swap (prelude_events this) = [].
Proof.
  intros Hret. eexists. split; [by apply run_failure |]. simpl.
  by repeat (split; [done |]).
Qed.

Lemma filter_drawNode_events (p : Event → bool) (roots : list Z) :
  (∀ n m, p (EvDrawNode n m) = false) →
  List.filter p (drawNode_events roots) = [].
Proof.
  intros Hp. induction roots as [| n roots IH]; [done |].
  change (drawNode_events (n :: roots))
    with (EvDrawNode n (mat4_diag 1) :: drawNode_events roots).
  simpl. by rewrite Hp.
Qed.

Lemma filter_frame_events (p : Event → bool) this roots f cameraController :
  (∀ n m, p (EvDrawNode n m) = false) →
  List.filter p (frame_events this roots f cameraController) =
    List.filter p
      (([EvDrawSceneBegin (getCamera cameraController);
         EvGL (glViewport_ 0 0 (to_GLsizei (m_nWindowWidth this))
                 (to_GLsizei (m_nWindowHeight this)));
         EvGL (glClear_ (Z.lor GL_COLOR_BUFFER_BIT GL_DEPTH_BUFFER_BIT))]
        ++ [EvDrawSceneEnd])
       ++ after_draw_events f (getCamera cameraController)).
Proof.
  intros Hp. unfold frame_events, drawScene_events.
  by rewrite !List.filter_app, (filter_drawNode_events p roots Hp).
Qed.

Lemma frames_events_resource_calls this roots frames : ∀ cameraController,
  List.filter is_resource_call (frames_events this roots frames cameraController)
    = [].
Proof.
  induction frames as [| f frames IH]; intros cameraController; [done |].
  change (frames_events this roots (f :: frames) cameraController)
    with (frame_events this roots f cameraController
          ++ frames_events this roots frames (next_controller f cameraController)).
  rewrite List.filter_app, IH, filter_frame_events by done.
  unfold after_draw_events.
  by destruct (fi_header_open f && fi_button_clicked f), (guiHasFocus f).
Qed.

Lemma frames_events_counts this roots frames : ∀ cameraController,
  length (List.filter is_swap (frames_events this roots frames cameraController))
    = length frames ∧
  List.filter is_setCamera (frames_events this roots frames cameraController) = [].
Proof.
  induction frames as [| f frames IH]; intros cameraController; [done |].
  change (frames_events this roots (f :: frames) cameraController)
    with (frame_events this roots f cameraController
          ++ frames_events this roots frames (next_controller f cameraController)).
  destruct (IH (next_controller f cameraController)) as [IH1 IH2].
  rewrite !List.filter_app, IH2, length_app, IH1, !filter_frame_events by done.
  unfold after_draw_events.
  by destruct (fi_header_open f && fi_button_clicked f), (guiHasFocus f).
Qed.

Lemma gl_events_filters (evs : list Event) :
  Forall (λ e, is_gl_event e = true) evs →
  List.filter is_swap evs = [] ∧ List.filter is_setCamera evs = [].
Proof.
  induction 1 as [| e evs He _ [IH1 IH2]]; [done |]. by destruct e.
Qed.

(** X6.  When the index of the default scene is in range, the frame loop
    runs through all its iterations and leaves the context of OpenGL and
    [std::cerr] as it found them: among its events there is no call that
    makes, binds or configures a buffer or a vertex array. *)
Theorem frame_loop_keeps_context (this : ViewerApplication) (model : Model.t)
    (frames : list FrameInput) (cameraController : FirstPersonCameraController)
    (w : World) :
  Model.defaultScene model < Z.of_nat (length (Model.scenes model)) →
  ∃ final w' evs,
    frame_loop this model frames cameraController w = Some (final, w') ∧
    events w' = events w ++ evs ∧
    List.filter is_resource_call evs = [] ∧
    gl_buffers w' = gl_buffers w ∧ gl_vaos w' = gl_vaos w ∧
    gl_buffer_names w' = gl_buffer_names w ∧ gl_vao_names w' = gl_vao_names w ∧
    gl_array_buffer w' = gl_array_buffer w ∧
    gl_vertex_array w' = gl_vertex_array w ∧
    cerr w' = cerr w.
Proof.
  intros Hrange.
  destruct (scene_roots_in_range model Hrange) as (roots & Hroots & _).
  eexists _, _, _. split; [by apply frame_loop_run |]. simpl.
  split; [done |]. split; [apply frames_events_resource_calls |].
  by repeat (split; [done |]).
Qed.

Lemma focus_keeps_controller frames : ∀ cameraController,
  Forall (λ f, fi_WantCaptureMouse f || fi_WantCaptureKeyboard f = true) frames →
  final_controller frames cameraController = cameraController ∧
  controllers frames cameraController =
    replicate (length frames) cameraController ∧
  List.filter (λ f, negb (guiHasFocus f)) frames = [].
Proof.
  induction frames as [| f frames IH]; intros cameraController Hfocus; [done |].
  apply Forall_cons in Hfocus as [Hf Hfocus].
  assert (next_controller f cameraController = cameraController) as Hnext.
  { unfold next_controller, guiHasFocus. by rewrite Hf. }
  destruct (IH cameraController Hfocus) as (IH1 & IH2 & IH3).
  unfold final_controller in *. simpl. rewrite Hnext, IH1, IH2, IH3.
  unfold guiHasFocus. by rewrite Hf.
Qed.

(** X7.  While the overlay wants the mouse or the keyboard in every
    iteration, the camera does not move: [update] is never called, every
    frame is drawn with the camera the controller had when the loop was
    entered, and the loop leaves the controller as it was. *)
Theorem focus_freezes_camera (this : ViewerApplication) (model : Model.t)
    (frames : list FrameInput) (cameraController : FirstPersonCameraController)
    (w : World) :
  Model.defaultScene model < Z.of_nat (length (Model.scenes model)) →
  Forall (λ f, fi_WantCaptureMouse f || fi_WantCaptureKeyboard f = true) frames →
  ∃ w' evs,
    frame_loop this model frames cameraController w = Some (cameraController, w') ∧
    events w' = events w ++ evs ∧
    update_calls evs = [] ∧
    drawn_cameras evs = replicate (length frames) (getCamera cameraController).
Proof.
  intros Hrange Hfocus.
  destruct (scene_roots_in_range model Hrange) as (roots & Hroots & _).
  destruct (focus_keeps_controller frames cameraController Hfocus)
    as (Hfinal & Hctls & Hnone).
  destruct (frames_events_facts this roots frames cameraController)
    as (Hcams & Hupd & _).
  eexists _, _. split.
  { rewrite (frame_loop_run _ _ _ _ _ _ Hroots), Hfinal. reflexivity. }
  simpl. split; [done |].
  split; [by rewrite Hupd, Hnone |].
  by rewrite Hcams, Hctls, fmap_replicate.
Qed.

(** X8.  On a run whose loader succeeds on a model [run] can work on: all
    calls that make or configure buffers and vertex arrays come before the
    first frame and none comes after; each iteration of the loop draws once
    and swaps the buffers once; and [setCamera] is called once in the whole
    run, before the first frame. *)
Theorem run_makes_resources_once (this : ViewerApplication)
    (loaded : string → LoadResult) (frames : list FrameInput) (w : World) :
  lr_ret (loaded (m_gltfFilePath this)) = true →
  model_renderable (lr_model (loaded (m_gltfFilePath this))) = true →
  ∃ w' setup loop,
    run this loaded frames w = Some (0, w') ∧
    events w' = events w ++ setup ++ loop ∧
    drawn_cameras setup = [] ∧
    List.filter is_swap setup = [] ∧
    length (List.filter is_setCamera setup) = 1%nat ∧
    List.filter is_resource_call loop = [] ∧
    List.filter is_setCamera loop = [] ∧
    length (drawn_cameras loop) = length frames ∧
    length (List.filter is_swap loop) = length frames.
Proof.
  intros Hret Hok. pose proof Hok as Hok'.
  unfold model_renderable in Hok'. apply andb_prop in Hok' as [_ Hroots].
  apply bool_decide_eq_true in Hroots as [roots Hroots].
  destruct (run_success this loaded frames w roots Hret Hok Hroots)
    as (setup & w' & Hrun & _ & Hgl & _ & Hev).
  destruct (gl_events_facts _ Hgl) as (_ & Hcams & _).
  destruct (gl_events_filters _ Hgl) as [Hswap Hset].
  destruct (frames_events_facts this roots frames (initial_controller this))
    as (Hdrawn & _).
  destruct (frames_events_counts this roots frames (initial_controller this))
    as [Hswaps Hsets].
  exists w',
    (prelude_events this ++ setup
     ++ [EvGL (glEnable_ GL_DEPTH_TEST); EvGL glUseProgram_]),
    (frames_events this roots frames (initial_controller this)).
  split; [done |]. split; [by rewrite Hev, <- !app_assoc |].
  split; [unfold drawn_cameras in *; by rewrite !omap_app, Hcams |].
  split; [by rewrite !List.filter_app, Hswap |].
  split; [by rewrite !List.filter_app, Hset |].
  split; [apply frames_events_resource_calls |]. split; [done |].
  split; [| done].
  by rewrite Hdrawn, length_fmap, controllers_length.
Qed.

Lemma ViewerApplication_new_members vertexShader0 fragmentShader0 width height
    gltfFile lookatArgs vertexShader fragmentShader this :
  ViewerApplication_new vertexShader0 fragmentShader0 width height gltfFile
    lookatArgs vertexShader fragmentShader = Some this →
  m_nWindowWidth this = width ∧ m_nWindowHeight this = height ∧
  m_gltfFilePath this = gltfFile ∧
  m_vertexShader this =
    (if decide (vertexShader = "") then vertexShader0 else vertexShader) ∧
  m_fragmentShader this =
    (if decide (fragmentShader = "") then fragmentShader0 else fragmentShader).
Proof.
  unfold ViewerApplication_new.
  destruct (if decide (lookatArgs = []) then _ else _) as [this0 |] eqn:Hthis0;
    [| done].
  assert (m_nWindowWidth this0 = width ∧ m_nWindowHeight this0 = height ∧
          m_gltfFilePath this0 = gltfFile ∧
          m_vertexShader this0 = vertexShader0 ∧
          m_fragmentShader this0 = fragmentShader0) as (H1 & H2 & H3 & H4 & H5).
  { revert Hthis0. case_decide; [by intros [= <-] |].
    do 9 (destruct lookatArgs as [| ? lookatArgs];
          [by intros [=] |]).
    by intros [= <-]. }
  simpl. intros [= <-].
  by destruct (decide (vertexShader = "")), (decide (fragmentShader = "")).
Qed.

(** X9.  The application the constructor returns runs with what it was
    given: [run] compiles, as its first event, the vertex and the fragment
    shader of the arguments, and for an argument that is the empty string the
    default of the header instead; and the file it asks the loader for is the
    file of the arguments.  This holds with and without a look-at vector. *)
Theorem run_uses_constructor_arguments (vertexShader0 fragmentShader0 : string)
    (width height : Z) (gltfFile : string) (lookatArgs : list float)
    (vertexShader fragmentShader : string) (this : ViewerApplication)
    (loaded : string → LoadResult) (frames : list FrameInput) (w : World) :
  ViewerApplication_new vertexShader0 fragmentShader0 width height gltfFile
    lookatArgs vertexShader fragmentShader = Some this →
  (lr_ret (loaded gltfFile) = true →
   model_renderable (lr_model (loaded gltfFile)) = true) →
  ∃ w' rest,
    run this loaded frames w =
      Some ((if lr_ret (loaded gltfFile) then 0 else -1), w') ∧
    events w' =
      events w
      ++ EvCompileProgram
           (if decide (vertexShader = "") then vertexShader0 else vertexShader)
           (if decide (fragmentShader = "") then fragmentShader0 else fragmentShader)
         :: rest.
Proof.
  intros Hnew Hok.
  destruct (ViewerApplication_new_members _ _ _ _ _ _ _ _ _ Hnew)
    as (_ & _ & Hpath & Hvs & Hfs).
  rewrite <- Hpath in Hok |- *. rewrite <- Hvs, <- Hfs.
  destruct (lr_ret (loaded (m_gltfFilePath this))) eqn:Hret.
  - specialize (Hok eq_refl). pose proof Hok as Hok'.
    unfold model_renderable in Hok'. apply andb_prop in Hok' as [_ Hroots].
    apply bool_decide_eq_true in Hroots as [roots Hroots].
    destruct (run_success this loaded frames w roots Hret Hok Hroots)
      as (setup & w' & Hrun & _ & _ & _ & Hev).
    eexists w', _. split; [done |]. rewrite Hev. reflexivity.
  - eexists _, _. split; [by apply run_failure |]. reflexivity.
Qed.

(** ** createBufferObjects *)

Lemma glGenBuffers_fresh (n : nat) (w : World) :
  Z.of_nat n < 2 ^ 31 →
  ∃ names,
    glGenBuffers (to_GLsizei (Z.of_nat n)) w =
      Some (names,
            log (EvGL (glGenBuffers_ (Z.of_nat n) names))
              (mkWorld (list_to_set names ∪ gl_buffer_names w) (gl_buffers w)
                 (gl_array_buffer w) (gl_vao_names w) (gl_vaos w)
                 (gl_vertex_array w) (cerr w) (events w))) ∧
    length names = n ∧ NoDup names ∧
    (∀ h, h ∈ names →
       h ≠ 0 ∧ (h ∉ gl_buffer_names w) ∧ gl_buffers w !! h = None).
Proof.
  intros Hn. rewrite to_GLsizei_small by lia.
  unfold glGenBuffers. rewrite decide_True by lia. rewrite Nat2Z.id.
  eexists. split; [reflexivity |].
  split; [apply gen_names_length |]. split; [apply gen_names_NoDup |].
  intros h [Hh Hnz]%gen_names_fresh.
  split; [done |]. split; [set_solver |].
  apply not_elem_of_dom. set_solver.
Qed.

(** The loop of [createBufferObjects]: its calls, and what it leaves
    alone. *)
Lemma upload_loop_effect model bo count : ∀ from w,
  (from + count ≤ length bo)%nat →
  (from + count ≤ length (Model.buffers model))%nat →
  ∃ w', for_loop from count (upload_buffer model bo) w = Some ((), w') ∧
    events w' =
      events w
      ++ upload_events (take count (drop from bo))
           (take count (drop from (Model.buffers model))) ∧
    gl_buffer_names w' = gl_buffer_names w ∧
    gl_vao_names w' = gl_vao_names w ∧ gl_vaos w' = gl_vaos w ∧
    gl_vertex_array w' = gl_vertex_array w ∧ cerr w' = cerr w.
Proof.
  induction count as [| count IH]; intros from w Hbo Hbufs.
  - exists w. split; [done |]. simpl. by rewrite app_nil_r.
  - destruct (lookup_lt_is_Some_2 bo from) as [h0 Hh0]; [lia |].
    destruct (lookup_lt_is_Some_2 (Model.buffers model) from) as [b0 Hb0]; [lia |].
    assert (∃ w1, upload_buffer model bo from w = Some ((), w1) ∧
              events w1 =
                events w
                ++ [EvGL (glBindBuffer_ GL_ARRAY_BUFFER h0);
                    EvGL (glBufferStorage_ GL_ARRAY_BUFFER
                            (Z.of_nat (length (Buffer.data b0))) (Buffer.data b0) 0)] ∧
              gl_buffer_names w1 = gl_buffer_names w ∧
              gl_vao_names w1 = gl_vao_names w ∧ gl_vaos w1 = gl_vaos w ∧
              gl_vertex_array w1 = gl_vertex_array w ∧ cerr w1 = cerr w)
      as (w1 & Hrun1 & Hev1 & Hbn1 & Hvn1 & Hv1 & Hva1 & Hc1).
    { unfold upload_buffer. rewrite Hh0, Hb0. eexists. split; [reflexivity |].
      simpl. by rewrite <- app_assoc. }
    destruct (IH (S from) w1) as (w' & Hrun & Hev & Hbn & Hvn & Hv & Hva & Hc);
      [lia | lia |].
    exists w'. split; [simpl; by rewrite bind_run, Hrun1 |].
    split; [| repeat split; congruence].
    rewrite Hev, Hev1, (drop_S _ _ _ Hh0), (drop_S _ _ _ Hb0). simpl.
    by rewrite <- app_assoc.
Qed.

(** X11.  With fewer than 2^31 buffers in the model, the calls of
    [createBufferObjects] are: [glGenBuffers] once, for as many names as the
    model has buffers; then for every buffer of the model, in order, the
    binding of its name to [GL_ARRAY_BUFFER] followed by [glBufferStorage]
    with its byte length, its bytes and flags 0; then the binding of zero.
    On return nothing is bound to [GL_ARRAY_BUFFER], and the vertex arrays,
    the bound vertex array and [std::cerr] are as before. *)
Theorem createBufferObjects_calls (model : Model.t) (w : World) :
  Z.of_nat (length (Model.buffers model)) < 2 ^ 31 →
  ∃ bo w', createBufferObjects model w = Some (bo, w') ∧
    events w' =
      events w
      ++ EvGL (glGenBuffers_ (Z.of_nat (length (Model.buffers model))) bo)
         :: upload_events bo (Model.buffers model)
      ++ [EvGL (glBindBuffer_ GL_ARRAY_BUFFER 0)] ∧
    gl_array_buffer w' = 0 ∧
    gl_vaos w' = gl_vaos w ∧ gl_vao_names w' = gl_vao_names w ∧
    gl_vertex_array w' = gl_vertex_array w ∧ cerr w' = cerr w.
Proof.
  intros Hlen. unfold createBufferObjects.
  destruct (glGenBuffers_fresh _ w Hlen) as (names & Hgen & Hn & _).
  rewrite bind_run, Hgen, (write_names_all _ _ _ Hn).
  destruct (upload_loop_effect model names (length (Model.buffers model)) 0
              (log (EvGL (glGenBuffers_ (Z.of_nat (length (Model.buffers model)))
                            names))
                 (mkWorld (list_to_set names ∪ gl_buffer_names w) (gl_buffers w)
                    (gl_array_buffer w) (gl_vao_names w) (gl_vaos w)
                    (gl_vertex_array w) (cerr w) (events w))))
    as (w2 & Hloop & Hev & _ & Hvn & Hv & Hva & Hc); [simpl; lia | simpl; lia |].
  rewrite bind_run, Hloop.
  eexists names, _. split; [reflexivity |]. simpl.
  split; [| by repeat split].
  rewrite Hev. simpl. rewrite drop_0, <- Hn, firstn_all, Hn, firstn_all.
  by rewrite <- !app_assoc.
Qed.

(** X12.  With fewer than 2^31 buffers in the model, the names
    [createBufferObjects] returns were not in use before the call: they had
    not been handed out and named no data store.  So the call overwrites
    nothing: every data store that is not under one of the returned names is
    as before, in particular every data store that existed, and the names
    handed out are the earlier ones and the returned ones. *)
Theorem createBufferObjects_fresh (model : Model.t) (w : World) :
  Z.of_nat (length (Model.buffers model)) < 2 ^ 31 →
  ∃ bo w', createBufferObjects model w = Some (bo, w') ∧
    (∀ h, h ∈ bo →
       h ≠ 0 ∧ (h ∉ gl_buffer_names w) ∧ gl_buffers w !! h = None) ∧
    (∀ h, h ∉ bo → gl_buffers w' !! h = gl_buffers w !! h) ∧
    (∀ h store, gl_buffers w !! h = Some store →
       gl_buffers w' !! h = Some store) ∧
    gl_buffer_names w' = list_to_set bo ∪ gl_buffer_names w.
Proof.
  intros Hlen. unfold createBufferObjects.
  destruct (glGenBuffers_fresh _ w Hlen) as (names & Hgen & Hn & Hnd & Hfresh).
  rewrite bind_run, Hgen, (write_names_all _ _ _ Hn).
  set (w1 := log (EvGL (glGenBuffers_ (Z.of_nat (length (Model.buffers model)))
                         names))
              (mkWorld (list_to_set names ∪ gl_buffer_names w) (gl_buffers w)
                 (gl_array_buffer w) (gl_vao_names w) (gl_vaos w)
                 (gl_vertex_array w) (cerr w) (events w))).
  destruct (upload_loop model names (length (Model.buffers model)) 0 w1 Hnd)
    as (w2 & Hloop & _ & Hout); [simpl; lia | simpl; lia |].
  destruct (upload_loop_effect model names (length (Model.buffers model)) 0 w1)
    as (w2' & Hloop' & _ & Hbn & _); [simpl; lia | simpl; lia |].
  rewrite Hloop in Hloop'. injection Hloop' as <-.
  rewrite bind_run, Hloop.
  assert (∀ h, h ∉ names → gl_buffers w2 !! h = gl_buffers w !! h) as Hkeep.
  { intros h Hh. rewrite Hout; [done |].
    intros i _ Hi. by apply Hh, (list_elem_of_lookup_2 _ i). }
  eexists names, _. split; [reflexivity |]. simpl.
  split; [done |]. split; [done |]. split; [| done].
  intros h store Hstore. rewrite Hkeep; [done |].
  intros Hh. apply Hfresh in Hh as (_ & _ & Hnone). congruence.
Qed.

(** ** vao_init *)

Lemma undefined_bind {A B} (f : A → M B) (w : World) :
  (defined None ≫= f) w = None.
Proof. reflexivity. Qed.

(** Whether [vao_init] has a defined behaviour depends neither on the world
    nor on the slot. *)
Lemma vao_init_is_Some model primitive bo str index index' v w :
  is_Some (vao_init model primitive bo str index w) ↔
  is_Some (with_attribute model bo primitive str index' v).
Proof.
  unfold vao_init, with_attribute, attribute_source.
  destruct (Primitive.attributes primitive !! str) as [accessorIdx |];
    [| by split; intros _; eexists].
  destruct (vec_at (Model.accessors model) accessorIdx) as [accessor |] eqn:Hacc;
    [| rewrite undefined_bind; simpl; by split; intros [? ?]].
  rewrite (bind_defined _ _ _ _ eq_refl). simpl.
  destruct (vec_at (Model.bufferViews model) (Accessor.bufferView accessor))
    as [bufferView |] eqn:Hbv;
    [| rewrite undefined_bind; simpl; by split; intros [? ?]].
  rewrite (bind_defined _ _ _ _ eq_refl). simpl.
  destruct (vec_at (Model.buffers model) (BufferView.buffer bufferView))
    as [b |] eqn:Hb;
    [| rewrite undefined_bind; simpl; by split; intros [? ?]].
  rewrite (bind_defined _ _ _ _ eq_refl). simpl.
  rewrite bind_run; cbn.
  destruct (vec_at bo (BufferView.buffer bufferView)) as [name |] eqn:Hname;
    [| rewrite undefined_bind; simpl; by split; intros [? ?]].
  rewrite (bind_defined _ _ _ _ eq_refl). simpl.
  rewrite bind_run; cbn. by split; intros _; eexists.
Qed.

(** X13.  [vao_init] has a defined behaviour exactly when the primitive has
    no attribute of the given name, or the accessor index of the attribute,
    the buffer view index of that accessor and the buffer index of that
    buffer view are all in range, the last one in [model.buffers] and in
    [bufferObjects]: the three indices are used without a check, so a
    negative one or one past the end is undefined behaviour, in whatever
    state the context is. *)
Theorem vao_init_defined_iff (model : Model.t) (primitive : Primitive.t)
    (bo : list Z) (str : string) (index : Z) (w : World) :
  is_Some (vao_init model primitive bo str index w) ↔
  match Primitive.attributes primitive !! str with
  | Some accessorIdx =>
      ∃ accessor bufferView,
        0 ≤ accessorIdx < Z.of_nat (length (Model.accessors model)) ∧
        Model.accessors model !! Z.to_nat accessorIdx = Some accessor ∧
        0 ≤ Accessor.bufferView accessor
          < Z.of_nat (length (Model.bufferViews model)) ∧
        Model.bufferViews model !! Z.to_nat (Accessor.bufferView accessor)
          = Some bufferView ∧
        0 ≤ BufferView.buffer bufferView
          < Z.of_nat (length (Model.buffers model)) ∧
        BufferView.buffer bufferView < Z.of_nat (length bo)
  | None => True
  end.
Proof.
  rewrite (vao_init_is_Some _ _ _ _ _ index default_vao).
  unfold with_attribute, attribute_source.
  destruct (Primitive.attributes primitive !! str) as [accessorIdx |];
    [| by split; [| intros _; eexists]].
  split.
  - intros [v Hv].
    destruct (vec_at (Model.accessors model) accessorIdx) as [accessor |] eqn:Hacc;
      [simpl in Hv | done].
    destruct (vec_at (Model.bufferViews model) (Accessor.bufferView accessor))
      as [bufferView |] eqn:Hbv; [simpl in Hv | done].
    destruct (vec_at (Model.buffers model) (BufferView.buffer bufferView))
      as [b |] eqn:Hb; [simpl in Hv | done].
    destruct (vec_at bo (BufferView.buffer bufferView)) as [name |] eqn:Hname;
      [| done].
    exists accessor, bufferView.
    pose proof (proj1 (vec_at_is_Some _ _) (mk_is_Some _ _ Hacc)).
    pose proof (proj1 (vec_at_is_Some _ _) (mk_is_Some _ _ Hbv)).
    pose proof (proj1 (vec_at_is_Some _ _) (mk_is_Some _ _ Hb)).
    pose proof (proj1 (vec_at_is_Some _ _) (mk_is_Some _ _ Hname)).
    apply vec_at_Some in Hacc, Hbv.
    repeat split; try lia; tauto.
  - intros (accessor & bufferView & Hi & Hacc & Hj & Hbv & Hk & Hk').
    assert (vec_at (Model.accessors model) accessorIdx = Some accessor) as ->
      by (apply vec_at_Some; split; [lia | done]).
    simpl.
    assert (vec_at (Model.bufferViews model) (Accessor.bufferView accessor)
            = Some bufferView) as ->
      by (apply vec_at_Some; split; [lia | done]).
    simpl.
    destruct (proj2 (vec_at_is_Some (Model.buffers model)
                       (BufferView.buffer bufferView))) as [b ->]; [lia |].
    simpl.
    destruct (proj2 (vec_at_is_Some bo (BufferView.buffer bufferView)))
      as [name ->]; [lia |].
    by eexists.
Qed.

(** X14.  A call of [vao_init] that returns changes the bound vertex array
    only, by what [with_attribute] says, and the binding of
    [GL_ARRAY_BUFFER]: the data stores, the names handed out, the other
    vertex arrays, the bound vertex array's name and its index buffer, and
    [std::cerr] are as before.  For an attribute the primitive has not, the
    world is as before; for one it has, [GL_ARRAY_BUFFER] is left bound to
    the buffer object of the attribute. *)
Theorem vao_init_frame (model : Model.t) (primitive : Primitive.t)
    (bo : list Z) (str : string) (index : Z) (w w' : World) :
  vao_init model primitive bo str index w = Some ((), w') →
  gl_buffers w' = gl_buffers w ∧ gl_buffer_names w' = gl_buffer_names w ∧
  gl_vao_names w' = gl_vao_names w ∧
  gl_vertex_array w' = gl_vertex_array w ∧ cerr w' = cerr w ∧
  (∀ name, name ≠ gl_vertex_array w → gl_vaos w' !! name = gl_vaos w !! name) ∧
  with_attribute model bo primitive str index (bound_vao w) = Some (bound_vao w') ∧
  vao_element_buffer (bound_vao w') = vao_element_buffer (bound_vao w) ∧
  match Primitive.attributes primitive !! str with
  | Some accessorIdx =>
      ∃ accessor bufferView,
        attribute_source model accessorIdx = Some (accessor, bufferView) ∧
        vec_at bo (BufferView.buffer bufferView) = Some (gl_array_buffer w')
  | None => w' = w
  end.
Proof.
  unfold vao_init, with_attribute, attribute_source.
  destruct (Primitive.attributes primitive !! str) as [accessorIdx |].
  - destruct (vec_at (Model.accessors model) accessorIdx) as [accessor |] eqn:Hacc;
      [| by rewrite undefined_bind].
    rewrite (bind_defined _ _ _ _ eq_refl). simpl.
    destruct (vec_at (Model.bufferViews model) (Accessor.bufferView accessor))
      as [bufferView |] eqn:Hbv; [| by rewrite undefined_bind].
    rewrite (bind_defined _ _ _ _ eq_refl). simpl.
    destruct (vec_at (Model.buffers model) (BufferView.buffer bufferView))
      as [b |] eqn:Hb; [| by rewrite undefined_bind].
    rewrite (bind_defined _ _ _ _ eq_refl). simpl.
    rewrite bind_run; cbn.
    destruct (vec_at bo (BufferView.buffer bufferView)) as [name |] eqn:Hname;
      [| by rewrite undefined_bind].
    rewrite (bind_defined _ _ _ _ eq_refl). simpl.
    rewrite bind_run; cbn. intros [= <-]. simpl.
    unfold bound_vao; simpl. rewrite !lookup_insert_eq. simpl.
    repeat split; try done.
    + intros name' Hne. by rewrite !lookup_insert_ne.
    + by exists accessor, bufferView.
  - intros [= <-]. by repeat split.
Qed.

(** ** createVertexArrayObjects: what it leaves alone *)

Lemma respects_ret (R : relation World) `{!Reflexive R} {A} (a : A) :
  respects R (mret a : M A).
Proof. by intros w a' w' [= <- <-]. Qed.

Lemma respects_bind (R : relation World) `{!Transitive R} {A B}
    (m : M A) (f : A → M B) :
  respects R m → (∀ a, respects R (f a)) → respects R (m ≫= f).
Proof.
  intros Hm Hf w b w' (a & w1 & H1 & H2)%bind_Some.
  transitivity w1; [by eapply Hm | by eapply Hf].
Qed.

Lemma respects_defined (R : relation World) `{!Reflexive R} {A} (o : option A) :
  respects R (defined o).
Proof. intros w a w' [_ Hw]%defined_Some. simpl in Hw. by subst. Qed.

Lemma respects_for_loop (R : relation World) `{!PreOrder R}
    (body : nat → M unit) (count from : nat) :
  (∀ i, respects R (body i)) → respects R (for_loop from count body).
Proof.
  intros Hbody. revert from. induction count as [| count IH]; intros from; simpl.
  - apply respects_ret, _.
  - apply respects_bind; [apply _ | apply Hbody | intros _; apply IH].
Qed.

Lemma respects_for_loop_with (R : relation World) `{!PreOrder R} {V}
    (body : nat → V → M V) (count from : nat) (vars : V) :
  (∀ i v, respects R (body i v)) → respects R (for_loop_with from count body vars).
Proof.
  intros Hbody. revert from vars.
  induction count as [| count IH]; intros from vars; simpl.
  - apply respects_ret, _.
  - apply respects_bind; [apply _ | apply Hbody | intros v; apply IH].
Qed.

#[local] Instance same_buffers_preorder : PreOrder same_buffers.
Proof.
  split.
  - by intros w.
  - intros w1 w2 w3 (H1 & H2 & H3 & H4) (K1 & K2 & K3 & K4).
    split; [congruence |]. split; [congruence |]. split; [congruence |].
    by transitivity (gl_vao_names w2).
Qed.

Lemma same_buffers_glBindVertexArray name :
  respects same_buffers (glBindVertexArray name).
Proof. by intros w a w' [= <- <-]. Qed.

Lemma same_buffers_glGenVertexArrays n :
  respects same_buffers (glGenVertexArrays n).
Proof.
  intros w a w' [= <- <-].
  split; [done |]. split; [done |]. split; [done |].
  simpl. apply union_subseteq_r.
Qed.

Lemma same_buffers_glBindBuffer target name :
  respects same_buffers (glBindBuffer target name).
Proof. intros w a w' [= <- <-]. by destruct target. Qed.

Lemma same_buffers_vao_init model primitive bo str index :
  respects same_buffers (vao_init model primitive bo str index).
Proof.
  unfold vao_init.
  destruct (Primitive.attributes primitive !! str); [| apply respects_ret, _].
  repeat (apply respects_bind;
          [apply _ | try apply respects_defined, _ | intros ?]);
    try apply same_buffers_glBindBuffer; by intros w0 u0 w0' [= <- <-].
Qed.

Lemma same_buffers_vao_of_primitive model bo name primitive :
  respects same_buffers (vao_of_primitive model bo name primitive).
Proof.
  unfold vao_of_primitive.
  apply respects_bind; [apply _ | apply same_buffers_glBindVertexArray | intros _].
  do 3 (apply respects_bind; [apply _ | apply same_buffers_vao_init | intros _]).
  case_decide; [| apply respects_ret, _].
  do 3 (apply respects_bind; [apply _ | apply respects_defined, _ | intros ?]).
  apply same_buffers_glBindBuffer.
Qed.

Lemma same_buffers_vaos_of_mesh model bo i vars :
  respects same_buffers (vaos_of_mesh model bo i vars).
Proof.
  destruct vars as [vaos ranges]. unfold vaos_of_mesh.
  do 2 (apply respects_bind; [apply _ | apply respects_defined, _ | intros ?]).
  apply respects_bind; [apply _ | apply same_buffers_glGenVertexArrays | intros ?].
  apply respects_bind; [apply _ | | intros _; apply respects_ret, _].
  apply respects_for_loop; [apply _ |]. intros k.
  do 2 (apply respects_bind; [apply _ | apply respects_defined, _ | intros ?]).
  apply same_buffers_vao_of_primitive.
Qed.

(** X15.  Whenever [createVertexArrayObjects] returns, no vertex array is
    bound, and the data stores, the buffer names and [std::cerr] are as
    before the call: the function uploads nothing and makes no buffer.  The
    vertex array names handed out before are still handed out.  Its events
    are calls of OpenGL, none of them a draw call, and the last one is the
    binding of the vertex array zero. *)
Theorem createVertexArrayObjects_frame (model : Model.t) (bo : list Z)
    (ranges0 : list VaoRange) (w : World) (r : list Z * list VaoRange)
    (w' : World) :
  createVertexArrayObjects model bo ranges0 w = Some (r, w') →
  gl_vertex_array w' = 0 ∧
  gl_buffers w' = gl_buffers w ∧ gl_buffer_names w' = gl_buffer_names w ∧
  cerr w' = cerr w ∧
  gl_vao_names w ⊆ gl_vao_names w' ∧
  ∃ evs,
    events w' = events w ++ evs ++ [EvGL (glBindVertexArray_ 0)] ∧
    Forall (λ e, is_gl_event e = true) evs ∧ draw_calls evs = [].
Proof.
  unfold createVertexArrayObjects.
  intros (r1 & w1 & Hloop & Hrest)%bind_Some.
  rewrite bind_run in Hrest. cbn in Hrest. injection Hrest as <- <-.
  pose proof Hloop as Hgl.
  apply (respects_for_loop_with same_buffers) in Hloop
    as (Hb & Hbn & Hc & Hvn); [| apply same_buffers_vaos_of_mesh].
  apply gl_only_for_loop_with in Hgl as (_ & evs & Hev & Hall & Hdraw).
  2: { intros i [vaos ranges]. unfold vaos_of_mesh, vao_of_primitive.
       gl_only_tac; apply gl_only_vao_init. }
  simpl. repeat split; try done.
  exists evs. by rewrite Hev, <- app_assoc.
Qed.

(** ** createVertexArrayObjects: the vector of ranges is an output only *)

Lemma vaos_of_mesh_ranges model bo i vaos r1 r2 w :
  length r1 = length r2 →
  match vaos_of_mesh model bo i (vaos, r1) w,
        vaos_of_mesh model bo i (vaos, r2) w with
  | Some ((v1, r1'), w1), Some ((v2, r2'), w2) =>
      v1 = v2 ∧ w1 = w2 ∧ ∃ x, r1' = <[i := x]> r1 ∧ r2' = <[i := x]> r2
  | None, None => True
  | _, _ => False
  end.
Proof.
  intros Hlen. unfold vaos_of_mesh.
  destruct (Model.meshes model !! i) as [mesh |]; [| by rewrite !undefined_bind].
  rewrite !(bind_defined _ _ _ _ eq_refl).
  destruct (r1 !! i) as [x1 |] eqn:H1.
  - destruct (lookup_lt_is_Some_2 r2 i) as [x2 H2].
    { rewrite <- Hlen. by eapply lookup_lt_Some. }
    rewrite H2, !(bind_defined _ _ _ _ eq_refl), !bind_run.
    destruct (glGenVertexArrays _ w) as [[names w1] |]; [| done].
    rewrite !bind_run.
    match goal with
    | |- context [for_loop ?a ?b ?c ?d] => destruct (for_loop a b c d) as [[[] w2] |]
    end; [| done].
    split; [done |]. split; [done |]. by eexists.
  - apply lookup_ge_None in H1.
    rewrite (proj2 (lookup_ge_None r2 i)) by lia.
    by rewrite !undefined_bind.
Qed.

Lemma meshes_loop_ranges model bo count : ∀ from vaos r1 r2 w,
  length r1 = length r2 →
  (∀ j, (j < from)%nat → r1 !! j = r2 !! j) →
  match for_loop_with from count (vaos_of_mesh model bo) (vaos, r1) w,
        for_loop_with from count (vaos_of_mesh model bo) (vaos, r2) w with
  | Some ((v1, r1'), w1), Some ((v2, r2'), w2) =>
      v1 = v2 ∧ w1 = w2 ∧ length r1' = length r1 ∧ length r2' = length r2 ∧
      ∀ j, (j < from + count)%nat → r1' !! j = r2' !! j
  | None, None => True
  | _, _ => False
  end.
Proof.
  induction count as [| count IH]; intros from vaos r1 r2 w Hlen Hagree.
  - simpl. split; [done |]. split; [done |]. split; [done |]. split; [done |].
    intros j Hj. apply Hagree. lia.
  - rewrite !for_loop_with_S.
    pose proof (vaos_of_mesh_ranges model bo from vaos r1 r2 w Hlen) as Hstep.
    destruct (vaos_of_mesh model bo from (vaos, r1) w) as [[[v1 r1'] w1] |],
      (vaos_of_mesh model bo from (vaos, r2) w) as [[[v2 r2'] w2] |];
      try done.
    destruct Hstep as (<- & <- & x & -> & ->).
    assert (∀ j, (j < S from)%nat →
              <[from := x]> r1 !! j = <[from := x]> r2 !! j) as Hagree'.
    { intros j Hj. destruct (decide (j = from)) as [-> | ?].
      - destruct (decide (from < length r1)%nat).
        + by rewrite !list_lookup_insert_eq by lia.
        + rewrite !lookup_ge_None_2; [done | |]; rewrite length_insert; lia.
      - rewrite !list_lookup_insert_ne by done. apply Hagree. lia. }
    specialize (IH (S from) v1 (<[from := x]> r1) (<[from := x]> r2) w1).
    rewrite !length_insert in IH. specialize (IH Hlen Hagree').
    destruct (for_loop_with (S from) count _ (v1, <[from := x]> r1) w1)
      as [[[v1' r1''] w1'] |],
      (for_loop_with (S from) count _ (v1, <[from := x]> r2) w1)
      as [[[v2' r2''] w2'] |]; try done.
    destruct IH as (Hv & Hw & Hl1 & Hl2 & Hag).
    split; [done |]. split; [done |]. split; [done |]. split; [done |].
    intros j Hj. apply Hag. lia.
Qed.

(** X16.  The vector of ranges handed to [createVertexArrayObjects] is an
    output only: whatever it holds at the call, of whatever length, the
    function does what it does on an empty vector, with the same calls, the
    same names and the same ranges at the return. *)
Theorem createVertexArrayObjects_ignores_ranges (model : Model.t) (bo : list Z)
    (ranges0 : list VaoRange) (w : World) :
  createVertexArrayObjects model bo ranges0 w =
  createVertexArrayObjects model bo [] w.
Proof.
  unfold createVertexArrayObjects. rewrite !bind_run.
  pose proof (meshes_loop_ranges model bo (length (Model.meshes model)) 0 []
                (resize (length (Model.meshes model)) (mkVaoRange 0 0) ranges0)
                (resize (length (Model.meshes model)) (mkVaoRange 0 0) [])
                w) as Hloop.
  rewrite !length_resize in Hloop.
  assert (∀ j, (j < 0)%nat →
            resize (length (Model.meshes model)) (mkVaoRange 0 0) ranges0 !! j =
            resize (length (Model.meshes model)) (mkVaoRange 0 0) [] !! j)
    as Hnone by (intros; lia).
  specialize (Hloop eq_refl Hnone).
  destruct (for_loop_with 0 _ _ ([], resize _ _ ranges0) w)
    as [[[v1 r1] w1] |],
    (for_loop_with 0 _ _ ([], resize _ _ []) w) as [[[v2 r2] w2] |];
    try done.
  destruct Hloop as (<- & <- & Hl1 & Hl2 & Hag).
  assert (r1 = r2) as ->; [| done].
  apply list_eq. intros j.
  destruct (decide (j < length (Model.meshes model))%nat).
  - apply Hag. simpl. lia.
  - rewrite !lookup_ge_None_2; [done | lia | lia].
Qed.

(** ** createVertexArrayObjects: when its behaviour is defined *)

Lemma bind_is_Some {A B} (m : M A) (f : A → M B) (P Q : Prop) (w : World) :
  (is_Some (m w) ↔ P) →
  (∀ a w', m w = Some (a, w') → is_Some (f a w') ↔ Q) →
  is_Some ((m ≫= f) w) ↔ P ∧ Q.
Proof.
  intros Hm Hf. rewrite bind_run. destruct (m w) as [[a w'] |].
  - rewrite (Hf a w' eq_refl), <- Hm. split; [intros ?; split; [by eexists | done] | tauto].
  - rewrite <- Hm. split; [by intros [? ?] | by intros [[? ?] _]].
Qed.

Lemma for_loop_is_Some (body : nat → M unit) (P : nat → Prop) count : ∀ from w,
  (∀ k w, (from ≤ k < from + count)%nat → is_Some (body k w) ↔ P k) →
  is_Some (for_loop from count body w) ↔
  ∀ k, (from ≤ k < from + count)%nat → P k.
Proof.
  induction count as [| count IH]; intros from w Hbody; simpl.
  - split; [intros; lia | by eexists].
  - etrans.
    { apply bind_is_Some; [apply Hbody; lia |].
      intros [] w' _. apply IH. intros k w'' Hk. apply Hbody. lia. }
    split.
    + intros [H0 Hrest] k Hk.
      destruct (decide (k = from)) as [-> |]; [done | apply Hrest; lia].
    + intros Hall. split; [apply Hall; lia | intros k Hk; apply Hall; lia].
Qed.

Lemma vao_init_attribute_ok model primitive bo str index w :
  length bo = length (Model.buffers model) →
  is_Some (vao_init model primitive bo str index w) ↔
  attribute_ok model primitive str = true.
Proof.
  intros Hlen. rewrite (vao_init_is_Some _ _ _ _ _ index default_vao).
  split; [| by apply with_attribute_is_Some].
  unfold with_attribute, attribute_ok.
  destruct (Primitive.attributes primitive !! str) as [accessorIdx |]; [| done].
  intros [v Hv]. apply bool_decide_eq_true.
  destruct (attribute_source model accessorIdx) as [src |]; [by eexists | done].
Qed.

Lemma indices_is_Some model bo primitive w :
  length bo = length (Model.buffers model) →
  is_Some
    ((if decide (0 ≤ Primitive.indices primitive) then
        accessor ← defined (vec_at (Model.accessors model) (Primitive.indices primitive));
        bufferView ←
          defined (vec_at (Model.bufferViews model) (Accessor.bufferView accessor));
        ebo ← defined (vec_at bo (BufferView.buffer bufferView));
        glBindBuffer GL_ELEMENT_ARRAY_BUFFER ebo
      else mret ()) w) ↔
  indices_ok model primitive = true.
Proof.
  intros Hlen. unfold indices_ok.
  case_decide; [| by split; [| intros _; eexists]].
  rewrite bool_decide_eq_true. split.
  - intros [[[] w'] Hrun].
    apply bind_Some in Hrun as (accessor & w1 & [Hacc _]%defined_Some & Hrun).
    apply bind_Some in Hrun as (bufferView & w2 & [Hbv _]%defined_Some & Hrun).
    apply bind_Some in Hrun as (ebo & w3 & [Hebo _]%defined_Some & _).
    simpl in Hacc, Hbv, Hebo.
    destruct (vec_at_same_length bo (Model.buffers model)
                (BufferView.buffer bufferView)) as [b Hb];
      [done | by eexists |].
    exists (accessor, bufferView). unfold attribute_source.
    rewrite Hacc. simpl. rewrite Hbv. simpl. by rewrite Hb.
  - intros [[accessor bufferView] Hsrc].
    apply attribute_source_buffer in Hsrc as (Hacc & Hbv & Hb).
    rewrite (bind_defined _ _ _ _ Hacc), (bind_defined _ _ _ _ Hbv).
    destruct (vec_at_same_length _ bo _ Hlen Hb) as [ebo Hebo].
    rewrite (bind_defined _ _ _ _ Hebo). by eexists.
Qed.

(** Whether the loop body has a defined behaviour depends on the primitive
    only, not on the state of the context nor on the name. *)
Lemma vao_of_primitive_is_Some model bo name primitive w :
  length bo = length (Model.buffers model) →
  is_Some (vao_of_primitive model bo name primitive w) ↔
  primitive_ok model primitive = true.
Proof.
  intros Hlen. unfold vao_of_primitive, primitive_ok.
  rewrite !andb_true_iff, bind_run. cbn.
  etrans.
  { apply bind_is_Some; [by apply vao_init_attribute_ok |]. intros [] w1 _.
    apply bind_is_Some; [by apply vao_init_attribute_ok |]. intros [] w2 _.
    apply bind_is_Some; [by apply vao_init_attribute_ok |]. intros [] w3 _.
    by apply indices_is_Some. }
  tauto.
Qed.

Lemma write_names_length (v names : list Z) (offset : nat) :
  (length v ≤ length (write_names v offset names))%nat.
Proof.
  unfold write_names. rewrite !length_app, length_take, length_drop. lia.
Qed.

Lemma vaos_of_mesh_is_Some model bo i mesh vaos ranges w :
  length bo = length (Model.buffers model) →
  Model.meshes model !! i = Some mesh →
  (i < length ranges)%nat →
  is_Some (vaos_of_mesh model bo i (vaos, ranges) w) ↔
  forallb (primitive_ok model) (Mesh.primitives mesh) = true.
Proof.
  intros Hlen Hmesh Hi. unfold vaos_of_mesh.
  rewrite (bind_defined _ _ _ _ Hmesh).
  destruct (lookup_lt_is_Some_2 ranges i Hi) as [r0 Hr0].
  rewrite (bind_defined _ _ _ _ Hr0), bind_run.
  destruct (glGenVertexArrays _ w) as [[names w1] |] eqn:Hgen; [| done].
  etrans.
  { apply bind_is_Some.
    - apply (for_loop_is_Some _
               (λ k, ∀ primitive, Mesh.primitives mesh !! k = Some primitive →
                       primitive_ok model primitive = true)).
      intros k w2 Hk.
      destruct (lookup_lt_is_Some_2 (Mesh.primitives mesh) k) as [p Hp]; [lia |].
      destruct (lookup_lt_is_Some_2
                  (write_names
                     (resize (length vaos + length (Mesh.primitives mesh)) 0 vaos)
                     (length vaos) names) (length vaos + k)) as [name Hname].
      { pose proof (write_names_length
                      (resize (length vaos + length (Mesh.primitives mesh)) 0 vaos)
                      names (length vaos)) as Hle.
        rewrite length_resize in Hle. lia. }
      rewrite (bind_defined _ _ _ _ Hname), (bind_defined _ _ _ _ Hp).
      rewrite (vao_of_primitive_is_Some _ _ _ _ _ Hlen).
      split; [| by intros Hok; apply Hok].
      intros Hok primitive Hprim.
      by assert (primitive = p) as -> by congruence.
    - intros [] w2 _. split; [intros _; exact I | by intros _; eexists]. }
  rewrite forallb_forall. split.
  - intros [Hall _] primitive [k Hk]%list_elem_of_In%list_elem_of_lookup_1.
    apply (Hall k); [| done]. apply lookup_lt_Some in Hk. lia.
  - intros Hall. split; [| done]. intros k _ primitive Hk.
    apply Hall, list_elem_of_In. by eapply list_elem_of_lookup_2.
Qed.

Lemma meshes_loop_is_Some model bo count : ∀ from vaos ranges w,
  length bo = length (Model.buffers model) →
  (from + count ≤ length (Model.meshes model))%nat →
  (length (Model.meshes model) ≤ length ranges)%nat →
  is_Some (for_loop_with from count (vaos_of_mesh model bo) (vaos, ranges) w) ↔
  ∀ i mesh, (from ≤ i < from + count)%nat →
    Model.meshes model !! i = Some mesh →
    forallb (primitive_ok model) (Mesh.primitives mesh) = true.
Proof.
  induction count as [| count IH]; intros from vaos ranges w Hlen Hcount Hranges.
  - simpl. split; [intros; lia | by eexists].
  - destruct (lookup_lt_is_Some_2 (Model.meshes model) from) as [mesh Hmesh]; [lia |].
    rewrite for_loop_with_S.
    pose proof (vaos_of_mesh_is_Some model bo from mesh vaos ranges w Hlen Hmesh)
      as Hstep.
    pose proof (vaos_of_mesh_ranges model bo from vaos ranges ranges w eq_refl)
      as Hshape.
    destruct (vaos_of_mesh model bo from (vaos, ranges) w)
      as [[[v' r'] w1] |].
    + destruct Hshape as (_ & _ & x & -> & _).
      rewrite IH; [| done | lia | rewrite length_insert; lia].
      split.
      * intros Hall i mesh' Hi Hmesh'.
        destruct (decide (i = from)) as [-> |]; [| apply (Hall i); [lia | done]].
        assert (mesh' = mesh) as -> by congruence.
        apply Hstep; [lia | by eexists].
      * intros Hall i mesh' Hi Hmesh'. apply (Hall i); [lia | done].
    + split; [by intros [? ?] |]. intros Hall.
      apply Hstep; [lia |]. apply (Hall from); [lia | done].
Qed.

(** X17.  On buffer objects that are as many as the buffers of the model,
    [createVertexArrayObjects] has a defined behaviour exactly when every
    accessor, buffer view and buffer index that the attributes POSITION,
    NORMAL and TEXCOORD_0 and the indices of the primitives lead to is in
    range ([model_ok]): this does not depend on the state of the context,
    nor on the vector of ranges, nor on the number of primitives. *)
Theorem createVertexArrayObjects_defined_iff (model : Model.t) (bo : list Z)
    (ranges0 : list VaoRange) (w : World) :
  length bo = length (Model.buffers model) →
  is_Some (createVertexArrayObjects model bo ranges0 w) ↔ model_ok model = true.
Proof.
  intros Hlen. unfold createVertexArrayObjects, model_ok.
  etrans.
  { apply bind_is_Some.
    - apply meshes_loop_is_Some; [done | simpl; lia | by rewrite length_resize].
    - intros r w1 _. split; [intros _; exact I | by intros _; eexists]. }
  rewrite forallb_forall. split.
  - intros [Hall _] mesh [i Hi]%list_elem_of_In%list_elem_of_lookup_1.
    apply (Hall i); [| done]. apply lookup_lt_Some in Hi. simpl. lia.
  - intros Hall. split; [| done]. intros i mesh _ Hi.
    apply Hall, list_elem_of_In. by eapply list_elem_of_lookup_2.
Qed.

(** ** The vertex arrays and the data they read *)

Lemma same_buffers_createVertexArrayObjects model bo ranges0 :
  respects same_buffers (createVertexArrayObjects model bo ranges0).
Proof.
  unfold createVertexArrayObjects.
  apply respects_bind; [apply _ | | intros r].
  - apply respects_for_loop_with; [apply _ |].
    intros i vars. apply same_buffers_vaos_of_mesh.
  - apply respects_bind;
      [apply _ | apply same_buffers_glBindVertexArray | intros _].
    apply respects_ret, _.
Qed.

Lemma model_ok_all_primitives model primitive :
  model_ok model = true → primitive ∈ all_primitives model →
  primitive_ok model primitive = true.
Proof.
  intros Hok Hin. unfold all_primitives in Hin.
  apply list_elem_of_In, in_concat in Hin as (prims & Hprims & Hin).
  apply list_elem_of_In, list_elem_of_fmap in Hprims as (mesh & -> & Hmesh).
  unfold model_ok in Hok. rewrite forallb_forall in Hok.
  specialize (Hok mesh). rewrite forallb_forall in Hok.
  apply Hok; [by apply list_elem_of_In | done].
Qed.

(** On a model whose indices are in range: the vertex arrays behind the
    returned names are, in order, those of the primitives of the model. *)
Lemma createVertexArrayObjects_vaos model bo ranges0 w :
  length bo = length (Model.buffers model) →
  model_ok model = true →
  Z.of_nat (length (all_primitives model)) < 2 ^ 31 →
  ∃ vaos ranges w',
    createVertexArrayObjects model bo ranges0 w = Some ((vaos, ranges), w') ∧
    Forall2 (λ name primitive,
               ∃ v, gl_vaos w' !! name = Some v ∧
                    configured_vao model bo primitive = Some v)
      vaos (all_primitives model).
Proof.
  intros Hlen Hok Hbound.
  destruct (meshes_loop model bo (length (Model.meshes model)) 0 []
              (resize (length (Model.meshes model)) (mkVaoRange 0 0) ranges0)
              w Hlen Hok Hbound)
    as (vaos & ranges & w' & Hrun & _ & _ & _ & Hcfg & _);
    [simpl; lia | by rewrite length_resize | done | constructor
    | by intros x ?%elem_of_nil |].
  simpl in Hrun, Hcfg. rewrite drop_0, firstn_all in Hcfg.
  fold (all_primitives model) in Hcfg.
  eexists vaos, ranges, _. split.
  - unfold createVertexArrayObjects. rewrite bind_run, Hrun. reflexivity.
  - simpl. apply Forall2_same_length_lookup in Hcfg as [Hl Hcfg].
    apply Forall2_same_length_lookup_2; [done |].
    intros i name primitive Hname Hprim.
    destruct (primitive_ok_configured model bo primitive Hlen) as [v Hv].
    { apply model_ok_all_primitives; [done |]. by eapply list_elem_of_lookup_2. }
    exists v. split; [| done]. rewrite <- Hv. by eapply Hcfg.
Qed.

Lemma with_attribute_element_buffer model bo primitive str index v v' :
  with_attribute model bo primitive str index v = Some v' →
  vao_element_buffer v' = vao_element_buffer v.
Proof.
  unfold with_attribute. intros Heff.
  destruct (Primitive.attributes primitive !! str) as [accessorIdx |];
    [| by injection Heff as <-].
  destruct (attribute_source model accessorIdx) as [[accessor bufferView] |];
    [simpl in Heff | done].
  destruct (vec_at bo (BufferView.buffer bufferView)) as [name |];
    [simpl in Heff | done].
  by injection Heff as <-.
Qed.

(** The slots that are enabled in the vertex array of a primitive are those
    of the attributes it has among the three the application knows; its
    index buffer is the one [element_buffer_of] says. *)
Lemma configured_vao_shape model bo primitive v :
  configured_vao model bo primitive = Some v →
  (∀ slot, slot ∈ vao_enabled v ↔
     ∃ str, (str, slot) ∈ attribute_slots ∧
            is_Some (Primitive.attributes primitive !! str)) ∧
  element_buffer_of model bo primitive = Some (vao_element_buffer v).
Proof.
  intros Hcfg. split.
  - intros slot. split.
    + intros Hen.
      assert (slot = 0 ∨ slot = 1 ∨ slot = 2) as Hslot.
      { destruct (decide (slot = 0)); [tauto |].
        destruct (decide (slot = 1)); [tauto |].
        destruct (decide (slot = 2)); [tauto |]. exfalso.
        unfold configured_vao in Hcfg.
        destruct (with_attribute model bo primitive "POSITION" _ default_vao)
          as [v1 |] eqn:H1; [simpl in Hcfg | done].
        destruct (with_attribute model bo primitive "NORMAL" _ v1)
          as [v2 |] eqn:H2; [simpl in Hcfg | done].
        destruct (with_attribute model bo primitive "TEXCOORD_0" _ v2)
          as [v3 |] eqn:H3; [simpl in Hcfg | done].
        apply with_attribute_spec in H1 as [K1 _].
        apply with_attribute_spec in H2 as [K2 _].
        apply with_attribute_spec in H3 as [K3 _].
        apply with_indices_spec in Hcfg as [He _]. rewrite He in Hen.
        apply (K3 slot) in Hen; [| done]. apply (K2 slot) in Hen; [| done].
        apply (K1 slot) in Hen; [| done]. by apply not_elem_of_empty in Hen. }
      assert (∃ str, (str, slot) ∈ attribute_slots) as [str Hstr].
      { unfold attribute_slots.
        destruct Hslot as [-> | [-> | ->]];
          [exists "POSITION" | exists "NORMAL" | exists "TEXCOORD_0"];
          apply list_elem_of_In; simpl; tauto. }
      exists str. split; [done |].
      pose proof (configured_vao_slot model bo primitive v str slot Hcfg Hstr) as Hs.
      destruct (Primitive.attributes primitive !! str); [by eexists |].
      by destruct Hs.
    + intros (str & Hstr & [accessorIdx Hattr]).
      pose proof (configured_vao_slot model bo primitive v str slot Hcfg Hstr) as Hs.
      rewrite Hattr in Hs. by destruct Hs as (? & ? & ? & _ & _ & ? & _).
  - unfold configured_vao in Hcfg.
    destruct (with_attribute model bo primitive "POSITION" _ default_vao)
      as [v1 |] eqn:H1; [simpl in Hcfg | done].
    destruct (with_attribute model bo primitive "NORMAL" _ v1)
      as [v2 |] eqn:H2; [simpl in Hcfg | done].
    destruct (with_attribute model bo primitive "TEXCOORD_0" _ v2)
      as [v3 |] eqn:H3; [simpl in Hcfg | done].
    apply with_attribute_element_buffer in H1, H2, H3.
    unfold with_indices in Hcfg. unfold element_buffer_of. case_decide.
    + destruct (vec_at (Model.accessors model) _) as [accessor |];
        [simpl in Hcfg |- * | done].
      destruct (vec_at (Model.bufferViews model) _) as [bufferView |];
        [simpl in Hcfg |- * | done].
      destruct (vec_at bo _) as [ebo |]; [simpl in Hcfg | done].
      by injection Hcfg as <-.
    + injection Hcfg as <-. by rewrite H3, H2, H1.
Qed.

(** X18.  On a model whose indices are in range, with fewer than 2^31
    primitives: in the vertex array [createVertexArrayObjects] makes for a
    primitive, the enabled slots are exactly those of the attributes the
    primitive has among POSITION, NORMAL and TEXCOORD_0 (any other attribute
    of the primitive enables nothing), and the index buffer is the buffer
    object of the buffer view of the accessor of the indices, or none (zero)
    for a primitive without indices. *)
Theorem vertex_arrays_of_primitives (model : Model.t) (bo : list Z)
    (ranges0 : list VaoRange) (w : World) :
  length bo = length (Model.buffers model) →
  model_ok model = true →
  Z.of_nat (length (all_primitives model)) < 2 ^ 31 →
  ∃ vaos ranges w',
    createVertexArrayObjects model bo ranges0 w = Some ((vaos, ranges), w') ∧
    Forall2 (λ name primitive,
               ∃ v, gl_vaos w' !! name = Some v ∧
                 (∀ slot, slot ∈ vao_enabled v ↔
                    ∃ str, (str, slot) ∈ attribute_slots ∧
                           is_Some (Primitive.attributes primitive !! str)) ∧
                 element_buffer_of model bo primitive
                   = Some (vao_element_buffer v) ∧
                 (Primitive.indices primitive < 0 → vao_element_buffer v = 0))
      vaos (all_primitives model).
Proof.
  intros Hlen Hok Hbound.
  destruct (createVertexArrayObjects_vaos model bo ranges0 w Hlen Hok Hbound)
    as (vaos & ranges & w' & Hrun & Hcfg).
  exists vaos, ranges, w'. split; [done |].
  eapply Forall2_impl; [exact Hcfg |].
  intros name primitive (v & Hv & Hcv). exists v. split; [done |].
  destruct (configured_vao_shape model bo primitive v Hcv) as [Hen Hebo].
  split; [done |]. split; [done |].
  intros Hneg. unfold element_buffer_of in Hebo.
  rewrite decide_False in Hebo by lia. by injection Hebo as <-.
Qed.

Lemma createBufferObjects_stores (model : Model.t) (w : World) :
  Z.of_nat (length (Model.buffers model)) < 2 ^ 31 →
  ∃ bo w', createBufferObjects model w = Some (bo, w') ∧
    length bo = length (Model.buffers model) ∧
    ∀ idx h b, vec_at bo idx = Some h → vec_at (Model.buffers model) idx = Some b →
      gl_buffers w' !! h = Some (store_of b).
Proof.
  intros Hlen. unfold createBufferObjects.
  destruct (glGenBuffers_run _ w Hlen) as (names & w1 & Hgen & Hn & Hnd & _).
  rewrite bind_run, Hgen, (write_names_all _ _ _ Hn).
  destruct (upload_loop model names (length (Model.buffers model)) 0 w1 Hnd)
    as (w2 & Hloop & Hin & _); [simpl; lia | simpl; lia |].
  rewrite bind_run, Hloop.
  eexists names, _. split; [reflexivity |]. split; [done |].
  intros idx h b [_ Hh]%vec_at_Some [_ Hb]%vec_at_Some. simpl.
  apply (Hin (Z.to_nat idx)); [| done | done].
  apply lookup_lt_Some in Hb. lia.
Qed.

(** X19.  [createBufferObjects] followed by [createVertexArrayObjects] on
    its result, as [run] calls them, on a model whose indices are in range
    with fewer than 2^31 buffers and primitives: in the vertex array of
    every primitive, the pointer of each attribute the primitive has among
    POSITION, NORMAL and TEXCOORD_0 names a buffer object whose data store
    holds the bytes of the buffer of the model that the buffer view of the
    attribute's accessor refers to, and likewise the index buffer for a
    primitive with indices.  The second call leaves the data stores of the
    first as they are. *)
Theorem vertex_arrays_read_model_buffers (model : Model.t)
    (ranges0 : list VaoRange) (w : World) :
  model_ok model = true →
  Z.of_nat (length (Model.buffers model)) < 2 ^ 31 →
  Z.of_nat (length (all_primitives model)) < 2 ^ 31 →
  ∃ bo w1 vaos ranges w2,
    createBufferObjects model w = Some (bo, w1) ∧
    createVertexArrayObjects model bo ranges0 w1 = Some ((vaos, ranges), w2) ∧
    gl_buffers w2 = gl_buffers w1 ∧
    Forall2 (λ name primitive,
               ∃ v, gl_vaos w2 !! name = Some v ∧
                 (∀ str slot accessorIdx,
                    (str, slot) ∈ attribute_slots →
                    Primitive.attributes primitive !! str = Some accessorIdx →
                    ∃ accessor bufferView b p,
                      attribute_source model accessorIdx
                        = Some (accessor, bufferView) ∧
                      vec_at (Model.buffers model) (BufferView.buffer bufferView)
                        = Some b ∧
                      vao_pointers v !! slot = Some p ∧
                      gl_buffers w2 !! ap_buffer p = Some (store_of b)) ∧
                 (0 ≤ Primitive.indices primitive →
                  ∃ accessor bufferView b,
                    attribute_source model (Primitive.indices primitive)
                      = Some (accessor, bufferView) ∧
                    vec_at (Model.buffers model) (BufferView.buffer bufferView)
                      = Some b ∧
                    gl_buffers w2 !! vao_element_buffer v = Some (store_of b)))
      vaos (all_primitives model).
Proof.
  intros Hok Hbufs Hprims.
  destruct (createBufferObjects_stores model w Hbufs)
    as (bo & w1 & Hrun1 & Hlen & Hstores).
  destruct (createVertexArrayObjects_vaos model bo ranges0 w1 Hlen Hok Hprims)
    as (vaos & ranges & w2 & Hrun2 & Hcfg).
  destruct (same_buffers_createVertexArrayObjects _ _ _ _ _ _ Hrun2)
    as (Hsame & _).
  exists bo, w1, vaos, ranges, w2.
  split; [done |]. split; [done |]. split; [done |].
  apply Forall2_same_length_lookup in Hcfg as [Hl Hcfg].
  apply Forall2_same_length_lookup_2; [done |].
  intros i name primitive Hname Hprim.
  destruct (Hcfg i name primitive Hname Hprim) as (v & Hv & Hcv).
  exists v. split; [done |]. split.
  - intros str slot accessorIdx Hslot Hattr.
    pose proof (configured_vao_slot model bo primitive v str slot Hcv Hslot) as Hs.
    rewrite Hattr in Hs.
    destruct Hs as (accessor & bufferView & h & Hsrc & Hh & _ & Hptr).
    pose proof Hsrc as Hsrc'.
    apply attribute_source_buffer in Hsrc' as (_ & _ & [b Hb]).
    exists accessor, bufferView, b, (attrib_pointer accessor bufferView h).
    split; [done |]. split; [done |]. split; [done |].
    rewrite Hsame. simpl. by eapply Hstores.
  - intros Hind.
    assert (primitive_ok model primitive = true) as Hpok.
    { apply model_ok_all_primitives; [done |]. by eapply list_elem_of_lookup_2. }
    unfold primitive_ok in Hpok. apply andb_prop in Hpok as [_ Hiok].
    unfold indices_ok in Hiok. rewrite decide_True in Hiok by done.
    apply bool_decide_eq_true in Hiok as [[accessor bufferView] Hsrc].
    pose proof Hsrc as Hsrc'.
    apply attribute_source_buffer in Hsrc' as (Hacc & Hbv & [b Hb]).
    exists accessor, bufferView, b. split; [done |]. split; [done |].
    destruct (configured_vao_shape model bo primitive v Hcv) as [_ Hebo].
    unfold element_buffer_of in Hebo. rewrite decide_True in Hebo by done.
    rewrite Hacc in Hebo. simpl in Hebo. rewrite Hbv in Hebo. simpl in Hebo.
    rewrite Hsame. by eapply Hstores.
Qed.

(** ** run: when its behaviour is defined *)

Lemma to_GLsizei_le (z : Z) : 0 ≤ z → to_GLsizei z ≤ z.
Proof.
  intros Hz. unfold to_GLsizei.
  pose proof (Z.mod_le (z + 2 ^ 31) (2 ^ 32)). lia.
Qed.

(** [createBufferObjects] returns on every model, with as many names as the
    model has buffers; past 2^31 buffers some of them are zero. *)
Lemma createBufferObjects_total (model : Model.t) (w : World) :
  ∃ bo w', createBufferObjects model w = Some (bo, w') ∧
    length bo = length (Model.buffers model).
Proof.
  unfold createBufferObjects. rewrite bind_run.
  destruct (glGenBuffers _ w) as [[names w1] |] eqn:Hgen; [| done].
  assert (length names ≤ length (Model.buffers model))%nat as Hn.
  { unfold glGenBuffers in Hgen. injection Hgen as <- _.
    case_decide; [| simpl; lia]. rewrite gen_names_length.
    pose proof (to_GLsizei_le (Z.of_nat (length (Model.buffers model)))). lia. }
  assert (length (write_names (replicate (length (Model.buffers model)) 0) 0 names)
          = length (Model.buffers model)) as Hlen.
  { unfold write_names.
    rewrite !length_app, length_take, length_drop, length_replicate. lia. }
  destruct (upload_loop_effect model
              (write_names (replicate (length (Model.buffers model)) 0) 0 names)
              (length (Model.buffers model)) 0 w1)
    as (w2 & Hloop & _); [simpl; lia | simpl; lia |].
  rewrite bind_run, Hloop. by eexists _, _.
Qed.

Lemma frame_loop_is_Some this model frames cameraController w :
  is_Some (frame_loop this model frames cameraController w) ↔
  frames = [] ∨
  Model.defaultScene model < Z.of_nat (length (Model.scenes model)).
Proof.
  split.
  - intros Hsome. destruct frames as [| f frames]; [by left | right].
    destruct (decide (Model.defaultScene model
                      < Z.of_nat (length (Model.scenes model)))) as [| Hge];
      [done | exfalso].
    simpl in Hsome. unfold frame in Hsome.
    rewrite bind_assoc_run, bind_run, drawScene_undefined in Hsome;
      [by destruct Hsome |].
    apply scene_roots_None. lia.
  - intros [-> | Hlt]; [by eexists |].
    destruct (scene_roots_in_range model Hlt) as (roots & Hroots & _).
    by rewrite (frame_loop_run _ _ _ _ _ _ Hroots).
Qed.

(** X20.  [run] has a defined behaviour exactly when the loader fails, or
    every index that the construction of the vertex arrays follows is in
    range and, if at least one frame is drawn, the index of the default
    scene is below the number of scenes.  Nothing else matters: neither the
    state of the context, nor the texts of the loader, nor the number of
    buffers, nor what the window does in the frames. *)
Theorem run_defined_iff (this : ViewerApplication)
    (loaded : string → LoadResult) (frames : list FrameInput) (w : World) :
  is_Some (run this loaded frames w) ↔
  lr_ret (loaded (m_gltfFilePath this)) = false ∨
  (model_ok (lr_model (loaded (m_gltfFilePath this))) = true ∧
   (frames = [] ∨
    Model.defaultScene (lr_model (loaded (m_gltfFilePath this)))
      < Z.of_nat (length (Model.scenes (lr_model (loaded (m_gltfFilePath this))))))).
Proof.
  destruct (lr_ret (loaded (m_gltfFilePath this))) eqn:Hret.
  2: { rewrite run_failure by done. split; [by left | by eexists]. }
  set (r := loaded (m_gltfFilePath this)) in *.
  set (w1 := with_cerr (loader_output r (cerr w))
               (add_events (prelude_events this) w)).
  destruct (createBufferObjects_total (lr_model r) w1) as (bo & w2 & Hrun2 & Hlen).
  assert (is_Some (run this loaded frames w) ↔
          model_ok (lr_model r) = true ∧
          (frames = [] ∨
           Model.defaultScene (lr_model r)
             < Z.of_nat (length (Model.scenes (lr_model r))))) as ->;
    [| split; [by right | by intros [? | ?]]].
  unfold run.
  rewrite bind_emit, !bind_gl, bind_run, run_cameraController_run.
  rewrite bind_run, loadGltfFile_run. fold r. rewrite Hret. mrun.
  change (negb true) with false. cbv iota.
  change (with_cerr _ _) with w1. rewrite bind_run, Hrun2.
  apply bind_is_Some.
  - unfold createVertexArrayObjects, model_ok.
    etrans.
    { apply bind_is_Some.
      - apply meshes_loop_is_Some; [done | simpl; lia | by rewrite length_resize].
      - intros r' w3 _. split; [intros _; exact I | by intros _; eexists]. }
    rewrite forallb_forall. split.
    + intros [Hall _] mesh [i Hi]%list_elem_of_In%list_elem_of_lookup_1.
      apply (Hall i); [| done]. apply lookup_lt_Some in Hi. simpl. lia.
    + intros Hall. split; [| done]. intros i mesh _ Hi.
      apply Hall, list_elem_of_In. by eapply list_elem_of_lookup_2.
  - intros r' w3 _. rewrite !bind_gl.
    etrans.
    { apply bind_is_Some; [apply frame_loop_is_Some |].
      intros c w4 _. split; [intros _; exact I | by intros _; eexists]. }
    tauto.
Qed.

(** ** The clipboard *)

Lemma clipboard_calls_drawNode_events (roots : list Z) :
  clipboard_calls (drawNode_events roots) = [].
Proof. by induction roots. Qed.

Lemma clipboard_calls_frame_events this roots f cameraController :
  clipboard_calls (frame_events this roots f cameraController) =
    if fi_header_open f && fi_button_clicked f
    then [getCamera cameraController] else [].
Proof.
  unfold frame_events, drawScene_events, after_draw_events, clipboard_calls.
  rewrite !omap_app. fold (clipboard_calls (drawNode_events roots)).
  rewrite clipboard_calls_drawNode_events.
  by destruct (fi_header_open f && fi_button_clicked f), (guiHasFocus f).
Qed.

Lemma clipboard_calls_frames_events this roots frames : ∀ cameraController,
  clipboard_calls (frames_events this roots frames cameraController) =
    copied_cameras frames (getCamera <$> controllers frames cameraController).
Proof.
  induction frames as [| f frames IH]; intros cameraController; [done |].
  change (frames_events this roots (f :: frames) cameraController)
    with (frame_events this roots f cameraController
          ++ frames_events this roots frames (next_controller f cameraController)).
  unfold clipboard_calls in *.
  rewrite omap_app, IH.
  fold (clipboard_calls (frame_events this roots f cameraController)).
  rewrite clipboard_calls_frame_events.
  unfold copied_cameras. simpl.
  by destruct (fi_header_open f && fi_button_clicked f).
Qed.

(** X21.  When the index of the default scene is in range: the frame loop
    puts a camera on the clipboard in exactly the iterations in which the
    header of the overlay is open and its button is clicked, once in each,
    and the camera is the one that iteration was drawn with, not the one
    after [update].  In particular nothing is put on the clipboard while
    the header is closed. *)
Theorem clipboard_gets_drawn_camera (this : ViewerApplication)
    (model : Model.t) (frames : list FrameInput)
    (cameraController : FirstPersonCameraController) (w : World) :
  Model.defaultScene model < Z.of_nat (length (Model.scenes model)) →
  ∃ final w' evs,
    frame_loop this model frames cameraController w = Some (final, w') ∧
    events w' = events w ++ evs ∧
    length (drawn_cameras evs) = length frames ∧
    clipboard_calls evs = copied_cameras frames (drawn_cameras evs) ∧
    (Forall (λ f, fi_header_open f = false) frames → clipboard_calls evs = []).
Proof.
  intros Hrange.
  destruct (scene_roots_in_range model Hrange) as (roots & Hroots & _).
  destruct (frames_events_facts this roots frames cameraController)
    as (Hcams & _).
  pose proof (clipboard_calls_frames_events this roots frames cameraController)
    as Hclip.
  eexists _, _, _. split; [by apply frame_loop_run |]. simpl.
  split; [done |].
  split; [by rewrite Hcams, length_fmap, controllers_length |].
  split; [by rewrite Hcams |].
  rewrite Hclip. generalize (getCamera <$> controllers frames cameraController).
  clear Hcams Hclip. intros cameras Hclosed. revert cameras.
  induction Hclosed as [| f frames' Hf _ IH]; intros [| c cameras]; try done.
  unfold copied_cameras in *. simpl. rewrite Hf. simpl. apply IH.
Qed.

End ViewerProofs.

(** * The statements at concrete inputs *)

Section Instances.
#[local] Existing Instance least_driver.
#[local] Existing Instance plain_cameras.

(** C1, on the scene of two nodes.  The run on that scene, for one frame,
    returns 0; [drawNode] is invoked once, on the root node 0 with the
    identity, and never on node 1, which has the mesh; no draw call is among
    the events. *)
Theorem two_node_scene_draws_nothing :
  ∃ w', run viewer (loads two_node_model) [one_frame] world0 = Some (0, w') ∧
    drawNode_calls (events w') = [(0, mat4_diag 1)] ∧
    draw_calls (events w') = [].
Proof.
  eexists. split.
  - vm_compute. reflexivity.
  - split.
    + vm_compute. reflexivity.
    + vm_compute. reflexivity.
Qed.

(** C6, on the same scene, whose primitive has positions only.  The vertex
    array of the primitive is made and leaves slot 1, of the normals, as it
    was: not enabled, no pointer.  The run on the scene returns 0, and there
    is no draw call among its events. *)
Theorem primitive_without_normal_not_drawn :
  (∃ vaos ranges w1 v,
     (bo ← createBufferObjects two_node_model;
      createVertexArrayObjects two_node_model bo []) world0
       = Some ((vaos, ranges), w1) ∧
     vaos = [1] ∧ ranges = [mkVaoRange 0 1] ∧
     gl_vaos w1 !! 1 = Some v ∧
     vao_enabled v = {[VERTEX_ATTRIB_POSITION_IDX]} ∧
     vao_pointers v !! VERTEX_ATTRIB_NORMAL_IDX = None) ∧
  (∃ w', run viewer (loads two_node_model) [one_frame] world0 = Some (0, w') ∧
     draw_calls (events w') = []).
Proof.
  split.
  - eexists _, _, _, _. split; [vm_compute; reflexivity |].
    split; [done |]. split; [done |]. split; [vm_compute; reflexivity |].
    split; [vm_compute; reflexivity | done].
  - eexists. split; [vm_compute; reflexivity |]. by vm_compute.
Qed.

(** C4 as it is written fails on a scalar accessor: the size given for the
    positions is the type code 65, where the cardinality of a scalar is 1. *)
Lemma scalar_accessor_size_is_type_code :
  ∃ w' v p,
    vao_of_primitive scalar_model [1] 1 position_only world0 = Some ((), w') ∧
    gl_vaos w' !! 1 = Some v ∧
    vao_pointers v !! VERTEX_ATTRIB_POSITION_IDX = Some p ∧
    ap_size p = 65 ∧
    cardinality_of_type TINYGLTF_TYPE_SCALAR = Some 1 ∧
    Some (ap_size p) ≠ cardinality_of_type TINYGLTF_TYPE_SCALAR.
Proof.
  eexists _, _, _. split; [vm_compute; reflexivity |].
  split; [vm_compute; reflexivity |]. split; [vm_compute; reflexivity |].
  split; [done |]. split; [done |]. by vm_compute.
Qed.

Lemma createVertexArrayObjects_ranges_witness :
  ∃ vaos ranges w',
    createVertexArrayObjects vec3_model [1] [] world0 = Some ((vaos, ranges), w') ∧
    length vaos = 1%nat ∧ length ranges = 1%nat.
Proof.
  destruct (createVertexArrayObjects_ranges vec3_model [1] [] world0)
    as (vaos & ranges & w' & Hrun & Hvaos & _ & Hranges & _);
    [reflexivity | vm_compute; reflexivity | vm_compute; reflexivity |].
  by exists vaos, ranges, w'.
Defined.

Lemma createBufferObjects_spec_witness :
  ∃ bo w', createBufferObjects vec3_model world0 = Some (bo, w') ∧
    length bo = 1%nat.
Proof.
  destruct (createBufferObjects_spec vec3_model world0)
    as (bo & w' & Hrun & Hlen & _); [vm_compute; reflexivity |].
  by exists bo, w'.
Defined.

Lemma vao_attribute_pointer_witness :
  ∃ w' v,
    vao_of_primitive vec3_model [7] 1 position_only world0 = Some ((), w') ∧
    gl_vaos w' !! 1 = Some v ∧
    vao_pointers v !! 0 = Some (mkAttribPointer 3 GL_FLOAT false 12 0 7).
Proof.
  destruct (vao_attribute_pointer vec3_model [7] 1 position_only world0
              "POSITION" 0 0 (Accessor.mk 0 0 GL_FLOAT TINYGLTF_TYPE_VEC3)
              (BufferView.mk 0 0 12))
    as [(w' & v & h & Hrun & Hv & Hh & _ & Hptr & _) _];
    [reflexivity | vm_compute; reflexivity | lia | reflexivity
    | apply list_elem_of_here | vm_compute; reflexivity | reflexivity
    | vm_compute; split; [discriminate | reflexivity]
    | vm_compute; split; [discriminate | reflexivity]
    | vm_compute; split; [discriminate | reflexivity] |].
  vm_compute in Hh. injection Hh as <-.
  exists w', v. split; [exact Hrun | split; [exact Hv | exact Hptr]].
Defined.

Lemma frame_loop_order_witness :
  ∃ final w' evs,
    frame_loop viewer vec3_model [one_frame] (initial_controller viewer) world0
      = Some (final, w') ∧
    events w' = events world0 ++ evs ∧
    phase_after BeforeDraw evs = Some BeforeDraw.
Proof.
  destruct (frame_loop_order viewer vec3_model [one_frame]
              (initial_controller viewer) world0)
    as (final & w' & evs & Hrun & Hev & Hphase & _); [vm_compute; reflexivity |].
  by exists final, w', evs.
Defined.

Lemma drawScene_starts_at_roots_witness :
  ∃ w' evs,
    drawScene viewer two_node_model (seed_camera viewer) world0 = Some ((), w') ∧
    events w' = events world0 ++ evs ∧
    drawNode_calls evs = [(0, mat4_diag 1)].
Proof.
  destruct (drawScene_starts_at_roots viewer two_node_model (seed_camera viewer)
              world0)
    as (w' & evs & roots & Hrun & Hev & _ & Hnodes & _ & Hroots);
    [vm_compute; reflexivity |].
  destruct Hroots as (scene & Hscene & ->); [vm_compute; discriminate |].
  injection Hscene as <-. by exists w', evs.
Defined.

Lemma run_exit_code_witness :
  ∃ w', run viewer (loads vec3_model) [one_frame] world0 = Some (0, w') ∧
    cerr w' = "".
Proof.
  destruct (run_exit_code viewer (loads vec3_model) [one_frame] world0)
    as (code & w' & Hrun & Hcode & _ & Hcerr & _);
    [intros _; vm_compute; reflexivity |].
  simpl in Hcode. subst code.
  exists w'. split; [exact Hrun | exact Hcerr].
Defined.

Lemma run_failure_makes_nothing_witness :
  ∃ w', run viewer fails [one_frame] world0 = Some (-1, w') ∧
    gl_buffers w' = gl_buffers world0 ∧ gl_vaos w' = gl_vaos world0.
Proof.
  destruct (run_failure_makes_nothing viewer fails [one_frame] world0)
    as (w' & Hrun & Hb & Hv & _); [reflexivity |].
  exists w'. split; [exact Hrun | split; [exact Hb | exact Hv]].
Defined.

Lemma frame_loop_keeps_context_witness :
  ∃ final w',
    frame_loop viewer vec3_model [one_frame; focus_frame]
      (initial_controller viewer) world0 = Some (final, w') ∧
    gl_buffers w' = gl_buffers world0 ∧ gl_vaos w' = gl_vaos world0.
Proof.
  destruct (frame_loop_keeps_context viewer vec3_model [one_frame; focus_frame]
              (initial_controller viewer) world0)
    as (final & w' & evs & Hrun & _ & _ & Hb & Hv & _);
    [vm_compute; reflexivity |].
  exists final, w'. split; [exact Hrun | split; [exact Hb | exact Hv]].
Defined.

Lemma focus_freezes_camera_witness :
  ∃ w' evs,
    frame_loop viewer vec3_model [focus_frame; focus_frame]
      (initial_controller viewer) world0
      = Some (initial_controller viewer, w') ∧
    events w' = events world0 ++ evs ∧
    update_calls evs = [].
Proof.
  destruct (focus_freezes_camera viewer vec3_model [focus_frame; focus_frame]
              (initial_controller viewer) world0)
    as (w' & evs & Hrun & Hev & Hupd & _);
    [vm_compute; reflexivity | repeat constructor |].
  exists w', evs. split; [exact Hrun | split; [exact Hev | exact Hupd]].
Defined.

Lemma run_makes_resources_once_witness :
  ∃ w' setup loop,
    run viewer (loads two_node_model) [one_frame; focus_frame] world0
      = Some (0, w') ∧
    events w' = events world0 ++ setup ++ loop ∧
    List.filter is_resource_call loop = [] ∧
    length (List.filter is_swap loop) = 2%nat.
Proof.
  destruct (run_makes_resources_once viewer (loads two_node_model)
              [one_frame; focus_frame] world0)
    as (w' & setup & loop & Hrun & Hev & _ & _ & _ & Hres & _ & _ & Hswap);
    [reflexivity | vm_compute; reflexivity |].
  exists w', setup, loop.
  split; [exact Hrun | split; [exact Hev | split; [exact Hres | exact Hswap]]].
Defined.

Lemma run_uses_constructor_arguments_witness :
  ∃ w' rest,
    run viewer (loads vec3_model) [one_frame] world0 = Some (0, w') ∧
    events w' =
      events world0
      ++ EvCompileProgram "forward.vs.glsl" "normals.fs.glsl" :: rest.
Proof.
  destruct (run_uses_constructor_arguments "forward.vs.glsl" "normals.fs.glsl"
              1280 720 "scene.gltf" [] "" "" viewer (loads vec3_model)
              [one_frame] world0)
    as (w' & rest & Hrun & Hev);
    [reflexivity | intros _; vm_compute; reflexivity |].
  exists w', rest. split; [exact Hrun | exact Hev].
Defined.

Lemma run_issues_no_draw_call_witness :
  ∃ code w' evs,
    run viewer (loads two_node_model) [one_frame] world0 = Some (code, w') ∧
    events w' = events world0 ++ evs ∧
    draw_calls evs = [].
Proof.
  apply (run_issues_no_draw_call viewer (loads two_node_model) [one_frame]
           world0).
  intros _. vm_compute. reflexivity.
Defined.

Lemma createBufferObjects_calls_witness :
  ∃ bo w', createBufferObjects vec3_model world0 = Some (bo, w') ∧
    events w' =
      events world0
      ++ EvGL (glGenBuffers_ 1 bo)
         :: upload_events bo (Model.buffers vec3_model)
      ++ [EvGL (glBindBuffer_ GL_ARRAY_BUFFER 0)] ∧
    gl_array_buffer w' = 0.
Proof.
  destruct (createBufferObjects_calls vec3_model world0)
    as (bo & w' & Hrun & Hev & Hbound & _); [vm_compute; reflexivity |].
  exists bo, w'. split; [exact Hrun | split; [exact Hev | exact Hbound]].
Defined.

Lemma createBufferObjects_fresh_witness :
  ∃ bo w', createBufferObjects vec3_model world0 = Some (bo, w') ∧
    gl_buffer_names w' = list_to_set bo ∪ gl_buffer_names world0.
Proof.
  destruct (createBufferObjects_fresh vec3_model world0)
    as (bo & w' & Hrun & _ & _ & _ & Hnames); [vm_compute; reflexivity |].
  exists bo, w'. split; [exact Hrun | exact Hnames].
Defined.

Lemma vao_init_frame_witness :
  ∃ w',
    vao_init vec3_model position_only [7] "POSITION" 0 world0 = Some ((), w') ∧
    gl_buffers w' = gl_buffers world0 ∧
    gl_vertex_array w' = gl_vertex_array world0.
Proof.
  assert (∃ w', vao_init vec3_model position_only [7] "POSITION" 0 world0
                = Some ((), w')) as [w' Hrun]
    by (eexists; vm_compute; reflexivity).
  destruct (vao_init_frame vec3_model position_only [7] "POSITION" 0 world0 w'
              Hrun) as (Hb & _ & _ & Hva & _).
  exists w'. split; [exact Hrun | split; [exact Hb | exact Hva]].
Defined.

Lemma createVertexArrayObjects_frame_witness :
  ∃ r w',
    createVertexArrayObjects vec3_model [7] [] world0 = Some (r, w') ∧
    gl_vertex_array w' = 0 ∧ gl_buffers w' = gl_buffers world0.
Proof.
  assert (∃ r w', createVertexArrayObjects vec3_model [7] [] world0
                  = Some (r, w')) as (r & w' & Hrun)
    by (eexists _, _; vm_compute; reflexivity).
  destruct (createVertexArrayObjects_frame vec3_model [7] [] world0 r w' Hrun)
    as (Hva & Hb & _).
  exists r, w'. split; [exact Hrun | split; [exact Hva | exact Hb]].
Defined.

Lemma createVertexArrayObjects_defined_iff_witness :
  is_Some (createVertexArrayObjects vec3_model [7] [] world0) ↔
  model_ok vec3_model = true.
Proof.
  apply (createVertexArrayObjects_defined_iff vec3_model [7] [] world0).
  reflexivity.
Defined.

Lemma vertex_arrays_of_primitives_witness :
  ∃ vaos ranges w',
    createVertexArrayObjects vec3_model [7] [] world0
      = Some ((vaos, ranges), w') ∧
    length vaos = 1%nat.
Proof.
  destruct (vertex_arrays_of_primitives vec3_model [7] [] world0)
    as (vaos & ranges & w' & Hrun & Hall);
    [reflexivity | vm_compute; reflexivity | vm_compute; reflexivity |].
  exists vaos, ranges, w'. split; [exact Hrun |].
  exact (Forall2_length _ _ _ Hall).
Defined.

Lemma vertex_arrays_read_model_buffers_witness :
  ∃ bo w1 vaos ranges w2,
    createBufferObjects vec3_model world0 = Some (bo, w1) ∧
    createVertexArrayObjects vec3_model bo [] w1 = Some ((vaos, ranges), w2) ∧
    gl_buffers w2 = gl_buffers w1.
Proof.
  destruct (vertex_arrays_read_model_buffers vec3_model [] world0)
    as (bo & w1 & vaos & ranges & w2 & Hrun1 & Hrun2 & Hsame & _);
    [vm_compute; reflexivity | vm_compute; reflexivity
    | vm_compute; reflexivity |].
  exists bo, w1, vaos, ranges, w2.
  split; [exact Hrun1 | split; [exact Hrun2 | exact Hsame]].
Defined.

Lemma clipboard_gets_drawn_camera_witness :
  ∃ final w' evs,
    frame_loop viewer vec3_model [one_frame; focus_frame]
      (initial_controller viewer) world0 = Some (final, w') ∧
    events w' = events world0 ++ evs ∧
    clipboard_calls evs
      = copied_cameras [one_frame; focus_frame] (drawn_cameras evs).
Proof.
  destruct (clipboard_gets_drawn_camera viewer vec3_model
              [one_frame; focus_frame] (initial_controller viewer) world0)
    as (final & w' & evs & Hrun & Hev & _ & Hclip & _);
    [vm_compute; reflexivity |].
  exists final, w', evs. split; [exact Hrun | split; [exact Hev | exact Hclip]].
Defined.

End Instances.
